(** * BlockHash accent colors: a shallow embedding of the pipeline

    The repository is a small JavaScript pipeline
    fetch -> parse -> derive -> publish.  This development embeds the
    four modules as Rocq functions and states the properties of the
    specification over them.

    - [JS]              the platform: strings, IEEE-754 binary64 numbers,
                        [Math.round], [%], [Number.prototype.toString],
                        [parseInt], SHA-256;
    - [FetchBlockchain] src/fetchBlockchain.js;
    - [ParseLedger]     src/parseLedger.js;
    - [DeriveColors]    src/deriveColors.js;
    - [RoundTrip]       the conversion from hsl to RGB on exact rationals,
                        against which the stored hex is checked;
    - [Publish]         src/publish.js;
    - [CronRunner]      src/cron_runner.js, the pipeline run by cron;
    - [Main]            src/main.js, the retries of [runPipelineSafe].

    Effects are explicit: a function that awaits, throws, reads the clock
    or touches the module-level [config] cache takes a world and returns an
    [Outcome] with the next world. *)

From Stdlib Require Import ZArith List String Ascii Bool Sumbool Lia QArith Qabs Qround.
From Stdlib Require Import Floats.SpecFloat.
From Stdlib Require Floats Uint63.
From Equations Require Import Equations.
Import ListNotations.

Local Open Scope string_scope.
Local Open Scope Z_scope.

(* ===================================================================== *)
(** * The platform                                                        *)
(* ===================================================================== *)

Module JS.

(** ** Completion of a call: a value is returned or an error is thrown. *)

Inductive Outcome (A : Type) : Type :=
| Returned (a : A)
| Thrown (message : string).
Arguments Returned {A} a.
Arguments Thrown {A} message.

(** ** Strings

    A JavaScript string is modelled by a Rocq [string]; the pipeline only
    builds ASCII text (hexadecimal hashes, CSS, digits). *)

(** [s.substring(a, b)]: both indices are clamped to the length and
    swapped when out of order. *)
Definition substring (a b : nat) (s : string) : string :=
  let n := String.length s in
  let a' := Nat.min a n in
  let b' := Nat.min b n in
  let lo := Nat.min a' b' in
  let hi := Nat.max a' b' in
  String.substring lo (hi - lo) s.

Fixpoint repeat_string (n : nat) (c : string) : string :=
  match n with
  | O => ""
  | S k => c ++ repeat_string k c
  end.

(** [s.padStart(n, '0')]. *)
Definition padStart0 (n : nat) (s : string) : string :=
  repeat_string (n - String.length s) "0" ++ s.

Definition is_digit (c : ascii) : bool :=
  let n := nat_of_ascii c in (48 <=? n)%nat && (n <=? 57)%nat.
Definition is_lower_af (c : ascii) : bool :=
  let n := nat_of_ascii c in (97 <=? n)%nat && (n <=? 102)%nat.
Definition is_upper_AF (c : ascii) : bool :=
  let n := nat_of_ascii c in (65 <=? n)%nat && (n <=? 70)%nat.
Definition is_upper (c : ascii) : bool :=
  let n := nat_of_ascii c in (65 <=? n)%nat && (n <=? 90)%nat.

(** The value of a hexadecimal digit, if it is one. *)
Definition hex_digit_value (c : ascii) : option Z :=
  let n := Z.of_nat (nat_of_ascii c) in
  if is_digit c then Some (n - 48)
  else if is_lower_af c then Some (n - 87)
  else if is_upper_AF c then Some (n - 55)
  else None.

Definition is_hex_char (c : ascii) : bool :=
  is_digit c || is_lower_af c || is_upper_AF c.

Fixpoint string_forallb (p : ascii -> bool) (s : string) : bool :=
  match s with
  | EmptyString => true
  | String c r => p c && string_forallb p r
  end.

Fixpoint string_filter (p : ascii -> bool) (s : string) : string :=
  match s with
  | EmptyString => EmptyString
  | String c r => if p c then String c (string_filter p r) else string_filter p r
  end.

Fixpoint string_map (f : ascii -> ascii) (s : string) : string :=
  match s with
  | EmptyString => EmptyString
  | String c r => String (f c) (string_map f r)
  end.

Definition lower_char (c : ascii) : ascii :=
  if is_upper c then ascii_of_nat (nat_of_ascii c + 32) else c.

(** [s.toLowerCase()] on ASCII text. *)
Definition toLowerCase (s : string) : string := string_map lower_char s.

(** A string is truthy when it is not empty. *)
Definition truthy_string (s : string) : bool :=
  match s with EmptyString => false | _ => true end.

(** ** Numbers: IEEE-754 binary64

    A JavaScript number is a double.  The Standard Library's [SpecFloat]
    gives the arithmetic, correctly rounded to nearest-even, as plain
    functions on [spec_float]. *)

Definition Number : Type := spec_float.

Definition prec : Z := 53.
Definition emax : Z := 1024.

Definition NaN : Number := S754_nan.

(** The number nearest to an integer (exact below 2^53). *)
Definition of_int (n : Z) : Number := binary_normalize prec emax n 0 false.

Definition add : Number -> Number -> Number := SFadd prec emax.
Definition sub : Number -> Number -> Number := SFsub prec emax.
Definition mul : Number -> Number -> Number := SFmul prec emax.
Definition div : Number -> Number -> Number := SFdiv prec emax.

Definition ltb : Number -> Number -> bool := SFltb.
Definition geb (x y : Number) : bool := SFleb y x.

Definition Math_abs : Number -> Number := SFabs.

(** [Math.max(x, y)] and [Math.min(x, y)]: NaN when an argument is NaN;
    +0 is larger than -0. *)
Definition Math_max (x y : Number) : Number :=
  match x, y with
  | S754_nan, _ | _, S754_nan => NaN
  | S754_zero sx, S754_zero sy => S754_zero (sx && sy)
  | _, _ => if SFltb x y then y else x
  end.

Definition Math_min (x y : Number) : Number :=
  match x, y with
  | S754_nan, _ | _, S754_nan => NaN
  | S754_zero sx, S754_zero sy => S754_zero (sx || sy)
  | _, _ => if SFltb y x then y else x
  end.

(** [x === y] on numbers. *)
Definition strict_eq : Number -> Number -> bool := SFeqb.

(** A decimal literal [n / 10^k] of the source text or of the JSON
    configuration: the double nearest to it. *)
Definition decimal (n : Z) (k : nat) : Number :=
  div (of_int n) (of_int (10 ^ Z.of_nat k)).

(** The signed integer mantissa of a finite number. *)
Definition signed_mantissa (s : bool) (m : positive) : Z :=
  if s then Zneg m else Zpos m.

(** [floor (x + 1/2)] for [x = m * 2^e] with a negative exponent. *)
Definition round_half_up (s : bool) (m : positive) (e : Z) : Z :=
  (2 * signed_mantissa s m + 2 ^ (- e)) / 2 ^ (1 - e).

(** [Math.round(x)]: the integer nearest to [x], ties towards +infinity;
    NaN and the infinities are returned unchanged, and a result of zero
    keeps the sign of [x]. *)
Definition Math_round (x : Number) : Number :=
  match x with
  | S754_finite s m e =>
      if 0 <=? e then x
      else
        let n := round_half_up s m e in
        if n =? 0 then S754_zero s else of_int n
  | _ => x
  end.

(** [x % y]: the remainder of the truncating division, exact, with the
    sign of the dividend. *)
Definition rem (x y : Number) : Number :=
  match x, y with
  | S754_nan, _ | _, S754_nan => NaN
  | S754_infinity _, _ => NaN
  | _, S754_zero _ => NaN
  | S754_zero _, _ => x
  | _, S754_infinity _ => x
  | S754_finite sx mx ex, S754_finite _ my ey =>
      let e0 := Z.min ex ey in
      let X := Zpos mx * 2 ^ (ex - e0) in
      let Y := Zpos my * 2 ^ (ey - e0) in
      let R := X mod Y in
      if R =? 0 then S754_zero sx
      else binary_normalize prec emax (if sx then - R else R) e0 false
  end.



(** The integer a number denotes, when it is finite and integral. *)
Definition to_int (x : Number) : option Z :=
  match x with
  | S754_zero _ => Some 0
  | S754_finite s m e =>
      if 0 <=? e then Some (signed_mantissa s m * 2 ^ e)
      else if (Zpos m) mod 2 ^ (- e) =? 0
           then Some (signed_mantissa s m / 2 ^ (- e))
           else None
  | _ => None
  end.

(** ** Printing and parsing numbers *)

Definition digit_char (d : Z) : ascii :=
  if d <? 10 then ascii_of_nat (48 + Z.to_nat d)
  else ascii_of_nat (87 + Z.to_nat d).

Fixpoint digits_loop (fuel : nat) (radix n : Z) (acc : string) : string :=
  match fuel with
  | O => acc
  | S f =>
      let acc' := String (digit_char (n mod radix)) acc in
      if n / radix =? 0 then acc' else digits_loop f radix (n / radix) acc'
  end.

(** The digits of a natural number in a radix between 2 and 16. *)
Definition nat_to_string (radix n : Z) : string :=
  digits_loop (S (Z.to_nat (Z.log2 n))) radix n "".

Definition int_to_string (radix n : Z) : string :=
  if n <? 0 then "-" ++ nat_to_string radix (- n) else nat_to_string radix n.

(** The numerator and denominator of the magnitude of a finite number. *)
Definition magnitude (m : positive) (e : Z) : Z * Z :=
  if 0 <=? e then (Zpos m * 2 ^ e, 1) else (Zpos m, 2 ^ (- e)).

(** The number nearest to the rational [a / b], for positive [a], [b]. *)
Definition nearest (a b : Z) : Number :=
  let '(q, e, l) := SFdiv_core_binary prec emax a 0 b 0 in
  binary_round_aux prec emax false q e l.

(** The number nearest to [s * 10^j]. *)
Definition scaled_decimal (s j : Z) : Number :=
  if 0 <=? j then of_int (s * 10 ^ j) else nearest s (10 ^ (- j)).

(** The exponent [n] with [10^(n-1) <= a/b < 10^n], for positive [a], [b]. *)
Fixpoint leading_zeros (fuel : nat) (a b : Z) (j : Z) : Z :=
  match fuel with
  | O => j
  | S f => if b <=? a * 10 ^ j then j else leading_zeros f a b (j + 1)
  end.

Definition decimal_exponent (a b : Z) : Z :=
  if b <=? a then Z.of_nat (String.length (nat_to_string 10 (a / b)))
  else 1 - leading_zeros 400 a b 1.

(** [floor (a/b / 10^j)]. *)
Definition scaled_floor (a b j : Z) : Z :=
  if 0 <=? j then a / (b * 10 ^ j) else (a * 10 ^ (- j)) / b.

(** The candidates [(s, n)] with [k] digits that read back as [x]: the
    search of Number::toString for the shortest decimal. *)
Definition candidates (x : Number) (a b n0 k : Z) : list (Z * Z) :=
  flat_map
    (fun n =>
       let lo := scaled_floor a b (n - k) in
       filter
         (fun sn =>
            let s := fst sn in
            (10 ^ (k - 1) <=? s) && (s <? 10 ^ k)
            && SFeqb (scaled_decimal s (n - k)) x)
         [(lo, n); (lo + 1, n)])
    [n0; n0 + 1].

(** |s * 10^(n-k) - a/b|, scaled by a common positive factor. *)
Definition distance (a b k : Z) (sn : Z * Z) : Z :=
  let '(s, n) := sn in
  if 0 <=? n - k then Z.abs (s * 10 ^ (n - k) * b - a)
  else Z.abs (s * b - a * 10 ^ (k - n)).

Definition closest (a b k : Z) (l : list (Z * Z)) : option (Z * Z) :=
  match l with
  | [] => None
  | c :: r =>
      Some (fold_left
              (fun best c' =>
                 if distance a b k c' <? distance a b k best then c' else best)
              r c)
  end.

Fixpoint shortest (fuel : nat) (x : Number) (a b n0 k : Z) : Z * Z * Z :=
  match fuel with
  | O => (0, n0, k)
  | S f =>
      match closest a b k (candidates x a b n0 k) with
      | Some (s, n) => (s, n, k)
      | None => shortest f x a b n0 (k + 1)
      end
  end.

Definition exponent_part (n : Z) : string :=
  "e" ++ (if 0 <=? n - 1 then "+" else "-") ++ nat_to_string 10 (Z.abs (n - 1)).

(** Number::toString of a positive finite number [m * 2^e]. *)
Definition positive_to_string (m : positive) (e : Z) : string :=
  let '(a, b) := magnitude m e in
  let '(s, n, k) :=
    shortest 17 (S754_finite false m e) a b (decimal_exponent a b) 1 in
  let ds := nat_to_string 10 s in
  if (k <=? n) && (n <=? 21) then
    ds ++ repeat_string (Z.to_nat (n - k)) "0"
  else if (0 <? n) && (n <=? 21) then
    String.substring 0 (Z.to_nat n) ds ++ "."
    ++ String.substring (Z.to_nat n) (Z.to_nat (k - n)) ds
  else if (-6 <? n) && (n <=? 0) then
    "0." ++ repeat_string (Z.to_nat (- n)) "0" ++ ds
  else if k =? 1 then ds ++ exponent_part n
  else
    String.substring 0 1 ds ++ "."
    ++ String.substring 1 (Z.to_nat (k - 1)) ds ++ exponent_part n.

(** The string a number becomes in a template literal. *)
Definition Number_toString (x : Number) : string :=
  match x with
  | S754_nan => "NaN"
  | S754_infinity s => if s then "-Infinity" else "Infinity"
  | S754_zero _ => "0"
  | S754_finite s m e =>
      (if s then "-" else "") ++ positive_to_string m e
  end.

(** The hexadecimal digits of the fraction [a / 2^j] (below 1); it is
    dyadic, so the expansion ends. *)
Fixpoint fraction_hex (fuel : nat) (a j : Z) : string :=
  match fuel with
  | O => ""
  | S f =>
      if a =? 0 then ""
      else String (digit_char ((a * 16) / 2 ^ j))
                  (fraction_hex f ((a * 16) mod 2 ^ j) j)
  end.

(** [x.toString(16)].  The pipeline prints results of [Math.round] only,
    which are integral; for a number with a fraction, where ECMAScript
    leaves the digits to the engine, the exact expansion is printed. *)
Definition Number_toString16 (x : Number) : string :=
  match x with
  | S754_nan => "NaN"
  | S754_infinity s => if s then "-Infinity" else "Infinity"
  | S754_zero _ => "0"
  | S754_finite s m e =>
      (if s then "-" else "")
      ++ (if 0 <=? e then nat_to_string 16 (Zpos m * 2 ^ e)
          else
            let j := - e in
            let ip := Zpos m / 2 ^ j in
            let fp := Zpos m mod 2 ^ j in
            nat_to_string 16 ip
            ++ (if fp =? 0 then ""
                else "." ++ fraction_hex (Z.to_nat j) fp j))
  end.

Definition is_whitespace (c : ascii) : bool :=
  let n := nat_of_ascii c in
  ((9 <=? n)%nat && (n <=? 13)%nat) || (n =? 32)%nat.

Fixpoint skip_whitespace (s : string) : string :=
  match s with
  | String c r => if is_whitespace c then skip_whitespace r else s
  | EmptyString => s
  end.

(** The value of the longest prefix of hexadecimal digits, if not empty. *)
Fixpoint hex_prefix (s : string) (acc : option Z) : option Z :=
  match s with
  | String c r =>
      match hex_digit_value c with
      | Some d =>
          hex_prefix r (Some (match acc with Some a => a * 16 + d | None => d end))
      | None => acc
      end
  | EmptyString => acc
  end.

Definition strip_0x (s : string) : string :=
  match s with
  | String "0" (String "x" r) => r
  | String "0" (String "X" r) => r
  | _ => s
  end.

(** [parseInt(s, 16)]. *)
Definition parseInt16 (s : string) : Number :=
  let t := skip_whitespace s in
  let '(neg, t) :=
    match t with
    | String "-" r => (true, r)
    | String "+" r => (false, r)
    | _ => (false, t)
    end in
  match hex_prefix (strip_0x t) None with
  | Some v => if neg then SFopp (of_int v) else of_int v
  | None => NaN
  end.

(** ** SHA-256 ([crypto.subtle.digest('SHA-256', data)])

    Words are integers below 2^32, with the wrap-around written out. *)

Module SHA256.

Definition w32 (x : Z) : Z := x mod 2 ^ 32.
Definition rotr (n x : Z) : Z :=
  Z.lor (Z.shiftr x n) (w32 (Z.shiftl x (32 - n))).
Definition Ch (x y z : Z) : Z :=
  Z.lxor (Z.land x y) (Z.land (Z.lxor x (2 ^ 32 - 1)) z).
Definition Maj (x y z : Z) : Z :=
  Z.lxor (Z.lxor (Z.land x y) (Z.land x z)) (Z.land y z).
Definition Sigma0 (x : Z) : Z :=
  Z.lxor (Z.lxor (rotr 2 x) (rotr 13 x)) (rotr 22 x).
Definition Sigma1 (x : Z) : Z :=
  Z.lxor (Z.lxor (rotr 6 x) (rotr 11 x)) (rotr 25 x).
Definition sigma0 (x : Z) : Z :=
  Z.lxor (Z.lxor (rotr 7 x) (rotr 18 x)) (Z.shiftr x 3).
Definition sigma1 (x : Z) : Z :=
  Z.lxor (Z.lxor (rotr 17 x) (rotr 19 x)) (Z.shiftr x 10).

(** The constants are fractional parts of roots of the first primes:
    32 bits of the cube roots of the first 64 primes for [K], of the
    square roots of the first 8 for the initial state. *)
Definition is_prime (n : nat) : bool :=
  forallb (fun d => negb (n mod d =? 0)%nat) (seq 2 (n - 2)).

Definition primes : list Z := map Z.of_nat (filter is_prime (seq 2 310)).

(** The integer cube root, one bit at a time. *)
Fixpoint cube_root_bits (bit : nat) (n r : Z) : Z :=
  match bit with
  | O => r
  | S k =>
      let r' := r + 2 ^ Z.of_nat k in
      cube_root_bits k n (if r' * r' * r' <=? n then r' else r)
  end.

Definition cube_root_fraction (p : Z) : Z := w32 (cube_root_bits 40 (p * 2 ^ 96) 0).
Definition square_root_fraction (p : Z) : Z := w32 (Z.sqrt (p * 2 ^ 64)).

Definition K : list Z := Eval vm_compute in map cube_root_fraction primes.

(** The eight working variables. *)
Record State := mkState { a : Z; b : Z; c : Z; d : Z; e : Z; f : Z; g : Z; h : Z }.

Definition H0 : State :=
  Eval vm_compute in
    match map square_root_fraction (firstn 8 primes) with
    | [h0; h1; h2; h3; h4; h5; h6; h7] => mkState h0 h1 h2 h3 h4 h5 h6 h7
    | _ => mkState 0 0 0 0 0 0 0 0
    end.

(** The message with its padding: a 1 bit, zeros, and the bit length on 64
    bits, to a multiple of 64 bytes. *)
Definition be_bytes (count : nat) (x : Z) : list Z :=
  map (fun i => (x / 256 ^ Z.of_nat (count - 1 - i)) mod 256) (seq 0 count).

Definition pad (msg : list Z) : list Z :=
  let n := Z.of_nat (List.length msg) in
  let zeros := Z.to_nat ((55 - n) mod 64) in
  (msg ++ [0x80] ++ repeat 0 zeros ++ be_bytes 8 (8 * n))%list.

Fixpoint be_words (fuel : nat) (bytes : list Z) : list Z :=
  match fuel, bytes with
  | S k, b0 :: b1 :: b2 :: b3 :: r =>
      (((b0 * 256 + b1) * 256 + b2) * 256 + b3) :: be_words k r
  | _, _ => []
  end.

(** The message schedule, most recent word first. *)
Fixpoint schedule (count : nat) (rev_w : list Z) : list Z :=
  match count with
  | O => rev_w
  | S k =>
      let w := w32 (sigma1 (nth 1 rev_w 0) + nth 6 rev_w 0
                    + sigma0 (nth 14 rev_w 0) + nth 15 rev_w 0) in
      schedule k (w :: rev_w)
  end.

Definition round (s : State) (kw : Z * Z) : State :=
  let t1 := h s + Sigma1 (e s) + Ch (e s) (f s) (g s) + fst kw + snd kw in
  let t2 := Sigma0 (a s) + Maj (a s) (b s) (c s) in
  mkState (w32 (t1 + t2)) (a s) (b s) (c s) (w32 (d s + t1)) (e s) (f s) (g s).

Definition compress (s : State) (block : list Z) : State :=
  let w := rev (schedule 48 (rev (be_words 16 block))) in
  let r := fold_left round (combine K w) s in
  mkState (w32 (a s + a r)) (w32 (b s + b r)) (w32 (c s + c r))
          (w32 (d s + d r)) (w32 (e s + e r)) (w32 (f s + f r))
          (w32 (g s + g r)) (w32 (h s + h r)).

Fixpoint blocks (fuel : nat) (s : State) (bytes : list Z) : State :=
  match fuel, bytes with
  | S k, _ :: _ => blocks k (compress s (firstn 64 bytes)) (skipn 64 bytes)
  | _, _ => s
  end.

(** The 32 bytes of the digest. *)
Definition digest (msg : list Z) : list Z :=
  let p := pad msg in
  let s := blocks (List.length p) H0 p in
  flat_map (be_bytes 4) [a s; b s; c s; d s; e s; f s; g s; h s].

End SHA256.

(** [new TextEncoder().encode(s)] on ASCII text. *)
Fixpoint encode (s : string) : list Z :=
  match s with
  | EmptyString => []
  | String c r => Z.of_nat (nat_of_ascii c) :: encode r
  end.

Fixpoint join (l : list string) : string :=
  match l with
  | [] => ""
  | x :: r => x ++ join r
  end.

(** ** Values and JSON *)

(** A JavaScript value as [response.json()] and property reads give it,
    and as [JSON.stringify] prints it. *)
#[local] Set Warnings "-register-all".
Inductive Value :=
| Undefined
| Null
| Bool (b : bool)
| Num (x : Number)
| Str (s : string)
| Array (items : list Value)
| Object (fields : list (string * Value)).

Definition truthy_Number (x : Number) : bool :=
  match x with
  | S754_zero _ | S754_nan => false
  | _ => true
  end.

Definition truthy (v : Value) : bool :=
  match v with
  | Undefined | Null => false
  | Bool b => b
  | Num x => truthy_Number x
  | Str s => truthy_string s
  | Array _ | Object _ => true
  end.

(** The field of an object; the last of duplicate keys wins. *)
Fixpoint lookup (name : string) (fields : list (string * Value)) : Value :=
  match fields with
  | [] => Undefined
  | (k, v) :: rest =>
      match lookup name rest with
      | Undefined => if String.eqb k name then v else Undefined
      | later => later
      end
  end.

(** [v.name] for the names [id], [hash] and [block]: a TypeError on
    [null] and [undefined], the field of an object, [undefined] on
    anything else. *)
Definition get (v : Value) (name : string) : Outcome Value :=
  match v with
  | Undefined =>
      Thrown ("Cannot read properties of undefined (reading '" ++ name ++ "')")
  | Null =>
      Thrown ("Cannot read properties of null (reading '" ++ name ++ "')")
  | Object fields => Returned (lookup name fields)
  | _ => Returned Undefined
  end.

Definition newline : string := String (ascii_of_nat 10) "".

Fixpoint join_with (sep : string) (l : list string) : string :=
  match l with
  | [] => ""
  | [x] => x
  | x :: r => x ++ sep ++ join_with sep r
  end.

Definition escape_char (c : ascii) : string :=
  let n := nat_of_ascii c in
  if (n =? 34)%nat then "\" ++ String c ""
  else if (n =? 92)%nat then "\\"
  else if (n =? 8)%nat then "\b"
  else if (n =? 9)%nat then "\t"
  else if (n =? 10)%nat then "\n"
  else if (n =? 12)%nat then "\f"
  else if (n =? 13)%nat then "\r"
  else if (n <? 32)%nat then "\u00" ++ padStart0 2 (nat_to_string 16 (Z.of_nat n))
  else String c "".

Fixpoint escape (s : string) : string :=
  match s with
  | EmptyString => ""
  | String c r => escape_char c ++ escape r
  end.

Definition quote (s : string) : string :=
  String (ascii_of_nat 34) (escape s) ++ String (ascii_of_nat 34) "".

(** [JSON.stringify(v, null, 2)] below the indentation [indent];
    [None] is [undefined]. *)
Fixpoint stringify (indent : string) (v : Value) {struct v} : option string :=
  match v with
  | Undefined => None
  | Null => Some "null"
  | Bool b => Some (if b then "true" else "false")
  | Num x =>
      Some match x with
           | S754_nan | S754_infinity _ => "null"
           | _ => Number_toString x
           end
  | Str s => Some (quote s)
  | Array items =>
      let inner := indent ++ "  " in
      let parts :=
        (fix go (l : list Value) : list string :=
           match l with
           | [] => []
           | x :: r =>
               match stringify inner x with
               | Some t => t
               | None => "null"
               end :: go r
           end) items in
      Some match parts with
           | [] => "[]"
           | _ => "[" ++ newline ++ inner
                  ++ join_with ("," ++ newline ++ inner) parts
                  ++ newline ++ indent ++ "]"
           end
  | Object fields =>
      let inner := indent ++ "  " in
      let parts :=
        (fix go (l : list (string * Value)) : list string :=
           match l with
           | [] => []
           | (k, x) :: r =>
               match stringify inner x with
               | Some t => (quote k ++ ": " ++ t) :: go r
               | None => go r
               end
           end) fields in
      Some match parts with
           | [] => "{}"
           | _ => "{" ++ newline ++ inner
                  ++ join_with ("," ++ newline ++ inner) parts
                  ++ newline ++ indent ++ "}"
           end
  end.

End JS.


(* ===================================================================== *)
(** * inputs/config.json and its per-module cache                         *)
(* ===================================================================== *)

Module Config.
Import JS.

Record Blockchain := {
  rpcUrl : string;
  latestBlockEndpoint : string
}.

(** [paletteSize] is a JSON integer; the ranges are JSON arrays of
    numbers. *)
Record ColorDerivation := {
  algorithm : option string;
  paletteSize : option Z;
  saturationRange : option (list Number);
  lightnessRange : option (list Number)
}.

Record Output := { publicDir : option string }.

Record t := {
  blockchain : Blockchain;
  colorDerivation : option ColorDerivation;
  output : option Output
}.

(** [cfg.colorDerivation?.field]. *)
Definition colorDerivation_field {A} (field : ColorDerivation -> option A)
    (cfg : t) : option A :=
  match colorDerivation cfg with
  | Some cd => field cd
  | None => None
  end.

(** Every module keeps its own [let config = null] and reads the same
    file: [cache] is that variable, [file] what reading and parsing
    inputs/config.json gives at this moment. *)
Record Store := {
  cache : option t;
  file : Outcome t
}.

(** [loadConfig()]: the cached object if there is one; otherwise the file
    is read, cached and returned, and a failure is logged and rethrown. *)
Definition loadConfig (st : Store) : Outcome t * Store :=
  match cache st with
  | Some cfg => (Returned cfg, st)
  | None =>
      match file st with
      | Returned cfg => (Returned cfg, {| cache := Some cfg; file := file st |})
      | Thrown error => (Thrown error, st)
      end
  end.

End Config.

(* ===================================================================== *)
(** * src/parseLedger.js                                                  *)
(* ===================================================================== *)

Module ParseLedger.
Import JS.

(** A block as the upstream API sends it.  [hash] and [id] are strings
    when present, the other fields numbers, [tx] an array. *)
Record BlockObject := {
  hash : option string;
  id : option string;
  height : option Z;
  block_height : option Z;
  timestamp : option Z;
  time : option Z;
  tx : option (list string);
  n_tx : option Z;
  size : option Z
}.

Inductive RawBlock :=
| RawNull
| RawString (s : string)
| RawObject (o : BlockObject).

(** The argument of [parseLedger]: one block or an array of blocks. *)
Inductive RawData :=
| SingleBlock (b : RawBlock)
| BlockArray (blocks : list RawBlock).

(** The object [extractBlockMetadata] returns: [{}] or the four fields. *)
Inductive Metadata :=
| EmptyMetadata
| BlockMetadata (height timestamp : option Z) (txCount : Z) (size : option Z).

Record ParsedData := {
  parsed_hash : option string;
  parsed_hashes : list string;
  parsed_metadata : Metadata;
  parsed_algorithm : option string
}.

Definition truthy_field (v : option string) : bool :=
  match v with Some s => truthy_string s | None => false end.

Definition truthy_number (v : option Z) : bool :=
  match v with Some n => negb (n =? 0) | None => false end.

(** [a || b] and [a || null] on optional numbers. *)
Definition or_number (a b : option Z) : option Z :=
  if truthy_number a then a else b.

Definition or_null (a : option Z) : option Z :=
  if truthy_number a then a else None.

Definition truthy_block (b : RawBlock) : bool :=
  match b with
  | RawNull => false
  | RawString s => truthy_string s
  | RawObject _ => true
  end.

(** [/^[a-fA-F0-9]+$/.test(hash)]. *)
Definition hex_regex_test (hash : string) : bool :=
  truthy_string hash && string_forallb is_hex_char hash.

Definition parseBlockHash (blockData : RawBlock) : option string :=
  if negb (truthy_block blockData) then None
  else
    let hash :=
      match blockData with
      | RawString s => Some s
      | RawObject o =>
          if truthy_field (hash o) then hash o
          else if truthy_field (id o) then id o
          else None
      | RawNull => None
      end in
    match hash with
    | Some h => if truthy_string h && hex_regex_test h then Some h else None
    | None => None
    end.

Fixpoint parseBlockArray_loop (blocks : list RawBlock) (hashes : list string)
    : list string :=
  match blocks with
  | [] => hashes
  | block :: rest =>
      match parseBlockHash block with
      | Some hash => parseBlockArray_loop rest (hashes ++ [hash])%list
      | None => parseBlockArray_loop rest hashes
      end
  end.

Definition parseBlockArray (blocks : list RawBlock) : list string :=
  match blocks with
  | [] => []
  | _ => parseBlockArray_loop blocks []
  end.

Definition is_lower_hex (c : ascii) : bool := is_lower_af c || is_digit c.

(** [hash.toLowerCase().replace(/[^a-f0-9]/g, '')], and [''] for a
    missing hash. *)
Definition normalizeHash (hash : option string) : string :=
  match hash with
  | Some h =>
      if negb (truthy_string h) then ""
      else string_filter is_lower_hex (toLowerCase h)
  | None => ""
  end.

Definition extractBlockMetadata (blockData : RawBlock) : Metadata :=
  match blockData with
  | RawObject o =>
      BlockMetadata
        (or_null (or_number (height o) (block_height o)))
        (or_null (or_number (timestamp o) (time o)))
        (let len := match tx o with
                    | Some l => Some (Z.of_nat (List.length l))
                    | None => None
                    end in
         match or_number len (n_tx o) with
         | Some n => n
         | None => 0
         end)
        (or_null (size o))
  | _ => EmptyMetadata
  end.

(** [rawData[0]]. *)
Definition element0 (blocks : list RawBlock) : RawBlock :=
  match blocks with
  | b :: _ => b
  | [] => RawNull
  end.

Definition default_algorithm (cfg : Config.t) : string :=
  match Config.colorDerivation_field Config.algorithm cfg with
  | Some a => if truthy_string a then a else "sha256"
  | None => "sha256"
  end.

Definition parseLedger (rawData : RawData) (st : Config.Store)
    : Outcome ParsedData * Config.Store :=
  match Config.loadConfig st with
  | (Thrown error, st1) => (Thrown error, st1)
  | (Returned cfg, st1) =>
      match rawData with
      | SingleBlock b =>
          if negb (truthy_block b) then
            (Returned {| parsed_hash := None; parsed_hashes := [];
                         parsed_metadata := EmptyMetadata;
                         parsed_algorithm := None |}, st1)
          else
            let hash := parseBlockHash b in
            let hashes := match hash with Some h => [h] | None => [] end in
            let metadata := extractBlockMetadata b in
            (Returned {| parsed_hash := Some (normalizeHash hash);
                         parsed_hashes := map (fun h => normalizeHash (Some h)) hashes;
                         parsed_metadata := metadata;
                         parsed_algorithm := Some (default_algorithm cfg) |}, st1)
      | BlockArray blocks =>
          let hashes := parseBlockArray blocks in
          let hash := match hashes with h :: _ => Some h | [] => None end in
          let metadata :=
            if truthy_block (element0 blocks)
            then extractBlockMetadata (element0 blocks)
            else EmptyMetadata in
          (Returned {| parsed_hash := Some (normalizeHash hash);
                       parsed_hashes := map (fun h => normalizeHash (Some h)) hashes;
                       parsed_metadata := metadata;
                       parsed_algorithm := Some (default_algorithm cfg) |}, st1)
      end
  end.

(** *** The vocabulary of the parsing properties *)

(** The hash of the first element of an array that passes validation. *)
Fixpoint first_valid_hash (blocks : list RawBlock) : option string :=
  match blocks with
  | [] => None
  | b :: rest =>
      match parseBlockHash b with
      | Some h => Some h
      | None => first_valid_hash rest
      end
  end.

(** The hashes of the blocks that pass validation, in order. *)
Definition valid_hashes (blocks : list RawBlock) : list string :=
  flat_map (fun b => match parseBlockHash b with
                     | Some h => [h]
                     | None => []
                     end) blocks.

End ParseLedger.

(* ===================================================================== *)
(** * src/deriveColors.js (the module that follows src/cron_runner.js)    *)
(* ===================================================================== *)

Module DeriveColors.
Import JS.

Record HSL := { h : Number; s : Number; l : Number }.

(** [{ hsl, css, hex }]: what [deriveSingleColor] returns, and the shape
    of the accent. *)
Record Color := { hsl : HSL; css : string; hex : string }.

(** A palette entry: [{ index, ...color, fromHash }]. *)
Record Swatch := { index : Z; color : Color; fromHash : string }.

Record ColorData := {
  palette : list Swatch;
  primaryColor : option Swatch;
  accentColor : option Color;
  hash : option string;
  algorithm : string;
  metadata : option ParseLedger.Metadata;
  derivedAt : option string
}.

(** The module's [config] variable with the configuration file, and the
    clock: [clock n] is what the n-th [new Date().toISOString()] gives. *)
Record World := {
  store : Config.Store;
  clock : nat -> string;
  clock_reads : nat
}.

Definition with_store (st : Config.Store) (w : World) : World :=
  {| store := st; clock := clock w; clock_reads := clock_reads w |}.

(** [new Date().toISOString()]. *)
Definition now (w : World) : string * World :=
  (clock w (clock_reads w),
   {| store := store w; clock := clock w; clock_reads := S (clock_reads w) |}).

(** [b.toString(16).padStart(2, '0')]. *)
Definition byte_hex (b : Z) : string :=
  padStart0 2 (Number_toString16 (of_int b)).

(** [sha256(input)]: the digest of the encoded text, each byte as two
    hexadecimal digits. *)
Definition sha256 (input : string) : string :=
  join (map byte_hex (SHA256.digest (encode input))).

Definition hslToCss (c : HSL) : string :=
  "hsl(" ++ Number_toString (h c) ++ ", " ++ Number_toString (s c) ++ "%, "
  ++ Number_toString (l c) ++ "%)".

Definition hslToHex (c : HSL) : string :=
  let s := div (s c) (of_int 100) in
  let l := div (l c) (of_int 100) in
  let c' := mul (sub (of_int 1) (Math_abs (sub (mul (of_int 2) l) (of_int 1)))) s in
  let x := mul c' (sub (of_int 1)
                       (Math_abs (sub (rem (div (h c) (of_int 60)) (of_int 2))
                                      (of_int 1)))) in
  let m := sub l (div c' (of_int 2)) in
  let '(r, g, b) :=
    if geb (h c) (of_int 0) && ltb (h c) (of_int 60) then (c', x, of_int 0)
    else if geb (h c) (of_int 60) && ltb (h c) (of_int 120) then (x, c', of_int 0)
    else if geb (h c) (of_int 120) && ltb (h c) (of_int 180) then (of_int 0, c', x)
    else if geb (h c) (of_int 180) && ltb (h c) (of_int 240) then (of_int 0, x, c')
    else if geb (h c) (of_int 240) && ltb (h c) (of_int 300) then (x, of_int 0, c')
    else (c', of_int 0, x) in
  let toHex n :=
    padStart0 2 (Number_toString16 (Math_round (mul (add n m) (of_int 255)))) in
  "#" ++ toHex r ++ toHex g ++ toHex b.

(** [hexToHsl(hex)].  A [switch (max)] none of whose cases is strictly
    equal to [max] leaves [h] undefined, which is NaN in [h * 360]. *)
Definition hexToHsl (hex : string) : HSL :=
  let r := div (parseInt16 (substring 0 2 hex)) (of_int 255) in
  let g := div (parseInt16 (substring 2 4 hex)) (of_int 255) in
  let b := div (parseInt16 (substring 4 6 hex)) (of_int 255) in
  let max := Math_max (Math_max r g) b in
  let min := Math_min (Math_min r g) b in
  let l := div (add max min) (of_int 2) in
  let '(h, s) :=
    if strict_eq max min then (of_int 0, of_int 0)
    else
      let d := sub max min in
      let s := if ltb (decimal 5 1) l
               then div d (sub (sub (of_int 2) max) min)
               else div d (add max min) in
      let h :=
        if strict_eq max r then
          div (add (div (sub g b) d) (if ltb g b then of_int 6 else of_int 0))
              (of_int 6)
        else if strict_eq max g then
          div (add (div (sub b r) d) (of_int 2)) (of_int 6)
        else if strict_eq max b then
          div (add (div (sub r g) d) (of_int 4)) (of_int 6)
        else NaN in
      (h, s) in
  {| h := Math_round (mul h (of_int 360));
     s := Math_round (mul s (of_int 100));
     l := Math_round (mul l (of_int 100)) |}.

(** [range[i]]; a missing element is [undefined], NaN in arithmetic. *)
Definition range_at (range : list Number) (i : nat) : Number := nth i range NaN.

Definition default_saturationRange : list Number := [decimal 6 1; decimal 9 1].
Definition default_lightnessRange : list Number := [decimal 4 1; decimal 7 1].

Definition satRange_of (cfg : Config.t) : list Number :=
  match Config.colorDerivation_field Config.saturationRange cfg with
  | Some r => r
  | None => default_saturationRange
  end.

Definition lightRange_of (cfg : Config.t) : list Number :=
  match Config.colorDerivation_field Config.lightnessRange cfg with
  | Some r => r
  | None => default_lightnessRange
  end.

Definition deriveSingleColor (hashSegment : string) (cfg : Config.t) : Color :=
  let hue :=
    mul (div (parseInt16 (substring 0 3 hashSegment)) (of_int 4095)) (of_int 360) in
  let satRange := satRange_of cfg in
  let lightRange := lightRange_of cfg in
  let satNorm := div (parseInt16 (substring 3 5 hashSegment)) (of_int 255) in
  let saturation :=
    add (range_at satRange 0)
        (mul satNorm (sub (range_at satRange 1) (range_at satRange 0))) in
  let lightNorm := div (parseInt16 (substring 5 6 hashSegment)) (of_int 15) in
  let lightness :=
    add (range_at lightRange 0)
        (mul lightNorm (sub (range_at lightRange 1) (range_at lightRange 0))) in
  let hsl := {| h := Math_round hue;
                s := Math_round (mul saturation (of_int 100));
                l := Math_round (mul lightness (of_int 100)) |} in
  let hex := hslToHex hsl in
  {| hsl := hsl; css := hslToCss hsl; hex := hex |}.

(** [cfg.colorDerivation?.paletteSize || 6]. *)
Definition paletteSize_of (cfg : Config.t) : Z :=
  match Config.colorDerivation_field Config.paletteSize cfg with
  | Some n => if n =? 0 then 6 else n
  | None => 6
  end.

Definition segmentLength : nat := 6.

(** The segment the loop reads for index [i]. *)
Definition segment_at (fullHash : string) (i : nat) : string :=
  let startIdx := (i * segmentLength)%nat in
  substring (startIdx mod 64) (startIdx mod 64 + segmentLength) fullHash.

(** The [for (let i = 0; i < paletteSize; i++)] loop: [count] iterations
    are left, [i] is the index, [palette] what was pushed so far. *)
Fixpoint palette_loop (fullHash hash : string) (cfg : Config.t)
    (count i : nat) (palette : list Swatch) : list Swatch :=
  match count with
  | O => palette
  | S count' =>
      let segment := segment_at fullHash i in
      let palette' :=
        if (String.length segment =? segmentLength)%nat then
          (palette ++ [{| index := Z.of_nat i;
                          color := deriveSingleColor segment cfg;
                          fromHash := substring 0 8 hash ++ "..." |}])%list
        else palette in
      palette_loop fullHash hash cfg count' (S i) palette'
  end.

Definition accent_of (primary : Swatch) : Color :=
  let p := hsl (color primary) in
  let accentHue := rem (add (h p) (of_int 180)) (of_int 360) in
  {| hsl := {| h := accentHue; s := s p; l := l p |};
     css := "hsl(" ++ Number_toString accentHue ++ ", " ++ Number_toString (s p)
            ++ "%, " ++ Number_toString (l p) ++ "%)";
     hex := hslToHex {| h := accentHue; s := s p; l := l p |} |}.

Definition algorithm_or_default (a : option string) (dflt : string) : string :=
  match a with
  | Some x => if truthy_string x then x else dflt
  | None => dflt
  end.

(** The parsed data and hash the guard [!parsedData || !parsedData.hash]
    lets through. *)
Definition usable_hash (parsedData : option ParseLedger.ParsedData)
    : option (ParseLedger.ParsedData * string) :=
  match parsedData with
  | Some pd =>
      match ParseLedger.parsed_hash pd with
      | Some hash => if truthy_string hash then Some (pd, hash) else None
      | None => None
      end
  | None => None
  end.

(** The result for a missing or empty hash. *)
Definition empty_result (cfg : Config.t) : ColorData :=
  {| palette := [];
     primaryColor := None;
     accentColor := None;
     hash := None;
     algorithm := ParseLedger.default_algorithm cfg;
     metadata := None;
     derivedAt := None |}.

Definition deriveColors (parsedData : option ParseLedger.ParsedData) (w : World)
    : Outcome ColorData * World :=
  match Config.loadConfig (store w) with
  | (Thrown error, st) => (Thrown error, with_store st w)
  | (Returned cfg, st) =>
      let w := with_store st w in
      let paletteSize := paletteSize_of cfg in
      match usable_hash parsedData with
      | None => (Returned (empty_result cfg), w)
      | Some (pd, hash) =>
          let algorithm :=
            algorithm_or_default (ParseLedger.parsed_algorithm pd)
                                 (ParseLedger.default_algorithm cfg) in
          let fullHash := sha256 hash in
          let palette :=
            palette_loop fullHash hash cfg (Z.to_nat paletteSize) 0 [] in
          let primaryColor := List.hd_error palette in
          let accentColor := option_map accent_of primaryColor in
          let '(derivedAt, w) := now w in
          (Returned {| palette := palette;
                       primaryColor := primaryColor;
                       accentColor := accentColor;
                       hash := Some hash;
                       algorithm := algorithm;
                       metadata := Some (ParseLedger.parsed_metadata pd);
                       derivedAt := Some derivedAt |}, w)
      end
  end.

(** *** The vocabulary of the derivation properties *)

(** The six characters of the digest at the cyclic offset of index [i]. *)
Definition window (fullHash : string) (i : nat) : string :=
  String.substring ((i * 6) mod 64) 6 fullHash.

(** The offsets at which six characters are left before the end of the
    64-character digest. *)
Definition complete_window (i : nat) : bool := ((i * 6) mod 64 <=? 58)%nat.

Definition swatch_at (hash : string) (cfg : Config.t) (i : nat) : Swatch :=
  {| index := Z.of_nat i;
     color := deriveSingleColor (window (sha256 hash) i) cfg;
     fromHash := substring 0 8 hash ++ "..." |}.

(** [!parsedData || !parsedData.hash]. *)
Definition no_hash (parsedData : option ParseLedger.ParsedData) : bool :=
  match usable_hash parsedData with
  | Some _ => false
  | None => true
  end.

(** The configuration a call of this module works with: the cached one,
    else the one of the file. *)
Definition effective_config (w : World) : option Config.t :=
  match Config.cache (store w) with
  | Some cfg => Some cfg
  | None =>
      match Config.file (store w) with
      | Returned cfg => Some cfg
      | Thrown _ => None
      end
  end.

(** A window of six hexadecimal characters. *)
Definition hex_window (segment : string) : bool :=
  (String.length segment =? 6)%nat && string_forallb is_hex_char segment.

(** Hexadecimal characters as an integer. *)
Fixpoint hex_value_from (acc : Z) (t : string) : Z :=
  match t with
  | EmptyString => acc
  | String c r =>
      hex_value_from (acc * 16 + match hex_digit_value c with
                                 | Some d => d
                                 | None => 0
                                 end) r
  end.

Definition hex_value (t : string) : Z := hex_value_from 0 t.







(** The hexadecimal characters, and the strings of [n] of them. *)
Definition hex_chars : list ascii := list_ascii_of_string "0123456789abcdefABCDEF".

Fixpoint hex_strings (n : nat) : list string :=
  match n with
  | O => [""]
  | S k => flat_map (fun c => map (String c) (hex_strings k)) hex_chars
  end.

(** Structural equality of numbers. *)
Definition same_number (x y : Number) : bool :=
  match x, y with
  | S754_zero a, S754_zero b => Bool.eqb a b
  | S754_infinity a, S754_infinity b => Bool.eqb a b
  | S754_nan, S754_nan => true
  | S754_finite a m e, S754_finite b m' e' =>
      Bool.eqb a b && Pos.eqb m m' && Z.eqb e e'
  | _, _ => false
  end.

(** A number is one of the integers from [lo] to [hi]. *)
Definition integer_between (lo hi : Z) (x : Number) : bool :=
  match to_int x with
  | Some n =>
      (lo <=? n) && (n <=? hi) && same_number x (of_int n)
  | None => false
  end.

End DeriveColors.

(* ===================================================================== *)
(** * The round trip between hsl and hex                                  *)
(* ===================================================================== *)

Module RoundTrip.
Import JS DeriveColors.

(** ** The conversion the specification names

    The piecewise conversion by chroma and hue sector, on exact rationals:
    the hue in degrees, the saturation and the lightness in percent. *)

Definition chroma (sat light : Z) : Q :=
  ((1 - Qabs (2 * Qmake light 100 - 1)) * Qmake sat 100)%Q.

(** [1 - |(H / 60) mod 2 - 1|]. *)
Definition tone (hue : Z) : Q := (1 - Qabs (Qmake (hue mod 120) 60 - 1))%Q.

Definition lift (sat light : Z) : Q :=
  (Qmake light 100 - chroma sat light / 2)%Q.

(** The channels of the six sectors of 60 degrees. *)
Definition arrange {A : Type} (sector : Z) (c x z : A) : A * A * A :=
  match sector with
  | 0 => (c, x, z)
  | 1 => (x, c, z)
  | 2 => (z, c, x)
  | 3 => (z, x, c)
  | 4 => (x, z, c)
  | _ => (c, z, x)
  end.

Definition rgb (hue sat light : Z) : Q * Q * Q :=
  let C := chroma sat light in
  let X := (C * tone hue)%Q in
  let m := lift sat light in
  let '(r, g, b) := arrange ((hue mod 360) / 60) C X 0%Q in
  ((r + m)%Q, (g + m)%Q, (b + m)%Q).

(** The integer nearest to a rational, ties upwards. *)
Definition nearest_integer (q : Q) : Z := Qfloor (q + Qmake 1 2)%Q.

Definition channels (hue sat light : Z) : Z * Z * Z :=
  let '(r, g, b) := rgb hue sat light in
  (nearest_integer (255 * r)%Q, nearest_integer (255 * g)%Q,
   nearest_integer (255 * b)%Q).

Definition hex_digit (d : Z) : ascii :=
  nth (Z.to_nat d)
      ["0"; "1"; "2"; "3"; "4"; "5"; "6"; "7"; "8"; "9";
       "a"; "b"; "c"; "d"; "e"; "f"]%char "0"%char.

Definition two_digits (n : Z) : string :=
  String (hex_digit (n / 16)) (String (hex_digit (n mod 16)) "").

Definition rrggbb (r g b : Z) : string :=
  "#" ++ two_digits r ++ two_digits g ++ two_digits b.

(** [hex] is a #rrggbb string whose channels are within 1 of the channels
    that the conversion gives for hsl([hue], [sat]%, [light]%). *)
Definition round_trips (hue sat light : Z) (hex : string) : Prop :=
  exists r g b,
    hex = rrggbb r g b /\
    0 <= r <= 255 /\ 0 <= g <= 255 /\ 0 <= b <= 255 /\
    let '(r0, g0, b0) := channels hue sat light in
    Z.abs (r - r0) <= 1 /\ Z.abs (g - g0) <= 1 /\ Z.abs (b - b0) <= 1.

(** The colours of a result: those of the palette, the primary colour and
    the accent. *)
Definition colours (r : ColorData) : list Color :=
  (map color (palette r)
   ++ match primaryColor r with Some p => [color p] | None => [] end
   ++ match accentColor r with Some a => [a] | None => [] end)%list.

(** ** The arithmetic of [hslToHex] on the processor's doubles

    The same operations on primitive floats, which the Standard Library
    relates to [spec_float] operation by operation; they serve to evaluate
    [hslToHex] on every hsl value of the data model. *)

Definition pf (n : Z) : PrimFloat.float := PrimFloat.of_uint63 (Uint63.of_Z n).

Definition f0 : PrimFloat.float := Eval vm_compute in pf 0.
Definition f1 : PrimFloat.float := Eval vm_compute in pf 1.
Definition f2 : PrimFloat.float := Eval vm_compute in pf 2.
Definition f100 : PrimFloat.float := Eval vm_compute in pf 100.
Definition f255 : PrimFloat.float := Eval vm_compute in pf 255.
Definition fhalf : PrimFloat.float := Eval vm_compute in PrimFloat.div (pf 1) (pf 2).

Definition chroma_f (ps pl : PrimFloat.float) : PrimFloat.float :=
  PrimFloat.mul
    (PrimFloat.sub f1
       (PrimFloat.abs (PrimFloat.sub (PrimFloat.mul f2 (PrimFloat.div pl f100)) f1)))
    (PrimFloat.div ps f100).

Definition lift_f (ps pl : PrimFloat.float) : PrimFloat.float :=
  PrimFloat.sub (PrimFloat.div pl f100) (PrimFloat.div (chroma_f ps pl) f2).

(** The argument of [Math.round] in [toHex]. *)
Definition arg_f (n m : PrimFloat.float) : PrimFloat.float :=
  PrimFloat.mul (PrimFloat.add n m) f255.

(** The same on [spec_float]. *)
Definition chroma_s (S L : Number) : Number :=
  mul (sub (of_int 1) (Math_abs (sub (mul (of_int 2) (div L (of_int 100))) (of_int 1))))
      (div S (of_int 100)).

Definition lift_s (S L : Number) : Number :=
  sub (div L (of_int 100)) (div (chroma_s S L) (of_int 2)).

Definition tone_s (H : Number) : Number :=
  sub (of_int 1) (Math_abs (sub (rem (div H (of_int 60)) (of_int 2)) (of_int 1))).

Definition sector_s (H : Number) : Z :=
  if geb H (of_int 0) && ltb H (of_int 60) then 0
  else if geb H (of_int 60) && ltb H (of_int 120) then 1
  else if geb H (of_int 120) && ltb H (of_int 180) then 2
  else if geb H (of_int 180) && ltb H (of_int 240) then 3
  else if geb H (of_int 240) && ltb H (of_int 300) then 4
  else 5.

(** [Math.round(y).toString(16).padStart(2, '0')]. *)
Definition print (y : Number) : string :=
  padStart0 2 (Number_toString16 (Math_round y)).

Definition tone_f (hue : Z) : PrimFloat.float := FloatOps.SF2Prim (tone_s (of_int hue)).

(** [y] is at least [g - 1/2] and less than [g + 1/2]. *)
Definition fits (g : PrimInt63.int) (y : PrimFloat.float) : bool :=
  PrimFloat.leb (PrimFloat.sub (PrimFloat.of_uint63 g) fhalf) y
  && PrimFloat.ltb y (PrimFloat.add (PrimFloat.of_uint63 g) fhalf).

Definition i1 : PrimInt63.int := Eval vm_compute in Uint63.of_Z 1.
Definition i2 : PrimInt63.int := Eval vm_compute in Uint63.of_Z 2.
Definition i3 : PrimInt63.int := Eval vm_compute in Uint63.of_Z 3.
Definition i4 : PrimInt63.int := Eval vm_compute in Uint63.of_Z 4.
Definition i60 : PrimInt63.int := Eval vm_compute in Uint63.of_Z 60.
Definition i255 : PrimInt63.int := Eval vm_compute in Uint63.of_Z 255.
Definition denominator : PrimInt63.int := Eval vm_compute in Uint63.of_Z 1200000.

(** [g] is a channel, within 1 of the integer nearest to [N / D]. *)
Definition near (g N D : PrimInt63.int) : bool :=
  PrimInt63.leb g i255
  && PrimInt63.leb (PrimInt63.mul (PrimInt63.mul i2 g) D)
                   (PrimInt63.add (PrimInt63.mul i2 N) (PrimInt63.mul i3 D))
  && PrimInt63.ltb (PrimInt63.add (PrimInt63.mul i2 N) D)
                   (PrimInt63.mul (PrimInt63.add (PrimInt63.mul i2 g) i4) D).

(** [y] rounds to a channel that is within 1 of the nearest integer of
    [N / D]: the nearest integer itself or the one below. *)
Definition rounds_to (y : PrimFloat.float) (N D : PrimInt63.int) : bool :=
  let g := PrimInt63.div (PrimInt63.add (PrimInt63.mul i2 N) D) (PrimInt63.mul i2 D) in
  if fits g y then near g N D
  else let g' := PrimInt63.sub g i1 in fits g' y && near g' N D.

(** The numerators of the channels over 10^4: chroma, and twice the
    lift; the tone over 60. *)
Definition C4 (sat light : Z) : Z := (100 - Z.abs (2 * light - 100)) * sat.
Definition M4 (sat light : Z) : Z := 200 * light - C4 sat light.
Definition T60 (hue : Z) : Z := 60 - Z.abs (hue mod 120 - 60).

Definition zrange (first count : nat) : list Z := map Z.of_nat (seq first count).

Definition tones : list (PrimFloat.float * PrimInt63.int) :=
  Eval vm_compute in
    map (fun hue => (tone_f hue, Uint63.of_Z (T60 hue))) (zrange 0 361).

(** The three channels of every hue, for one saturation and lightness. *)
Definition check_pair (sat light : Z) : bool :=
  let cf := chroma_f (pf sat) (pf light) in
  let mf := lift_f (pf sat) (pf light) in
  let a := 510 * C4 sat light in
  let b := 15300 * M4 sat light in
  let ai := Uint63.of_Z a in
  let bi := Uint63.of_Z b in
  (0 <=? a) && (a <? 2 ^ 31) && (0 <=? b) && (b <? 2 ^ 31)
  && rounds_to (arg_f cf mf) (PrimInt63.add (PrimInt63.mul ai i60) bi) denominator
  && rounds_to (arg_f f0 mf) bi denominator
  && forallb (fun t => rounds_to (arg_f (PrimFloat.mul cf (fst t)) mf)
                         (PrimInt63.add (PrimInt63.mul ai (snd t)) bi)
                         denominator) tones.

(** The two half-integers around [n], as doubles: their mantissas, their
    exponents and the text of [n]. *)
Definition bracket (n : Z) : bool :=
  match FloatOps.Prim2SF (PrimFloat.sub (pf n) fhalf),
        FloatOps.Prim2SF (PrimFloat.add (pf n) fhalf) with
  | S754_finite false ma ea, S754_finite false mb eb =>
      (Zpos ma <? 2 ^ 53) && (2 ^ 52 <=? Zpos mb) && (-1074 <? ea) && (eb <? 0)
      && ((eb =? ea) || (eb =? ea + 1))
      && (2 * Zpos ma =? (2 * n - 1) * 2 ^ (- ea))
      && (2 * Zpos mb =? (2 * n + 1) * 2 ^ (- eb))
      && String.eqb (padStart0 2 (Number_toString16 (of_int n))) (two_digits n)
  | _, _ => false
  end.

(** A hue takes the branch of its sector, and its tone is a double. *)
Definition hue_ok (hue : Z) : bool :=
  (sector_s (of_int hue) =? (if hue =? 360 then 5 else (hue mod 360) / 60))
  && valid_binary prec emax (tone_s (of_int hue)).

End RoundTrip.

(* ===================================================================== *)
(** * src/fetchBlockchain.js                                              *)
(* ===================================================================== *)

Module FetchBlockchain.
Import JS.

Record Response := {
  status : Z;
  statusText : string;
  body : Outcome Value          (* what [response.json()] resolves to *)
}.

(** [response.ok]. *)
Definition ok (r : Response) : bool := (200 <=? status r) && (status r <=? 299).

Inductive Event :=
| Fetch (url : string)
| Sleep (ms : Z).

(** The network answers the n-th request (a response, or a network
    failure or timeout as a thrown error); [events] is the log of
    requests and sleeps, oldest first. *)
Record World := {
  store : Config.Store;
  network : nat -> Outcome Response;
  requests : nat;
  events : list Event
}.

Definition fetch (url : string) (w : World) : Outcome Response * World :=
  (network w (requests w),
   {| store := store w; network := network w;
      requests := S (requests w);
      events := (events w ++ [Fetch url])%list |}).

Definition sleep (ms : Z) (w : World) : World :=
  {| store := store w; network := network w;
     requests := requests w;
     events := (events w ++ [Sleep ms])%list |}.

(** Delays are whole milliseconds and attempts small, so [Math.pow] and
    [Math.min] are exact on integers. *)
Record RetryConfig := {
  maxRetries : nat;
  initialDelayMs : Z;
  maxDelayMs : Z;
  backoffMultiplier : Z
}.

Definition RETRY_CONFIG : RetryConfig :=
  {| maxRetries := 3; initialDelayMs := 1000; maxDelayMs := 10000;
     backoffMultiplier := 2 |}.

Section WithRetryConfig.

Variable rc : RetryConfig.

Definition getBackoffDelay (attempt : nat) : Z :=
  let delay := initialDelayMs rc * backoffMultiplier rc ^ Z.of_nat attempt in
  Z.min delay (maxDelayMs rc).

(** [fetchWithRetry(url, options, attempt)].  The recursive call is
    returned without [await], so what it throws is not caught here: the
    [catch] sees the failures of this frame's [fetch] only. *)
Equations? fetchWithRetry (url : string) (attempt : nat) (w : World)
    : Outcome Response * World
    by wf (maxRetries rc - attempt)%nat lt :=
fetchWithRetry url attempt w with fetch url w := {
  | (Returned response, w1)
      with sumbool_of_bool
             ((500 <=? status response) && (attempt <? maxRetries rc)%nat) := {
      | left _ =>
          fetchWithRetry url (S attempt) (sleep (getBackoffDelay attempt) w1)
      | right _ => (Returned response, w1) }
  | (Thrown error, w1) with sumbool_of_bool (attempt <? maxRetries rc)%nat := {
      | left _ =>
          fetchWithRetry url (S attempt) (sleep (getBackoffDelay attempt) w1)
      | right _ => (Thrown error, w1) } }.
Proof.
  - apply andb_prop in e as [_ e]. apply Nat.ltb_lt in e. lia.
  - apply Nat.ltb_lt in e. lia.
Qed.

(** How the body of the [try] block of one iteration ends. *)
Inductive Completion :=
| Return (hash : Value)
| Continue
| Throw (message : string).

(** [a || b] where reading [a] or [b] may throw. *)
Definition or_else (a : Outcome Value) (b : Outcome Value) : Outcome Value :=
  match a with
  | Returned v => if truthy v then Returned v else b
  | Thrown e => Thrown e
  end.

(** The response formats: the first element of an array, [data.block.hash]
    or [data.hash]; [null] otherwise. *)
Definition extract_hash (data : Value) : Outcome Value :=
  match data with
  | Array (first :: _) =>
      or_else (get first "id") (or_else (get first "hash") (Returned first))
  | _ =>
      match get data "block" with
      | Thrown e => Thrown e
      | Returned block =>
          let block_hash :=
            match block with
            | Undefined | Null => Returned Undefined
            | _ => get block "hash"
            end in
          match block_hash with
          | Thrown e => Thrown e
          | Returned bh =>
              if truthy bh then Returned bh
              else
                match get data "hash" with
                | Thrown e => Thrown e
                | Returned dh => if truthy dh then Returned dh else Returned Null
                end
          end
      end
  end.

Definition try_block (url : string) (attempt : nat) (w : World)
    : Completion * World :=
  match fetchWithRetry url 0 w with
  | (Thrown error, w1) => (Throw error, w1)
  | (Returned response, w1) =>
      if negb (ok response) then
        let error :=
          "HTTP " ++ int_to_string 10 (status response) ++ ": "
          ++ statusText response in
        if (500 <=? status response) && (attempt <? maxRetries rc)%nat
        then (Continue, sleep (getBackoffDelay attempt) w1)
        else (Throw error, w1)
      else
        match body response with
        | Thrown error => (Throw error, w1)
        | Returned data =>
            match extract_hash data with
            | Thrown error => (Throw error, w1)
            | Returned hash => (Return hash, w1)
            end
        end
  end.

Definition failure_message (lastError : option string) : string :=
  "Failed to fetch latest block hash after "
  ++ nat_to_string 10 (Z.of_nat (maxRetries rc + 1)) ++ " attempts: "
  ++ match lastError with Some m => m | None => "undefined" end.

(** The [for (let attempt = 0; attempt <= maxRetries; attempt++)] loop
    and the [throw] after it. *)
Equations? attempt_loop (url : string) (attempt : nat)
    (lastError : option string) (w : World) : Outcome Value * World
    by wf (S (maxRetries rc) - attempt)%nat lt :=
attempt_loop url attempt lastError w
    with sumbool_of_bool (attempt <=? maxRetries rc)%nat := {
  | right _ => (Thrown (failure_message lastError), w)
  | left _ with try_block url attempt w := {
      | (Return hash, w1) => (Returned hash, w1)
      | (Continue, w1) => attempt_loop url (S attempt) lastError w1
      | (Throw error, w1) =>
          attempt_loop url (S attempt) (Some error)
            (if (attempt <? maxRetries rc)%nat
             then sleep (getBackoffDelay attempt) w1 else w1) } }.
Proof.
  all: apply Nat.leb_le in e; destruct attempt; lia.
Qed.

Definition with_store (st : Config.Store) (w : World) : World :=
  {| store := st; network := network w; requests := requests w;
     events := events w |}.

Definition fetchLatestBlockHash (w : World) : Outcome Value * World :=
  match Config.loadConfig (store w) with
  | (Thrown error, st) => (Thrown error, with_store st w)
  | (Returned cfg, st) =>
      let bc := Config.blockchain cfg in
      let url := Config.rpcUrl bc ++ Config.latestBlockEndpoint bc in
      attempt_loop url 0 None (with_store st w)
  end.

(** [fetchBlockByHash(hash)]: the parsed body of the response, [null] on
    any failure of the request. *)
Definition fetchBlockByHash (hash : string) (w : World) : Outcome Value * World :=
  match Config.loadConfig (store w) with
  | (Thrown error, st) => (Thrown error, with_store st w)
  | (Returned cfg, st) =>
      let bc := Config.blockchain cfg in
      let url := Config.rpcUrl bc ++ "/block/" ++ hash in
      match fetchWithRetry url 0 (with_store st w) with
      | (Thrown _, w1) => (Returned Null, w1)
      | (Returned response, w1) =>
          if negb (ok response) then (Returned Null, w1)
          else
            match body response with
            | Returned data => (Returned data, w1)
            | Thrown _ => (Returned Null, w1)
            end
      end
  end.

(** [fetchNetworkInfo()]. *)
Definition fetchNetworkInfo (w : World) : Outcome Value * World :=
  match Config.loadConfig (store w) with
  | (Thrown error, st) => (Thrown error, with_store st w)
  | (Returned cfg, st) =>
      let bc := Config.blockchain cfg in
      let url := Config.rpcUrl bc ++ "/network" in
      match fetchWithRetry url 0 (with_store st w) with
      | (Thrown _, w1) => (Returned Null, w1)
      | (Returned response, w1) =>
          if negb (ok response) then (Returned Null, w1)
          else
            match body response with
            | Returned data => (Returned data, w1)
            | Thrown _ => (Returned Null, w1)
            end
      end
  end.

(** *** The vocabulary of the retry properties *)

(** The log of [count] attempts numbered from [first]: before attempt
    [k], a sleep of [min(maxDelayMs, initialDelayMs * backoffMultiplier^(k-1))]. *)
Definition backoff_schedule (url : string) (first count : nat) : list Event :=
  flat_map
    (fun k =>
       [Sleep (Z.min (maxDelayMs rc)
                     (initialDelayMs rc * backoffMultiplier rc ^ (Z.of_nat k - 1)));
        Fetch url])
    (seq first count).

(** The schedule the specification words: before attempt [k], a sleep of
    [min(maxDelayMs, initialDelayMs * backoffMultiplier^k)]. *)
Definition specified_schedule (url : string) (first count : nat) : list Event :=
  flat_map
    (fun k =>
       [Sleep (Z.min (maxDelayMs rc)
                     (initialDelayMs rc * backoffMultiplier rc ^ Z.of_nat k));
        Fetch url])
    (seq first count).

(** The part of the world a run leaves alone. *)
Definition same_setting (w w' : World) : Prop :=
  store w' = store w /\ network w' = network w.

(** What a run of [fetchWithRetry] from [attempt] adds to the log: its
    request, then a sleep and a request for each of [n] later attempts. *)
Definition retried (url : string) (attempt budget : nat) (w w' : World) : Prop :=
  exists n,
    (n <= budget)%nat /\
    events w' = (events w ++ Fetch url :: backoff_schedule url (S attempt) n)%list /\
    requests w' = (requests w + S n)%nat /\
    same_setting w w'.

(** Every request is answered, with a status in the given interval. *)
Definition answers_between (lo hi : Z) (w : World) : Prop :=
  forall n, exists r, network w n = Returned r /\ lo <= status r <= hi.

(** What the outer loop logs from [attempt] against a server that always
    answers 4xx. *)
Definition loop_events (url : string) (attempt budget : nat) : list Event :=
  match budget with
  | O => []
  | S later => Fetch url :: backoff_schedule url (S attempt) later
  end.

(** An answer that [fetchWithRetry] does not accept while it has retries
    left: a network failure or a response with a status of 500 or more. *)
Definition retryable (answer : Outcome Response) : bool :=
  match answer with
  | Returned response => 500 <=? status response
  | Thrown _ => true
  end.

End WithRetryConfig.

End FetchBlockchain.

(* ===================================================================== *)
(** * src/publish.js (src/unnamed/part_000)                               *)
(* ===================================================================== *)

Module Publish.
Import JS.
Import DeriveColors.

Record Output := { type : string; path : string }.

Record PublishResult := {
  success : bool;
  outputs : list Output;
  errors : list string
}.

(** [options]: a flag is [Some false] only when the caller wrote
    [css: false]. *)
Record Options := {
  outputDir : option string;
  opt_css : option bool;
  opt_json : option bool;
  opt_html : option bool;
  format : option string
}.

(** An error of the file system: [err.code] and [err.message]. *)
Record FsError := { code : string; message : string }.

(** What the module can see and change: its [config] variable with the
    configuration file, the files written so far and the number of clock
    reads; and what it is given: the runtime ([typeof window],
    [typeof process]), the module's parent directory, [path.join], the
    answers of the file system to [mkdir] and to [writeFile] on a path, and
    the clock ([clock n] is what the n-th [new Date().toISOString()]
    gives). *)
Record World := {
  store : Config.Store;
  files : list (string * string);
  clock_reads : nat;
  has_window : bool;
  has_process : bool;
  baseDir : string;
  path_join : list string -> string;
  mkdir_error : string -> option FsError;
  write_error : string -> option FsError;
  clock : nat -> string
}.

(** The world with other values of what the module changes. *)
Definition update (st : Config.Store) (fs : list (string * string))
    (reads : nat) (w : World) : World :=
  {| store := st; files := fs; clock_reads := reads;
     has_window := has_window w; has_process := has_process w;
     baseDir := baseDir w; path_join := path_join w;
     mkdir_error := mkdir_error w; write_error := write_error w;
     clock := clock w |}.

Definition with_store (st : Config.Store) (w : World) : World :=
  update st (files w) (clock_reads w) w.

(** [new Date().toISOString()]. *)
Definition now (w : World) : string * World :=
  (clock w (clock_reads w), update (store w) (files w) (S (clock_reads w)) w).

(** [writeFile(path, content, 'utf-8')]. *)
Definition writeFile (path content : string) (w : World) : Outcome unit * World :=
  match write_error w path with
  | Some err => (Thrown (message err), w)
  | None =>
      (Returned tt,
       update (store w) (files w ++ [(path, content)])%list (clock_reads w) w)
  end.

Definition hsl_triple (c : HSL) : string :=
  Number_toString (h c) ++ ", " ++ Number_toString (s c) ++ "%, "
  ++ Number_toString (l c) ++ "%;".

Definition color_lines (name : string) (c : Color) : list string :=
  [ "  --" ++ name ++ "-color: " ++ css c ++ ";";
    "  --" ++ name ++ "-hex: " ++ hex c ++ ";";
    "  --" ++ name ++ "-hsl: " ++ hsl_triple (hsl c) ].

Fixpoint palette_lines (idx : nat) (palette : list Swatch) : list string :=
  match palette with
  | [] => []
  | sw :: rest =>
      let n := nat_to_string 10 (Z.of_nat (idx + 1)) in
      List.app
        [ "  --color-" ++ n ++ ": " ++ css (color sw) ++ ";";
          "  --color-" ++ n ++ "-hex: " ++ hex (color sw) ++ ";";
          "  --color-" ++ n ++ "-hsl: " ++ hsl_triple (hsl (color sw)) ]
        (palette_lines (S idx) rest)
  end.

Definition string_or (dflt : string) (hash : option string) : string :=
  match hash with
  | Some x => if truthy_string x then x else dflt
  | None => dflt
  end.

Definition generateCssVariables (colorData : ColorData) (w : World)
    : string * World :=
  let '(timestamp, w) := now w in
  (join_with newline
    (List.concat
       [ [ "/* BlockHash Accent Colors - Generated " ++ timestamp ++ " */";
           "/* Source Hash: " ++ string_or "N/A" (hash colorData) ++ " */";
           ":root {" ];
         match primaryColor colorData with
         | Some p => color_lines "primary" (color p)
         | None => []
         end;
         match accentColor colorData with
         | Some a => color_lines "accent" a
         | None => []
         end;
         palette_lines 0 (palette colorData);
         [ "}" ] ]), w).

Definition hsl_value (c : HSL) : Value :=
  Object [("h", Num (h c)); ("s", Num (s c)); ("l", Num (l c))].

Definition color_value (c : Color) : Value :=
  Object [("hex", Str (hex c)); ("css", Str (css c)); ("hsl", hsl_value (hsl c))].

Definition swatch_value (sw : Swatch) : Value :=
  Object [("index", Num (of_int (index sw)));
          ("hex", Str (hex (color sw)));
          ("css", Str (css (color sw)));
          ("hsl", hsl_value (hsl (color sw)))].

Definition generateJsonOutput (colorData : ColorData) (w : World)
    : string * World :=
  let '(timestamp, w) := now w in
  let output :=
    Object [("generatedAt", Str timestamp);
            ("sourceHash", match hash colorData with
                           | Some x => Str x
                           | None => Null
                           end);
            ("algorithm", Str (algorithm colorData));
            ("primary", match primaryColor colorData with
                        | Some p => color_value (color p)
                        | None => Null
                        end);
            ("accent", match accentColor colorData with
                       | Some a => color_value a
                       | None => Null
                       end);
            ("palette", Array (map swatch_value (palette colorData)))] in
  (match stringify "" output with
   | Some text => text
   | None => "undefined"
   end, w).

(** The template literal of [generateHtmlPreview], trimmed. *)
Definition generateHtmlPreview (colorData : ColorData) : string :=
  let dq := String (ascii_of_nat 34) "" in
  let colors := map (fun c => hex (color c)) (palette colorData) in
  let primary :=
    match primaryColor colorData with
    | Some p => if truthy_string (hex (color p)) then hex (color p) else "#000000"
    | None => "#000000"
    end in
  let accent :=
    match accentColor colorData with
    | Some a => if truthy_string (hex a) then hex a else "#ffffff"
    | None => "#ffffff"
    end in
  join_with newline
    [ "<!-- BlockHash Accent Colors Preview -->";
      "<div class=" ++ dq ++ "blockhash-colors" ++ dq ++ " data-hash=" ++ dq
        ++ match hash colorData with Some x => x | None => "null" end
        ++ dq ++ ">";
      "  <div class=" ++ dq ++ "palette" ++ dq ++ " style=" ++ dq
        ++ "display: flex; gap: 4px;" ++ dq ++ ">";
      "    " ++ join (map (fun c =>
                  "<div style=" ++ dq ++ "width: 32px; height: 32px; background: "
                  ++ c ++ "; border-radius: 4px;" ++ dq ++ " title=" ++ dq ++ c
                  ++ dq ++ "></div>") colors);
      "  </div>";
      "  <div class=" ++ dq ++ "primary" ++ dq ++ " style=" ++ dq ++ "color: "
        ++ primary ++ ";" ++ dq ++ ">Primary: " ++ primary ++ "</div>";
      "  <div class=" ++ dq ++ "accent" ++ dq ++ " style=" ++ dq ++ "color: "
        ++ accent ++ ";" ++ dq ++ ">Accent: " ++ accent ++ "</div>";
      "</div>" ].

Definition enabled (flag : option bool) : bool :=
  match flag with
  | Some false => false
  | _ => true
  end.

(** One of the three [if (options.x !== false) { ... try { writeFile }
    catch { ... } }] blocks: the content is generated, then written. *)
Definition write_format (flag : option bool) (kind label : string)
    (path : string) (generate : World -> string * World)
    (results : PublishResult) (w : World) : PublishResult * World :=
  if enabled flag then
    let '(content, w) := generate w in
    match writeFile path content w with
    | (Returned _, w1) =>
        ({| success := success results;
            outputs := (outputs results ++ [{| type := kind; path := path |}])%list;
            errors := errors results |}, w1)
    | (Thrown msg, w1) =>
        ({| success := false;
            outputs := outputs results;
            errors := (errors results
                       ++ [("Failed to write " ++ label ++ ": " ++ msg)%string])%list |},
         w1)
    end
  else (results, w).

(** [options.outputDir || cfg.output?.publicDir || 'public']. *)
Definition resolve_outputDir (options : Options) (cfg : Config.t) : string :=
  string_or (match Config.output cfg with
           | Some o => string_or "public" (Config.publicDir o)
           | None => "public"
           end)
          (outputDir options).

(** [try { await mkdir(dir, { recursive: true }) } catch (err) { if
    (err.code !== 'EEXIST') throw err }]: the error that is rethrown. *)
Definition mkdir (w : World) (dir : string) : option FsError :=
  match mkdir_error w dir with
  | Some err => if String.eqb (code err) "EEXIST" then None else Some err
  | None => None
  end.

Definition publishToFile (colorData : ColorData) (options : Options) (w : World)
    : Outcome PublishResult * World :=
  match Config.loadConfig (store w) with
  | (Thrown error, st) => (Thrown error, with_store st w)
  | (Returned cfg, st) =>
      let w := with_store st w in
      let outputDir := resolve_outputDir options cfg in
      let results := {| success := true; outputs := []; errors := [] |} in
      if has_window w then
        (Returned {| success := false;
                     outputs := [];
                     errors := ["publishToFile requires Node.js environment"] |},
         w)
      else
        match mkdir w (path_join w [baseDir w; outputDir]) with
        | Some err => (Thrown (message err), w)
        | None =>
            let '(results, w) :=
              write_format (opt_css options) "css" "CSS"
                (path_join w [baseDir w; outputDir; "colors.css"])
                (generateCssVariables colorData) results w in
            let '(results, w) :=
              write_format (opt_json options) "json" "JSON"
                (path_join w [baseDir w; outputDir; "colors.json"])
                (generateJsonOutput colorData) results w in
            let '(results, w) :=
              write_format (opt_html options) "html" "HTML"
                (path_join w [baseDir w; outputDir; "colors-preview.html"])
                (fun w => (generateHtmlPreview colorData, w)) results w in
            (Returned results, w)
        end
  end.

Definition publishForBrowser (colorData : ColorData) (format : string)
    (w : World) : string * World :=
  if String.eqb format "css" then generateCssVariables colorData w
  else if String.eqb format "json" then generateJsonOutput colorData w
  else if String.eqb format "html" then (generateHtmlPreview colorData, w)
  else ("", w).

(** What [publish] resolves to: the report of [publishToFile] or, outside
    Node.js, the formatted text. *)
Inductive Published :=
| Report (r : PublishResult)
| Text (t : string).

Definition publish (colorData : ColorData) (options : Options) (w : World)
    : Outcome Published * World :=
  if negb (has_window w) && has_process w then
    match publishToFile colorData options w with
    | (Returned r, w1) => (Returned (Report r), w1)
    | (Thrown e, w1) => (Thrown e, w1)
    end
  else
    let format := string_or "css" (format options) in
    let '(text, w) := publishForBrowser colorData format w in
    (Returned (Text text), w).

(** *** The vocabulary of the publishing properties *)

Definition in_node (w : World) : bool := negb (has_window w) && has_process w.

(** The configuration this module works with. *)
Definition effective_config (w : World) : option Config.t :=
  match Config.cache (store w) with
  | Some cfg => Some cfg
  | None =>
      match Config.file (store w) with
      | Returned cfg => Some cfg
      | Thrown _ => None
      end
  end.

(** A format to write: its flag in the options, its type, its name in the
    error message and its file. *)
Record Target := {
  flag : option bool;
  kind : string;
  label : string;
  file_name : string
}.

Definition targets (options : Options) : list Target :=
  [ {| flag := opt_css options; kind := "css"; label := "CSS";
       file_name := "colors.css" |};
    {| flag := opt_json options; kind := "json"; label := "JSON";
       file_name := "colors.json" |};
    {| flag := opt_html options; kind := "html"; label := "HTML";
       file_name := "colors-preview.html" |} ].

Definition target_path (w : World) (dir : string) (t : Target) : string :=
  path_join w [baseDir w; dir; file_name t].

(** The entry of [outputs] a target gives when its write succeeds. *)
Definition written (w : World) (dir : string) (t : Target) : list Output :=
  if enabled (flag t) then
    match write_error w (target_path w dir t) with
    | None => [{| type := kind t; path := target_path w dir t |}]
    | Some _ => []
    end
  else [].

(** The entry of [errors] a target gives when its write fails. *)
Definition failed (w : World) (dir : string) (t : Target) : list string :=
  if enabled (flag t) then
    match write_error w (target_path w dir t) with
    | None => []
    | Some err => ["Failed to write " ++ label t ++ ": " ++ message err]
    end
  else [].

(** The file system answers in [w'] as in [w]. *)
Definition same_disk (w w' : World) : Prop :=
  write_error w' = write_error w /\ path_join w' = path_join w /\
  baseDir w' = baseDir w.

Definition default_options : Options :=
  {| outputDir := None; opt_css := None; opt_json := None; opt_html := None;
     format := None |}.

End Publish.

(* ===================================================================== *)
(** * src/cron_runner.js: the pipeline run by cron                        *)
(* ===================================================================== *)

(** [runPipeline] is the function that composes the four modules.  The
    lines that [log] writes to the console and appends to the log file are
    not part of the model: [log] returns nothing and catches the failure of
    its own write. *)

Module CronRunner.
Import JS.

(** The text of a value parsed from JSON, as a template literal and the
    [test] of a regular expression take it.  An array joins the texts of
    its elements with commas, null standing for no text; an object that has
    a key [toString] has no callable conversion, which is a TypeError. *)
Fixpoint to_string (v : Value) : Outcome string :=
  match v with
  | Undefined => Returned "undefined"
  | Null => Returned "null"
  | Bool b => Returned (if b then "true" else "false")
  | Num x => Returned (Number_toString x)
  | Str s => Returned s
  | Array items =>
      (fix join_items (l : list Value) : Outcome string :=
         match l with
         | [] => Returned ""
         | x :: rest =>
             match match x with
                   | Undefined | Null => Returned ""
                   | _ => to_string x
                   end with
             | Thrown e => Thrown e
             | Returned t =>
                 match rest with
                 | [] => Returned t
                 | _ =>
                     match join_items rest with
                     | Thrown e => Thrown e
                     | Returned r => Returned (t ++ "," ++ r)
                     end
                 end
             end
         end) items
  | Object fields =>
      if existsb (fun kv => String.eqb (fst kv) "toString") fields
      then Thrown "Cannot convert object to primitive value"
      else Returned "[object Object]"
  end.

(** [floor(m * 2^e * 100 + 1/2)]: the integer [n] of [toFixed(2)]. *)
Definition hundredths (m : positive) (e : Z) : Z :=
  if 0 <=? e then 100 * Zpos m * 2 ^ e
  else (200 * Zpos m + 2 ^ (- e)) / 2 ^ (1 - e).

(** [parseFloat(x.toFixed(2))].  From 1e21 on [toFixed] prints the number
    as [String] does, which reads back as the number itself. *)
Definition parseFloat_toFixed2 (x : Number) : Number :=
  match x with
  | S754_finite s m e =>
      if SFleb (of_int (10 ^ 21)) (SFabs x) then x
      else
        let n := hundredths m e in
        if n =? 0 then S754_zero s
        else if s then SFopp (nearest n 100) else nearest n 100
  | S754_zero _ => S754_zero false
  | _ => x
  end.

(** [parseFloat(((now - startTime) / 1000).toFixed(2))]. *)
Definition duration_between (startTime now : Number) : Number :=
  parseFloat_toFixed2 (div (sub now startTime) (of_int 1000)).

(** Every module has its own world; [time n] is what the n-th
    [Date.now()] gives, in milliseconds. *)
Record World := {
  fetching : FetchBlockchain.World;
  parsing : Config.Store;
  deriving : DeriveColors.World;
  publishing : Publish.World;
  time : nat -> Z;
  time_reads : nat
}.

Definition Date_now (w : World) : Number * World :=
  (of_int (time w (time_reads w)),
   {| fetching := fetching w; parsing := parsing w; deriving := deriving w;
      publishing := publishing w; time := time w;
      time_reads := S (time_reads w) |}).

Definition with_fetching (fw : FetchBlockchain.World) (w : World) : World :=
  {| fetching := fw; parsing := parsing w; deriving := deriving w;
     publishing := publishing w; time := time w; time_reads := time_reads w |}.

Definition with_parsing (st : Config.Store) (w : World) : World :=
  {| fetching := fetching w; parsing := st; deriving := deriving w;
     publishing := publishing w; time := time w; time_reads := time_reads w |}.

Definition with_deriving (dw : DeriveColors.World) (w : World) : World :=
  {| fetching := fetching w; parsing := parsing w; deriving := dw;
     publishing := publishing w; time := time w; time_reads := time_reads w |}.

Definition with_publishing (pw : Publish.World) (w : World) : World :=
  {| fetching := fetching w; parsing := parsing w; deriving := deriving w;
     publishing := pw; time := time w; time_reads := time_reads w |}.

(** What [runPipeline] returns: the report of a success or of a failure. *)
Inductive Result :=
| Success (hash : Value) (primaryColor accentColor : option string)
          (palette : list string) (duration : Number)
          (outputs : list Publish.Output)
| Failure (error : string) (duration : Number).

(** The object [{ hash: rawHash }]. *)
Definition hash_only (rawHash : string) : ParseLedger.BlockObject :=
  {| ParseLedger.hash := Some rawHash;
     ParseLedger.id := None;
     ParseLedger.height := None;
     ParseLedger.block_height := None;
     ParseLedger.timestamp := None;
     ParseLedger.time := None;
     ParseLedger.tx := None;
     ParseLedger.n_tx := None;
     ParseLedger.size := None |}.

(** [parseLedger({ hash: rawHash })] for the value that
    [fetchLatestBlockHash] returned.  A truthy value that is not a string
    is tested by the regular expression as its text: when it passes,
    [parseBlockHash] calls [substring] on it for its log line, which is a
    TypeError; when it does not, or when the value is falsy, the hash is
    null and its normalisation empty. *)
Definition parse_fetched (rawHash : Value) (st : Config.Store)
    : Outcome ParseLedger.ParsedData * Config.Store :=
  match rawHash with
  | Str s =>
      ParseLedger.parseLedger
        (ParseLedger.SingleBlock (ParseLedger.RawObject (hash_only s))) st
  | _ =>
      match Config.loadConfig st with
      | (Thrown error, st1) => (Thrown error, st1)
      | (Returned cfg, st1) =>
          let without_hash :=
            {| ParseLedger.parsed_hash := Some "";
               ParseLedger.parsed_hashes := [];
               ParseLedger.parsed_metadata :=
                 ParseLedger.BlockMetadata None None 0 None;
               ParseLedger.parsed_algorithm :=
                 Some (ParseLedger.default_algorithm cfg) |} in
          if negb (truthy rawHash) then (Returned without_hash, st1)
          else
            match to_string rawHash with
            | Thrown error => (Thrown error, st1)
            | Returned text =>
                if ParseLedger.hex_regex_test text
                then (Thrown "hash.substring is not a function", st1)
                else (Returned without_hash, st1)
            end
      end
  end.

Section WithOutputDir.

(** [process.env.BLOCKHASH_OUTPUT_DIR || 'public']. *)
Variable OUTPUT_DIR : string.

(** What the [try] block holds when it reaches its [return]. *)
Record Steps := {
  rawHash : Value;
  colorData : DeriveColors.ColorData;
  publishResult : Publish.PublishResult
}.

Definition publish_options : Publish.Options :=
  {| Publish.outputDir := Some OUTPUT_DIR;
     Publish.opt_css := None;
     Publish.opt_json := None;
     Publish.opt_html := None;
     Publish.format := None |}.

(** The [try] block of [runPipeline], up to its [return].  The lines it
    logs are left out, but for the text of the fetched value in the line
    "Got hash", whose conversion can throw. *)
Definition try_block (w : World) : Outcome Steps * World :=
  match FetchBlockchain.fetchLatestBlockHash FetchBlockchain.RETRY_CONFIG
          (fetching w) with
  | (Thrown error, fw) => (Thrown error, with_fetching fw w)
  | (Returned rawHash, fw) =>
      let w := with_fetching fw w in
      if negb (truthy rawHash) then (Thrown "Could not fetch block hash", w)
      else
        match to_string rawHash with
        | Thrown error => (Thrown error, w)
        | Returned _ =>
        match parse_fetched rawHash (parsing w) with
        | (Thrown error, st) => (Thrown error, with_parsing st w)
        | (Returned parsedData, st) =>
            let w := with_parsing st w in
            if DeriveColors.no_hash (Some parsedData)
            then (Thrown "Could not parse block hash", w)
            else
              match DeriveColors.deriveColors (Some parsedData) (deriving w) with
              | (Thrown error, dw) => (Thrown error, with_deriving dw w)
              | (Returned colorData, dw) =>
                  let w := with_deriving dw w in
                  match DeriveColors.palette colorData with
                  | [] => (Thrown "Could not derive colors", w)
                  | _ =>
                      match Publish.publish colorData publish_options
                              (publishing w) with
                      | (Thrown error, pw) => (Thrown error, with_publishing pw w)
                      | (Returned (Publish.Text _), pw) =>
                          (Thrown "Publish failed: undefined", with_publishing pw w)
                      | (Returned (Publish.Report r), pw) =>
                          if negb (Publish.success r) then
                            (Thrown ("Publish failed: "
                                     ++ join_with ", " (Publish.errors r)),
                             with_publishing pw w)
                          else
                            (Returned {| rawHash := rawHash;
                                         colorData := colorData;
                                         publishResult := r |},
                             with_publishing pw w)
                      end
                  end
              end
        end
        end
  end.

Definition runPipeline (w : World) : Result * World :=
  let '(startTime, w) := Date_now w in
  match try_block w with
  | (Returned steps, w) =>
      let '(now, w) := Date_now w in
      (Success (rawHash steps)
         (option_map (fun p => DeriveColors.hex (DeriveColors.color p))
                     (DeriveColors.primaryColor (colorData steps)))
         (option_map DeriveColors.hex (DeriveColors.accentColor (colorData steps)))
         (map (fun c => DeriveColors.hex (DeriveColors.color c))
              (DeriveColors.palette (colorData steps)))
         (duration_between startTime now)
         (Publish.outputs (publishResult steps)), w)
  | (Thrown message, w) =>
      let '(now, w) := Date_now w in
      (Failure message (duration_between startTime now), w)
  end.

(** *** The vocabulary of the pipeline's failures *)



End WithOutputDir.

End CronRunner.

(* ===================================================================== *)
(** * src/main.js (src/unnamed/part_001): the retrying runner             *)
(* ===================================================================== *)

Module Main.
Import JS.

Record PipelineConfig := {
  maxRetries : Z;
  retryableErrors : list string;
  stepTimeoutMs : Z
}.

Definition PIPELINE_CONFIG : PipelineConfig :=
  {| maxRetries := 2;
     retryableErrors := ["Failed to fetch"; "Network error"; "timeout"];
     stepTimeoutMs := 60000 |}.

(** A thrown error: its [name], its [message] and, for a PipelineError,
    its [step]. *)
Record Error := { name : string; message : string; step : option string }.

(** [s.includes(pattern)]. *)
Fixpoint includes (pattern s : string) : bool :=
  String.prefix pattern s
  || match s with
     | EmptyString => false
     | String _ rest => includes pattern rest
     end.

Section WithPipeline.

(** What [runPipeline] resolves to. *)
Variable Result : Type.

(** [pipeline n] is how the n-th call of [runPipeline] ends; [sleeps] are
    the waits so far, oldest first. *)
Record World := {
  pipeline : nat -> Error + Result;
  runs : nat;
  sleeps : list Z
}.

Definition runPipeline (w : World) : (Error + Result) * World :=
  (pipeline w (runs w),
   {| pipeline := pipeline w; runs := S (runs w); sleeps := sleeps w |}).

Definition sleep (ms : Z) (w : World) : World :=
  {| pipeline := pipeline w; runs := runs w; sleeps := (sleeps w ++ [ms])%list |}.

(** The options: [retries] is an integer when given; a callback returns
    or throws ([Some error]). *)
Record Options := {
  retries : option Z;
  onStepComplete : option (Z -> Result -> option Error);
  onError : option (Z -> Error -> option Error)
}.

(** [{ success: true, attempt, ...result }] and the report of a failure. *)
Inductive SafeResult :=
| Succeeded (attempt : Z) (result : Result)
| Failed (attempts : Z) (error errorType step : string).

Definition call {A} (callback : option (Z -> A -> option Error)) (n : Z) (a : A)
    : option Error :=
  match callback with
  | Some f => f n a
  | None => None
  end.

Definition isRetryable (error : Error) : bool :=
  existsb (fun retryable =>
             includes retryable (message error) || includes retryable (message error))
          (retryableErrors PIPELINE_CONFIG).

Definition failure_report (retries : Z) (lastError : option Error) : SafeResult :=
  Failed (retries + 1)
    (match lastError with
     | Some e => if truthy_string (message e) then message e else "Unknown error"
     | None => "Unknown error"
     end)
    (match lastError with
     | Some e => if truthy_string (name e) then name e else "Error"
     | None => "Error"
     end)
    (match lastError with
     | Some {| step := Some s |} => if truthy_string s then s else "unknown"
     | _ => "unknown"
     end).

Variable options : Options.

Definition retries_of : Z :=
  match retries options with
  | Some n => n
  | None => maxRetries PIPELINE_CONFIG
  end.

(** The body of the [try] block: the pipeline runs, then the callback. *)
Definition try_run (attempt : nat) (w : World) : (Error + Result) * World :=
  match runPipeline w with
  | (inr result, w1) =>
      match call (onStepComplete options) (Z.of_nat attempt) result with
      | Some error => (inl error, w1)
      | None => (inr result, w1)
      end
  | (inl error, w1) => (inl error, w1)
  end.

(** The [for (let attempt = 0; attempt <= retries; attempt++)] loop and the
    [return] after it; [inl] is an error that [runPipelineSafe] throws. *)
Equations? safe_loop (attempt : nat) (lastError : option Error) (w : World)
    : (Error + SafeResult) * World
    by wf (Z.to_nat (retries_of + 1 - Z.of_nat attempt)) lt :=
safe_loop attempt lastError w
    with sumbool_of_bool (Z.of_nat attempt <=? retries_of) := {
  | right _ => (inr (failure_report retries_of lastError), w)
  | left _ with try_run attempt w := {
      | (inr result, w1) => (inr (Succeeded (Z.of_nat attempt + 1) result), w1)
      | (inl error, w1)
          with call (onError options) (Z.of_nat attempt + 1) error := {
          | Some thrown => (inl thrown, w1)
          | None
              with sumbool_of_bool
                     (negb (isRetryable error) || (retries_of <=? Z.of_nat attempt)) := {
              | left _ => (inr (failure_report retries_of (Some error)), w1)
              | right _ =>
                  safe_loop (S attempt) (Some error)
                    (sleep (1000 * (Z.of_nat attempt + 1)) w1) } } } }.
Proof.
  apply Z.leb_le in e. lia.
Qed.

Definition runPipelineSafe (w : World) : (Error + SafeResult) * World :=
  safe_loop 0 None w.

End WithPipeline.

Arguments pipeline {Result} w n.
Arguments runs {Result} w.
Arguments sleeps {Result} w.
Arguments runPipeline {Result} w.
Arguments sleep {Result} ms w.
Arguments retries {Result} o.
Arguments onStepComplete {Result} o.
Arguments onError {Result} o.
Arguments Succeeded {Result} attempt result.
Arguments Failed {Result} attempts error errorType step.
Arguments failure_report {Result} retries lastError.
Arguments retries_of {Result} options.
Arguments try_run {Result} options attempt w.
Arguments safe_loop {Result} options attempt lastError w.
Arguments runPipelineSafe {Result} options w.

(** *** The vocabulary of the properties *)

(** The waits before the runs [first], [first + 1], ...: a second more
    each time. *)
Definition waits (first count : nat) : list Z :=
  map (fun k => 1000 * Z.of_nat k) (seq first count).

End Main.

(* ===================================================================== *)
(** * Scenarios: concrete inputs the properties are run on                *)
(* ===================================================================== *)

Module Scenario.
Import JS.

(** The configuration of the README, with the defaults of the modules. *)
Definition default_config : Config.t :=
  {| Config.blockchain :=
       {| Config.rpcUrl := "https://blockstream.info/api";
          Config.latestBlockEndpoint := "/blocks" |};
     Config.colorDerivation := None;
     Config.output := None |}.

Definition fresh_store : Config.Store :=
  {| Config.cache := None; Config.file := Returned default_config |}.

Definition blocks_url : string := "https://blockstream.info/api/blocks".

(** A clock that starts at the given millisecond of 2026-02-28T00:00:00Z
    and ticks at every read. *)
Definition clock_from (ms : nat) (n : nat) : string :=
  "2026-02-28T00:00:00." ++ padStart0 3 (nat_to_string 10 (Z.of_nat (ms + n))) ++ "Z".

Definition response_with_status (status : Z) (text : string)
    : FetchBlockchain.Response :=
  {| FetchBlockchain.status := status;
     FetchBlockchain.statusText := text;
     FetchBlockchain.body := Thrown "Unexpected token < in JSON" |}.

(** A source that answers every request with the same status. *)
Definition source_answering (status : Z) (text : string) : FetchBlockchain.World :=
  {| FetchBlockchain.store := fresh_store;
     FetchBlockchain.network := fun _ => Returned (response_with_status status text);
     FetchBlockchain.requests := 0;
     FetchBlockchain.events := [] |}.

Definition always_503 : FetchBlockchain.World :=
  source_answering 503 "Service Unavailable".

Definition always_404 : FetchBlockchain.World :=
  source_answering 404 "Not Found".

(** A source that answers 404 once and then sends the list of blocks. *)
Definition not_found_once : FetchBlockchain.World :=
  {| FetchBlockchain.store := fresh_store;
     FetchBlockchain.network :=
       fun n =>
         match n with
         | O => Returned (response_with_status 404 "Not Found")
         | S _ =>
             Returned
               {| FetchBlockchain.status := 200;
                  FetchBlockchain.statusText := "OK";
                  FetchBlockchain.body :=
                    Returned (Array [Object [("id", Str "00aAbB"); ("height", Num (of_int 99))]]) |}
         end;
     FetchBlockchain.requests := 0;
     FetchBlockchain.events := [] |}.

Definition loaded_store : Config.Store :=
  {| Config.cache := Some default_config; Config.file := Returned default_config |}.

Definition block (hash : option string) (height : Z) : ParseLedger.BlockObject :=
  {| ParseLedger.hash := hash;
     ParseLedger.id := None;
     ParseLedger.height := Some height;
     ParseLedger.block_height := None;
     ParseLedger.timestamp := None;
     ParseLedger.time := None;
     ParseLedger.tx := None;
     ParseLedger.n_tx := None;
     ParseLedger.size := None |}.

(** An array whose element 0 has no valid hash and whose element 1 has. *)
Definition block_without_hash : ParseLedger.BlockObject := block (Some "XYZ") 100.
Definition block_with_hash : ParseLedger.BlockObject := block (Some "00aAbB") 99.
Definition two_blocks : list ParseLedger.RawBlock :=
  [ParseLedger.RawObject block_without_hash; ParseLedger.RawObject block_with_hash].

(** A Node.js process whose file system answers [mkdir] and [writeFile]
    as given. *)
Definition node_world (mkdir_error write_error : string -> option Publish.FsError)
    : Publish.World :=
  {| Publish.store := fresh_store;
     Publish.files := [];
     Publish.clock_reads := 0;
     Publish.has_window := false;
     Publish.has_process := true;
     Publish.baseDir := "/srv/blockhash";
     Publish.path_join := join_with "/";
     Publish.mkdir_error := mkdir_error;
     Publish.write_error := write_error;
     Publish.clock := clock_from 0 |}.

(** The output directory cannot be created. *)
Definition read_only_disk : Publish.World :=
  node_world
    (fun _ => Some {| Publish.code := "EACCES";
                      Publish.message := "EACCES: permission denied, mkdir" |})
    (fun _ => None).

(** Only the JSON file cannot be written. *)
Definition json_write_fails : Publish.World :=
  node_world
    (fun _ => None)
    (fun path =>
       if String.eqb path "/srv/blockhash/public/colors.json"
       then Some {| Publish.code := "EACCES";
                    Publish.message := "EACCES: permission denied, open" |}
       else None).


(** A configuration whose saturation range is given in percent. *)
Definition percent_ranges : Config.t :=
  {| Config.blockchain := Config.blockchain default_config;
     Config.colorDerivation :=
       Some {| Config.algorithm := None;
               Config.paletteSize := None;
               Config.saturationRange := Some [of_int 60; of_int 90];
               Config.lightnessRange := None |};
     Config.output := None |}.

(** The block hash of the README. *)
Definition readme_hash : string :=
  "00000000000000000000118985e6ff66d62ea0e1adbc77b17bb7a9e776d4ae3d".

Definition parsed (hash : string) : ParseLedger.ParsedData :=
  {| ParseLedger.parsed_hash := Some hash;
     ParseLedger.parsed_hashes := [hash];
     ParseLedger.parsed_metadata := ParseLedger.EmptyMetadata;
     ParseLedger.parsed_algorithm := Some "sha256" |}.

Definition derive_world (cfg : Config.t) (ms : nat) : DeriveColors.World :=
  {| DeriveColors.store := {| Config.cache := None; Config.file := Returned cfg |};
     DeriveColors.clock := clock_from ms;
     DeriveColors.clock_reads := 0 |}.

(** A later call: the configuration is cached, the file is gone and the
    clock has moved. *)
Definition later_world (cfg : Config.t) (ms : nat) : DeriveColors.World :=
  {| DeriveColors.store :=
       {| Config.cache := Some cfg; Config.file := Thrown "ENOENT" |};
     DeriveColors.clock := clock_from ms;
     DeriveColors.clock_reads := 3 |}.

(** The world a first call leaves: the configuration is cached and the
    clock was read once. *)
Definition world_after (cfg : Config.t) (ms : nat) : DeriveColors.World :=
  {| DeriveColors.store := {| Config.cache := Some cfg; Config.file := Returned cfg |};
     DeriveColors.clock := clock_from ms;
     DeriveColors.clock_reads := 1 |}.

(** What [deriveColors] returns for the hash of the README. *)
Definition readme_result : DeriveColors.ColorData :=
  Eval vm_compute in
    match fst (DeriveColors.deriveColors (Some (parsed readme_hash))
                 (derive_world default_config 0)) with
    | Returned r => r
    | Thrown _ => DeriveColors.empty_result default_config
    end.

(** What [deriveColors] returns for it when the saturation range is in
    percent. *)
Definition percent_result : DeriveColors.ColorData :=
  Eval vm_compute in
    match fst (DeriveColors.deriveColors (Some (parsed readme_hash))
                 (derive_world percent_ranges 0)) with
    | Returned r => r
    | Thrown _ => DeriveColors.empty_result percent_ranges
    end.

(** A source that answers every request with 200 and an empty list. *)
Definition empty_list : FetchBlockchain.World :=
  {| FetchBlockchain.store := fresh_store;
     FetchBlockchain.network :=
       fun _ => Returned {| FetchBlockchain.status := 200;
                            FetchBlockchain.statusText := "OK";
                            FetchBlockchain.body := Returned (Array []) |};
     FetchBlockchain.requests := 0;
     FetchBlockchain.events := [] |}.

(** The configuration file is missing and nothing is cached. *)
Definition missing_config : Config.Store :=
  {| Config.cache := None;
     Config.file := Thrown "ENOENT: no such file or directory, open 'config.json'" |}.

(** A page in a browser: [window] is defined, there is no [process]. *)
Definition browser_world : Publish.World :=
  {| Publish.store := missing_config;
     Publish.files := [];
     Publish.clock_reads := 0;
     Publish.has_window := true;
     Publish.has_process := false;
     Publish.baseDir := "";
     Publish.path_join := join_with "/";
     Publish.mkdir_error := fun _ => None;
     Publish.write_error := fun _ => None;
     Publish.clock := clock_from 0 |}.

(** The hash of the README in capitals. *)
Definition upper_case_hash : string :=
  "00000000000000000000118985E6FF66D62EA0E1ADBC77B17BB7A9E776D4AE3D".

(** A source that answers with a list whose first block has that hash. *)
Definition latest_block : FetchBlockchain.World :=
  {| FetchBlockchain.store := fresh_store;
     FetchBlockchain.network :=
       fun _ => Returned
                  {| FetchBlockchain.status := 200;
                     FetchBlockchain.statusText := "OK";
                     FetchBlockchain.body :=
                       Returned (Array [Object [("id", Str upper_case_hash);
                                                ("height", Num (of_int 938000))]]) |};
     FetchBlockchain.requests := 0;
     FetchBlockchain.events := [] |}.

(** A cron run that starts at the clock reading 1000 ms and ends 1234 ms
    later. *)
Definition cron_world (fw : FetchBlockchain.World) (pw : Publish.World)
    : CronRunner.World :=
  {| CronRunner.fetching := fw;
     CronRunner.parsing := fresh_store;
     CronRunner.deriving := derive_world default_config 0;
     CronRunner.publishing := pw;
     CronRunner.time := fun n => 1000 + 1234 * Z.of_nat n;
     CronRunner.time_reads := 0 |}.

Definition writable_disk : Publish.World :=
  node_world (fun _ => None) (fun _ => None).

Definition cron_success : CronRunner.Result * CronRunner.World :=
  Eval vm_compute in
    CronRunner.runPipeline "public" (cron_world latest_block writable_disk).

Definition cron_failure : CronRunner.Result * CronRunner.World :=
  Eval vm_compute in
    CronRunner.runPipeline "public" (cron_world latest_block json_write_fails).

(** A pipeline every run of which fails as a fetch that has used up its
    attempts does, and one whose runs fail on the hash. *)
Definition failing_pipeline (text : string) : Main.World unit :=
  {| Main.pipeline :=
       fun _ => inl {| Main.name := "Error"; Main.message := text;
                       Main.step := None |};
     Main.runs := 0;
     Main.sleeps := [] |}.

Definition source_down : Main.World unit :=
  failing_pipeline
    "Failed to fetch latest block hash after 4 attempts: HTTP 503: Service Unavailable".

Definition bad_hash : Main.World unit :=
  failing_pipeline "Failed to parse block hash".

(** A pipeline that fails twice as a fetch that has used up its attempts
    does, and then succeeds. *)
Definition recovers : Main.World unit :=
  {| Main.pipeline :=
       fun n =>
         match n with
         | O | S O =>
             inl {| Main.name := "Error";
                    Main.message :=
                      "Failed to fetch latest block hash after 4 attempts: fetch failed";
                    Main.step := None |}
         | _ => inr tt
         end;
     Main.runs := 0;
     Main.sleeps := [] |}.

Definition no_options : Main.Options unit :=
  {| Main.retries := None; Main.onStepComplete := None; Main.onError := None |}.

End Scenario.

(* ===================================================================== *)
(** * The platform functions on known values                              *)
(* ===================================================================== *)

Section PlatformExamples.
Import JS.

Example Math_round_ties :
  map (fun x => Number_toString (Math_round x))
      [decimal 25 1; decimal (-25) 1; decimal 35 1; decimal 1275 1;
       decimal 49999999999999994 17; of_int 360; NaN]
  = ["3"; "-2"; "4"; "128"; "0"; "360"; "NaN"]
  /\ Math_round (decimal (-5) 1) = S754_zero true.
Proof. vm_compute. split; reflexivity. Qed.

Example rem_keeps_the_sign_of_the_dividend :
  map Number_toString
      [rem (of_int 540) (of_int 360); rem (of_int (-7)) (of_int 3);
       rem (decimal 55 1) (of_int 2); rem (of_int 6) (of_int 2);
       rem (of_int 1) (of_int 0)]
  = ["180"; "-1"; "1.5"; "0"; "NaN"].
Proof. vm_compute. reflexivity. Qed.

Example Number_toString_is_shortest :
  map Number_toString
      [add (decimal 1 1) (decimal 2 1); decimal 1 6; decimal 1 7; of_int (10 ^ 21);
       of_int (2 ^ 53); sub (decimal 7 1) (decimal 4 1)]
  = ["0.30000000000000004"; "0.000001"; "1e-7"; "1e+21";
     "9007199254740992"; "0.29999999999999993"].
Proof. vm_compute. reflexivity. Qed.

Example toString16_pads_to_two :
  map (fun n => padStart0 2 (Number_toString16 (of_int n))) [0; 9; 15; 16; 255; 256; -3]
  = ["00"; "09"; "0f"; "10"; "ff"; "100"; "-3"].
Proof. vm_compute. reflexivity. Qed.

Example parseInt16_reads_a_prefix :
  map (fun t => Number_toString (parseInt16 t)) ["6eb"; "d8"; "0"; "FFF"; "12z"; "z"; ""]
  = ["1771"; "216"; "0"; "4095"; "18"; "NaN"; "NaN"].
Proof. vm_compute. reflexivity. Qed.

Example sha256_abc :
  DeriveColors.sha256 "abc"
  = "ba7816bf8f01cfea414140de5dae2223b00361a396177a9cb410ff61f20015ad".
Proof. vm_compute. reflexivity. Qed.

End PlatformExamples.

(* ===================================================================== *)
(** * Properties of the numbers                                           *)
(* ===================================================================== *)

Section NumberFacts.
Import JS.

Lemma digits2_pos_bounds (m : positive) :
  2 ^ (Zpos (digits2_pos m) - 1) <= Zpos m < 2 ^ Zpos (digits2_pos m).
Proof.
  induction m as [m IH|m IH|]; cbn [digits2_pos].
  - rewrite Pos2Z.inj_succ, Z.pow_succ_r by lia.
    replace (Z.succ (Zpos (digits2_pos m)) - 1) with (Z.succ (Zpos (digits2_pos m) - 1)) by lia.
    rewrite Z.pow_succ_r by lia. lia.
  - rewrite Pos2Z.inj_succ, Z.pow_succ_r by lia.
    replace (Z.succ (Zpos (digits2_pos m)) - 1) with (Z.succ (Zpos (digits2_pos m) - 1)) by lia.
    rewrite Z.pow_succ_r by lia. lia.
  - cbn. lia.
Qed.



















End NumberFacts.

(* ===================================================================== *)
(** * Properties of src/fetchBlockchain.js                                *)
(* ===================================================================== *)

Section FetchFacts.
Import JS FetchBlockchain.
Variable rc : RetryConfig.

Lemma fetchWithRetry_eq url attempt w :
  fetchWithRetry rc url attempt w =
  match fetch url w with
  | (Returned response, w1) =>
      if (500 <=? status response) && (attempt <? maxRetries rc)%nat
      then fetchWithRetry rc url (S attempt) (sleep (getBackoffDelay rc attempt) w1)
      else (Returned response, w1)
  | (Thrown error, w1) =>
      if (attempt <? maxRetries rc)%nat
      then fetchWithRetry rc url (S attempt) (sleep (getBackoffDelay rc attempt) w1)
      else (Thrown error, w1)
  end.
Proof.
  simp fetchWithRetry.
  destruct (fetch url w) as [[response|error] w1];
    simp fetchWithRetry;
    destruct (sumbool_of_bool _) as [e|e]; simp fetchWithRetry;
    rewrite e; reflexivity.
Qed.

Lemma attempt_loop_eq url attempt lastError w :
  attempt_loop rc url attempt lastError w =
  if (attempt <=? maxRetries rc)%nat then
    match try_block rc url attempt w with
    | (Return hash, w1) => (Returned hash, w1)
    | (Continue, w1) => attempt_loop rc url (S attempt) lastError w1
    | (Throw error, w1) =>
        attempt_loop rc url (S attempt) (Some error)
          (if (attempt <? maxRetries rc)%nat
           then sleep (getBackoffDelay rc attempt) w1 else w1)
    end
  else (Thrown (failure_message rc lastError), w).
Proof.
  simp attempt_loop.
  destruct (sumbool_of_bool _) as [e|e]; simp attempt_loop.
  - destruct (try_block rc url attempt w) as [[hash| |error] w1];
      simp attempt_loop; rewrite e; reflexivity.
  - rewrite e; reflexivity.
Qed.

Lemma getBackoffDelay_before k :
  getBackoffDelay rc k =
  Z.min (maxDelayMs rc) (initialDelayMs rc * backoffMultiplier rc ^ (Z.of_nat (S k) - 1)).
Proof.
  unfold getBackoffDelay. rewrite Z.min_comm.
  replace (Z.of_nat (S k) - 1) with (Z.of_nat k) by lia. reflexivity.
Qed.

Lemma retried_once url attempt budget w w1 :
  w1 = snd (fetch url w) -> retried rc url attempt budget w w1.
Proof.
  intros ->. exists 0%nat. cbn.
  split; [lia | split; [reflexivity | split; [lia | split; reflexivity]]].
Qed.

Lemma retried_again url attempt budget w w' :
  retried rc url (S attempt) budget
    (sleep (getBackoffDelay rc attempt) (snd (fetch url w))) w' ->
  retried rc url attempt (S budget) w w'.
Proof.
  intros (n & Hn & Hev & Hreq & Hst & Hnet). exists (S n).
  cbn [sleep fetch snd events requests store network] in *.
  split; [lia|]. split; [|split; [lia | split; assumption]].
  rewrite Hev. unfold backoff_schedule. cbn [seq flat_map].
  rewrite <- getBackoffDelay_before, <- !app_assoc. reflexivity.
Qed.

Lemma fetchWithRetry_schedule url :
  forall budget attempt w,
    (maxRetries rc - attempt = budget)%nat ->
    retried rc url attempt budget w (snd (fetchWithRetry rc url attempt w)).
Proof.
  induction budget as [|budget IH]; intros attempt w Hb;
    rewrite fetchWithRetry_eq.
  - assert (Hlt : (attempt <? maxRetries rc)%nat = false) by (apply Nat.ltb_ge; lia).
    destruct (fetch url w) as [[response|error] w1] eqn:E;
      rewrite Hlt, ?andb_false_r; apply retried_once; rewrite E; reflexivity.
  - assert (Hlt : (attempt <? maxRetries rc)%nat = true) by (apply Nat.ltb_lt; lia).
    pose proof (IH (S attempt)
                  (sleep (getBackoffDelay rc attempt) (snd (fetch url w)))
                  ltac:(lia)) as Hretry.
    apply retried_again in Hretry.
    destruct (fetch url w) as [[response|error] w1] eqn:E;
      rewrite Hlt, ?andb_true_r; cbn [snd] in Hretry.
    + destruct (500 <=? status response); [exact Hretry|].
      apply retried_once. rewrite E. reflexivity.
    + exact Hretry.
Qed.

Lemma answers_between_same lo hi w w' :
  same_setting w w' -> answers_between lo hi w -> answers_between lo hi w'.
Proof. intros [_ Hnet] H n. rewrite Hnet. apply H. Qed.

Lemma same_setting_trans w1 w2 w3 :
  same_setting w1 w2 -> same_setting w2 w3 -> same_setting w1 w3.
Proof. unfold same_setting. intros [-> ->] [-> ->]. split; reflexivity. Qed.

Lemma same_setting_sleep ms w : same_setting w (sleep ms w).
Proof. split; reflexivity. Qed.

(** Against a server that always answers 5xx, [fetchWithRetry] uses its
    whole budget and returns the last response. *)
Lemma fetchWithRetry_server_errors url hi :
  forall budget attempt w,
    (maxRetries rc - attempt = budget)%nat ->
    answers_between 500 hi w ->
    exists r w',
      fetchWithRetry rc url attempt w = (Returned r, w') /\
      500 <= status r <= hi /\
      requests w' = (requests w + S budget)%nat /\
      same_setting w w'.
Proof.
  induction budget as [|budget IH]; intros attempt w Hb Hnet;
    rewrite fetchWithRetry_eq; unfold fetch;
    destruct (Hnet (requests w)) as (r & -> & Hr).
  - replace (attempt <? maxRetries rc)%nat with false
      by (symmetry; apply Nat.ltb_ge; lia).
    rewrite andb_false_r. eexists _, _. split; [reflexivity|].
    cbn. repeat split; try lia.
  - replace (attempt <? maxRetries rc)%nat with true
      by (symmetry; apply Nat.ltb_lt; lia).
    replace (500 <=? status r) with true by (symmetry; apply Z.leb_le; lia).
    cbn [andb].
    match goal with |- context [fetchWithRetry rc url (S attempt) ?w1] =>
      destruct (IH (S attempt) w1 ltac:(lia)) as (r' & w' & -> & Hr' & Hreq & Hst & Hn)
    end.
    { intros n. apply Hnet. }
    exists r', w'. split; [reflexivity|]. split; [exact Hr'|].
    cbn in Hreq, Hst, Hn. split; [lia | split; assumption].
Qed.

(** A response below 500 is returned at once. *)
Lemma fetchWithRetry_no_server_error url attempt w r :
  network w (requests w) = Returned r -> status r < 500 ->
  fetchWithRetry rc url attempt w = (Returned r, snd (fetch url w)).
Proof.
  intros Hn Hr. rewrite fetchWithRetry_eq. unfold fetch. rewrite Hn.
  replace (500 <=? status r) with false by (symmetry; apply Z.leb_gt; lia).
  reflexivity.
Qed.

Lemma ok_false_from_400 r : 400 <= status r -> ok r = false.
Proof.
  intros H. unfold ok. apply andb_false_iff. right. apply Z.leb_gt. lia.
Qed.

(** The outer loop against a server that always answers 503: every
    iteration spends a whole [fetchWithRetry] budget. *)
Lemma attempt_loop_503 url :
  forall budget attempt lastError w,
    (S (maxRetries rc) - attempt = budget)%nat ->
    answers_between 503 503 w ->
    exists message w',
      attempt_loop rc url attempt lastError w = (Thrown message, w') /\
      requests w' = (requests w + budget * S (maxRetries rc))%nat /\
      same_setting w w'.
Proof.
  induction budget as [|budget IH]; intros attempt lastError w Hb Hnet;
    rewrite attempt_loop_eq.
  - replace (attempt <=? maxRetries rc)%nat with false
      by (symmetry; apply Nat.leb_gt; lia).
    eexists _, _. split; [reflexivity|]. split; [lia | split; reflexivity].
  - replace (attempt <=? maxRetries rc)%nat with true
      by (symmetry; apply Nat.leb_le; lia).
    unfold try_block.
    destruct (fetchWithRetry_server_errors url 503 (maxRetries rc) 0 w ltac:(lia))
      as (r & w1 & -> & Hr & Hreq & Hset).
    { intros n. destruct (Hnet n) as (r & ? & ?). exists r. split; [assumption | lia]. }
    rewrite (ok_false_from_400 r) by lia. cbn [negb].
    replace (500 <=? status r) with true by (symmetry; apply Z.leb_le; lia).
    cbn [andb].
    destruct (attempt <? maxRetries rc)%nat.
    + destruct (IH (S attempt) lastError (sleep (getBackoffDelay rc attempt) w1))
        as (m & w' & -> & Hreq' & Hset'); [lia| |].
      { eapply answers_between_same; [|exact Hnet].
        eapply same_setting_trans; [exact Hset | apply same_setting_sleep]. }
      exists m, w'. split; [reflexivity|]. cbn in Hreq'. split; [lia|].
      eapply same_setting_trans; [exact Hset|].
      eapply same_setting_trans; [apply same_setting_sleep | exact Hset'].
    + match goal with |- context [attempt_loop rc url (S attempt) ?le w1] =>
        destruct (IH (S attempt) le w1)
          as (m & w' & -> & Hreq' & Hset'); [lia| |]
      end.
      { eapply answers_between_same; [exact Hset | exact Hnet]. }
      exists m, w'. split; [reflexivity|]. split; [lia|].
      eapply same_setting_trans; [exact Hset | exact Hset'].
Qed.

Lemma attempt_loop_4xx url :
  forall budget attempt lastError w,
    (S (maxRetries rc) - attempt = budget)%nat ->
    answers_between 400 499 w ->
    exists message w',
      attempt_loop rc url attempt lastError w = (Thrown message, w') /\
      requests w' = (requests w + budget)%nat /\
      events w' = (events w ++ loop_events rc url attempt budget)%list /\
      same_setting w w'.
Proof.
  induction budget as [|budget IH]; intros attempt lastError w Hb Hnet;
    rewrite attempt_loop_eq.
  - replace (attempt <=? maxRetries rc)%nat with false
      by (symmetry; apply Nat.leb_gt; lia).
    eexists _, _. split; [reflexivity|]. cbn. rewrite app_nil_r.
    split; [lia | split; [reflexivity | split; reflexivity]].
  - replace (attempt <=? maxRetries rc)%nat with true
      by (symmetry; apply Nat.leb_le; lia).
    unfold try_block. destruct (Hnet (requests w)) as (r & Hr & Hs).
    rewrite (fetchWithRetry_no_server_error url 0 w r Hr) by lia.
    rewrite (ok_false_from_400 r) by lia. cbn [negb].
    replace (500 <=? status r) with false by (symmetry; apply Z.leb_gt; lia).
    cbn [andb].
    destruct (attempt <? maxRetries rc)%nat eqn:Hlt.
    + apply Nat.ltb_lt in Hlt.
      match goal with |- context [attempt_loop rc url (S attempt) ?le ?w1] =>
        destruct (IH (S attempt) le w1)
          as (m & w' & -> & Hreq' & Hev' & Hset'); [lia| |]
      end.
      { intros n. apply Hnet. }
      exists m, w'. split; [reflexivity|].
      cbn [sleep fetch snd requests events] in Hreq', Hev'.
      split; [lia|]. split.
      * rewrite Hev'. destruct budget as [|budget]; [lia|].
        cbn [loop_events]. unfold backoff_schedule. cbn [seq flat_map].
        rewrite <- getBackoffDelay_before, <- !app_assoc. reflexivity.
      * destruct Hset' as [Hs1 Hs2]. cbn in Hs1, Hs2. split; assumption.
    + apply Nat.ltb_ge in Hlt.
      match goal with |- context [attempt_loop rc url (S attempt) ?le ?w1] =>
        destruct (IH (S attempt) le w1)
          as (m & w' & -> & Hreq' & Hev' & Hset'); [lia| |]
      end.
      { intros n. apply Hnet. }
      exists m, w'. split; [reflexivity|].
      cbn [fetch snd requests events] in Hreq', Hev'.
      split; [lia|]. split.
      * rewrite Hev'. assert (budget = 0)%nat as -> by lia.
        cbn. rewrite app_nil_r. reflexivity.
      * destruct Hset' as [Hs1 Hs2]. cbn in Hs1, Hs2. split; assumption.
Qed.
End FetchFacts.

Section RetryClaims.
Import JS FetchBlockchain.

(** C2, as the code behaves.  Against a source that answers every request
    with HTTP 503, [fetchLatestBlockHash] fails, but only after
    (maxRetries+1) * (maxRetries+1) HTTP requests: each of the maxRetries+1
    iterations of its loop calls [fetchWithRetry], which spends maxRetries+1
    requests of its own.  The claimed ceiling of maxRetries+1 requests does
    not hold. *)
Theorem fetchLatestBlockHash_always_503
    (rc : RetryConfig) (w : World) (cfg : Config.t) (st : Config.Store)
    (Hcfg : Config.loadConfig (store w) = (Returned cfg, st))
    (Hsrc : forall n, exists r, network w n = Returned r /\ status r = 503) :
  exists message w',
    fetchLatestBlockHash rc w = (Thrown message, w') /\
    requests w' = (requests w + (maxRetries rc + 1) * (maxRetries rc + 1))%nat.
Proof.
  unfold fetchLatestBlockHash. rewrite Hcfg.
  destruct (attempt_loop_503 rc
              (Config.rpcUrl (Config.blockchain cfg)
               ++ Config.latestBlockEndpoint (Config.blockchain cfg))
              (S (maxRetries rc)) 0 None (with_store st w) eq_refl)
    as (message & w' & Hrun & Hreq & _).
  { intros n. destruct (Hsrc n) as (r & Hr & Hs). exists r.
    split; [exact Hr | lia]. }
  exists message, w'. split; [exact Hrun|].
  rewrite Hreq. cbn [with_store requests]. lia.
Qed.

Lemma fetchLatestBlockHash_always_503_witness :
  exists message w',
    fetchLatestBlockHash RETRY_CONFIG Scenario.always_503 = (Thrown message, w') /\
    requests w' = 16%nat.
Proof.
  apply (fetchLatestBlockHash_always_503 RETRY_CONFIG Scenario.always_503
           Scenario.default_config
           {| Config.cache := Some Scenario.default_config;
              Config.file := Returned Scenario.default_config |}).
  - reflexivity.
  - intros n. eexists. split; reflexivity.
Defined.

(** C2 at the failing input: 16 requests, not 4, before the failure. *)
Example fetchLatestBlockHash_always_503_run :
  let '(result, w') := fetchLatestBlockHash RETRY_CONFIG Scenario.always_503 in
  result = Thrown "Failed to fetch latest block hash after 4 attempts: HTTP 503: Service Unavailable"
  /\ requests w' = 16%nat.
Proof. vm_compute. split; reflexivity. Qed.

(** C3, as the code behaves.  A 4xx response is not returned to the caller
    at once: the [throw] of the [try] block is caught by the [catch] of the
    same loop iteration, which sleeps and lets the loop go on.  Against a
    source that always answers 4xx there are maxRetries+1 requests, with the
    backoff sleeps between them, before the failure. *)
Theorem fetchLatestBlockHash_4xx_is_retried
    (rc : RetryConfig) (w : World) (cfg : Config.t) (st : Config.Store)
    (Hcfg : Config.loadConfig (store w) = (Returned cfg, st))
    (Hsrc : forall n, exists r, network w n = Returned r /\ 400 <= status r <= 499) :
  let url := Config.rpcUrl (Config.blockchain cfg)
             ++ Config.latestBlockEndpoint (Config.blockchain cfg) in
  exists message w',
    fetchLatestBlockHash rc w = (Thrown message, w') /\
    requests w' = (requests w + (maxRetries rc + 1))%nat /\
    events w' =
      (events w ++ Fetch url :: backoff_schedule rc url 1 (maxRetries rc))%list.
Proof.
  intros url. unfold fetchLatestBlockHash. rewrite Hcfg.
  destruct (attempt_loop_4xx rc url (S (maxRetries rc)) 0 None (with_store st w)
              eq_refl Hsrc)
    as (message & w' & Hrun & Hreq & Hev & _).
  exists message, w'. split; [exact Hrun|].
  cbn [with_store requests events loop_events] in Hreq, Hev.
  split; [lia | exact Hev].
Qed.

Lemma fetchLatestBlockHash_4xx_is_retried_witness :
  exists message w',
    fetchLatestBlockHash RETRY_CONFIG Scenario.always_404 = (Thrown message, w') /\
    requests w' = 4%nat /\
    events w' =
      [Fetch Scenario.blocks_url; Sleep 1000;
       Fetch Scenario.blocks_url; Sleep 2000;
       Fetch Scenario.blocks_url; Sleep 4000;
       Fetch Scenario.blocks_url].
Proof.
  apply (fetchLatestBlockHash_4xx_is_retried RETRY_CONFIG Scenario.always_404
           Scenario.default_config
           {| Config.cache := Some Scenario.default_config;
              Config.file := Returned Scenario.default_config |}).
  - reflexivity.
  - intros n. eexists. split; [reflexivity | cbn; lia].
Defined.

(** C3 again: after one 404 the next request is made all the same, a
    second later, and its answer is returned as if nothing had happened. *)
Example fetchLatestBlockHash_retries_after_404 :
  let '(result, w') := fetchLatestBlockHash RETRY_CONFIG Scenario.not_found_once in
  result = Returned (Str "00aAbB")
  /\ events w' = [Fetch Scenario.blocks_url; Sleep 1000; Fetch Scenario.blocks_url].
Proof. vm_compute. split; reflexivity. Qed.

(** C4, as stated, fails: with the defaults the sleeps before attempts 1, 2
    and 3 are 1000, 2000 and 4000 ms, not 2000, 4000 and 8000 ms. *)
Lemma backoff_delays_are_not_as_specified :
  events (snd (fetchWithRetry RETRY_CONFIG Scenario.blocks_url 0 Scenario.always_503))
  = [Fetch Scenario.blocks_url; Sleep 1000;
     Fetch Scenario.blocks_url; Sleep 2000;
     Fetch Scenario.blocks_url; Sleep 4000;
     Fetch Scenario.blocks_url]
  /\ Fetch Scenario.blocks_url
       :: specified_schedule RETRY_CONFIG Scenario.blocks_url 1 3
     = [Fetch Scenario.blocks_url; Sleep 2000;
        Fetch Scenario.blocks_url; Sleep 4000;
        Fetch Scenario.blocks_url; Sleep 8000;
        Fetch Scenario.blocks_url]
  /\ events (snd (fetchWithRetry RETRY_CONFIG Scenario.blocks_url 0 Scenario.always_503))
     <> Fetch Scenario.blocks_url
          :: specified_schedule RETRY_CONFIG Scenario.blocks_url 1 3.
Proof.
  split; [vm_compute; reflexivity|]. split; [vm_compute; reflexivity|].
  vm_compute. discriminate.
Qed.

(** C4, amended.  Whatever the network does, the log of [fetchWithRetry]
    is its first request followed, for each later attempt k = 1 .. n (n at
    most maxRetries), by one sleep of
    min(maxDelayMs, initialDelayMs * backoffMultiplier^(k-1)) and the
    request of attempt k; with the defaults the sleeps before attempts 1, 2
    and 3 are 1000, 2000 and 4000 ms. *)
Theorem backoff_delay_before_attempt :
  (forall (rc : RetryConfig) (url : string) (w : World),
     exists n,
       (n <= maxRetries rc)%nat /\
       events (snd (fetchWithRetry rc url 0 w)) =
       (events w
        ++ Fetch url
           :: flat_map
                (fun k =>
                   [Sleep (Z.min (maxDelayMs rc)
                                 (initialDelayMs rc
                                  * backoffMultiplier rc ^ (Z.of_nat k - 1)));
                    Fetch url])
                (seq 1 n))%list)
  /\ map (fun k => Z.min (maxDelayMs RETRY_CONFIG)
                         (initialDelayMs RETRY_CONFIG
                          * backoffMultiplier RETRY_CONFIG ^ (k - 1)))
         [1; 2; 3]
     = [1000; 2000; 4000].
Proof.
  split; [|reflexivity].
  intros rc url w.
  destruct (fetchWithRetry_schedule rc url (maxRetries rc) 0 w ltac:(lia))
    as (n & Hn & Hev & _).
  exists n. split; [exact Hn | exact Hev].
Qed.

End RetryClaims.

(* ===================================================================== *)
(** * Properties of src/deriveColors.js                                   *)
(* ===================================================================== *)

Section StringFacts.
Import JS.

Lemma length_append (a b : string) :
  String.length (a ++ b) = (String.length a + String.length b)%nat.
Proof. induction a as [|c a IH]; cbn; [reflexivity | rewrite IH; reflexivity]. Qed.

Lemma length_substring (s : string) :
  forall n m, String.length (String.substring n m s) = Nat.min m (String.length s - n).
Proof.
  induction s as [|c s IH]; intros [|n] [|m]; cbn; try reflexivity.
  - rewrite IH. rewrite Nat.sub_0_r. reflexivity.
  - rewrite IH. reflexivity.
  - rewrite IH. reflexivity.
Qed.

Lemma length_join_map {A} (f : A -> string) (k : nat) (l : list A) :
  Forall (fun x => String.length (f x) = k) l ->
  String.length (join (map f l)) = (k * List.length l)%nat.
Proof.
  induction 1 as [|x l Hx _ IH]; cbn; [lia|].
  rewrite length_append, Hx, IH. lia.
Qed.

(** [s.substring(a, a + n)] inside a string is the [n] characters at [a],
    or those that are left. *)
Lemma substring_window (s : string) (a n : nat) :
  (a <= String.length s)%nat ->
  substring a (a + n) s = String.substring a (Nat.min n (String.length s - a)) s.
Proof.
  intros Ha. unfold substring.
  replace (Nat.min (Nat.min a (String.length s))
                   (Nat.min (a + n) (String.length s))) with a by lia.
  replace (Nat.max (Nat.min a (String.length s))
                   (Nat.min (a + n) (String.length s)) - a)%nat
    with (Nat.min n (String.length s - a)) by lia.
  reflexivity.
Qed.

End StringFacts.

Section DigestFacts.
Import JS DeriveColors.

Lemma byte_hex_length_all :
  forallb (fun n => (String.length (byte_hex (Z.of_nat n)) =? 2)%nat) (seq 0 256) = true.
Proof. vm_compute. reflexivity. Qed.

Lemma byte_hex_length (b : Z) : 0 <= b < 256 -> String.length (byte_hex b) = 2%nat.
Proof.
  intros Hb. pose proof byte_hex_length_all as H.
  rewrite forallb_forall in H.
  specialize (H (Z.to_nat b)). rewrite Z2Nat.id in H by lia.
  apply Nat.eqb_eq, H, in_seq. lia.
Qed.

Lemma be_bytes_range count x :
  Forall (fun b => 0 <= b < 256) (SHA256.be_bytes count x).
Proof.
  unfold SHA256.be_bytes. apply Forall_forall. intros b Hb.
  apply in_map_iff in Hb as (i & <- & _). apply Z.mod_pos_bound. lia.
Qed.

Lemma be_bytes_length count x : List.length (SHA256.be_bytes count x) = count.
Proof. unfold SHA256.be_bytes. rewrite length_map, length_seq. reflexivity. Qed.

Lemma digest_range msg : Forall (fun b => 0 <= b < 256) (SHA256.digest msg).
Proof.
  unfold SHA256.digest. cbn zeta. apply Forall_flat_map, Forall_forall.
  intros x _. apply be_bytes_range.
Qed.

Lemma digest_length msg : List.length (SHA256.digest msg) = 32%nat.
Proof.
  unfold SHA256.digest. cbn [flat_map]. rewrite !length_app, !be_bytes_length.
  reflexivity.
Qed.

(** The digest is printed on 64 characters. *)
Lemma sha256_length input : String.length (sha256 input) = 64%nat.
Proof.
  unfold sha256. rewrite (length_join_map _ 2).
  - rewrite digest_length. reflexivity.
  - eapply Forall_impl; [|apply digest_range]. intros b. apply byte_hex_length.
Qed.

End DigestFacts.

Section PaletteFacts.
Import JS DeriveColors.

(** The loop pushes, in order, a swatch for each index whose segment has
    six characters. *)
Lemma palette_loop_spec fullHash hash cfg :
  forall count i palette,
    palette_loop fullHash hash cfg count i palette =
    (palette
     ++ map (fun j => {| index := Z.of_nat j;
                         color := deriveSingleColor (segment_at fullHash j) cfg;
                         fromHash := substring 0 8 hash ++ "..." |})
            (filter (fun j => (String.length (segment_at fullHash j) =? segmentLength)%nat)
                    (seq i count)))%list.
Proof.
  induction count as [|count IH]; intros i palette; cbn [palette_loop seq filter].
  - cbn. rewrite app_nil_r. reflexivity.
  - rewrite IH.
    destruct (String.length (segment_at fullHash i) =? segmentLength)%nat;
      cbn [map]; rewrite <- ?app_assoc; reflexivity.
Qed.

Lemma segment_at_digest fullHash i :
  String.length fullHash = 64%nat ->
  segment_at fullHash i =
  String.substring ((i * 6) mod 64) (Nat.min 6 (64 - (i * 6) mod 64)) fullHash.
Proof.
  intros Hlen. unfold segment_at, segmentLength.
  pose proof (Nat.mod_upper_bound (i * 6) 64 ltac:(lia)) as Hlt.
  rewrite substring_window by lia. rewrite Hlen. reflexivity.
Qed.

Lemma segment_complete fullHash i :
  String.length fullHash = 64%nat ->
  (String.length (segment_at fullHash i) =? segmentLength)%nat = complete_window i.
Proof.
  intros Hlen. rewrite segment_at_digest by exact Hlen.
  rewrite length_substring, Hlen. unfold complete_window, segmentLength.
  pose proof (Nat.mod_upper_bound (i * 6) 64 ltac:(lia)) as Hlt.
  destruct (Nat.leb_spec ((i * 6) mod 64) 58).
  - apply Nat.eqb_eq. lia.
  - apply Nat.eqb_neq. lia.
Qed.

Lemma segment_window fullHash i :
  String.length fullHash = 64%nat -> complete_window i = true ->
  segment_at fullHash i = window fullHash i.
Proof.
  intros Hlen Hc. rewrite segment_at_digest by exact Hlen.
  unfold window, complete_window in *. apply Nat.leb_le in Hc.
  replace (Nat.min 6 (64 - (i * 6) mod 64)) with 6%nat by lia. reflexivity.
Qed.

Lemma filter_map_ext_in {A B} (p q : A -> bool) (f g : A -> B) (l : list A) :
  (forall x, p x = q x) -> (forall x, q x = true -> f x = g x) ->
  map f (filter p l) = map g (filter q l).
Proof.
  intros Hpq Hfg. induction l as [|x l IH]; cbn; [reflexivity|].
  rewrite Hpq. destruct (q x) eqn:Hq; cbn; [rewrite IH, Hfg by exact Hq|]; auto.
Qed.

(** The palette of a digest: a swatch for each index with a complete
    window, from that window. *)
Lemma palette_of_digest hash cfg count :
  palette_loop (sha256 hash) hash cfg count 0 [] =
  map (swatch_at hash cfg) (filter complete_window (seq 0 count)).
Proof.
  rewrite palette_loop_spec. cbn [app].
  apply filter_map_ext_in.
  - intros j. apply segment_complete, sha256_length.
  - intros j Hj. unfold swatch_at.
    rewrite segment_window by (try apply sha256_length; exact Hj). reflexivity.
Qed.

(** What [deriveColors] returns once the configuration is loaded. *)
Lemma deriveColors_with_config parsedData w cfg st :
  Config.loadConfig (store w) = (Returned cfg, st) ->
  deriveColors parsedData w =
  match usable_hash parsedData with
  | Some (pd, hash) =>
      let palette :=
        map (swatch_at hash cfg)
            (filter complete_window (seq 0 (Z.to_nat (paletteSize_of cfg)))) in
      (Returned {| palette := palette;
                   primaryColor := List.hd_error palette;
                   accentColor := option_map accent_of (List.hd_error palette);
                   hash := Some hash;
                   algorithm :=
                     algorithm_or_default (ParseLedger.parsed_algorithm pd)
                                          (ParseLedger.default_algorithm cfg);
                   metadata := Some (ParseLedger.parsed_metadata pd);
                   derivedAt := Some (clock w (clock_reads w)) |},
       snd (now (with_store st w)))
  | None => (Returned (empty_result cfg), with_store st w)
  end.
Proof.
  intros Hcfg. unfold deriveColors. rewrite Hcfg.
  destruct (usable_hash parsedData) as [[pd hash]|]; [|reflexivity].
  cbn zeta. rewrite palette_of_digest. reflexivity.
Qed.

Lemma loadConfig_effective w cfg :
  effective_config w = Some cfg ->
  exists st, Config.loadConfig (store w) = (Returned cfg, st) /\ Config.cache st = Some cfg.
Proof.
  unfold effective_config, Config.loadConfig.
  destruct (Config.cache (store w)) as [c|] eqn:Hc.
  - intros [= ->]. exists (store w). split; [reflexivity | exact Hc].
  - destruct (Config.file (store w)) as [c|e]; [|discriminate].
    intros [= ->]. eexists. split; reflexivity.
Qed.

End PaletteFacts.

Section DerivationClaims.
Import JS DeriveColors.

(** C1.  Determinism of derivation: two calls of [deriveColors] on the
    same parsed data, in any two worlds in which the module works with the
    same configuration (whatever the clocks, and whether the configuration
    is cached or still to be read), both return, with the same sequence of
    swatches (index, hsl, css, hex), the same primaryColor and the same
    accentColor. *)
Theorem deriveColors_deterministic
    (parsedData : option ParseLedger.ParsedData) (w1 w2 : World) (cfg : Config.t)
    (H1 : effective_config w1 = Some cfg)
    (H2 : effective_config w2 = Some cfg) :
  exists r1 r2 w1' w2',
    deriveColors parsedData w1 = (Returned r1, w1') /\
    deriveColors parsedData w2 = (Returned r2, w2') /\
    palette r1 = palette r2 /\
    primaryColor r1 = primaryColor r2 /\
    accentColor r1 = accentColor r2.
Proof.
  destruct (loadConfig_effective w1 cfg H1) as (st1 & L1 & _).
  destruct (loadConfig_effective w2 cfg H2) as (st2 & L2 & _).
  rewrite (deriveColors_with_config parsedData w1 cfg st1 L1).
  rewrite (deriveColors_with_config parsedData w2 cfg st2 L2).
  destruct (usable_hash parsedData) as [[pd hash]|];
    eexists _, _, _, _; repeat split.
Qed.

Lemma deriveColors_deterministic_witness :
  exists r1 r2 w1' w2',
    deriveColors (Some (Scenario.parsed Scenario.readme_hash))
      (Scenario.derive_world Scenario.default_config 0)
    = (Returned r1, w1') /\
    deriveColors (Some (Scenario.parsed Scenario.readme_hash))
      (Scenario.later_world Scenario.default_config 500)
    = (Returned r2, w2') /\
    palette r1 = palette r2 /\
    primaryColor r1 = primaryColor r2 /\
    accentColor r1 = accentColor r2.
Proof.
  apply (deriveColors_deterministic
           (Some (Scenario.parsed Scenario.readme_hash))
           (Scenario.derive_world Scenario.default_config 0)
           (Scenario.later_world Scenario.default_config 500)
           Scenario.default_config); reflexivity.
Defined.

(** The two runs above are told apart by [derivedAt] alone. *)
Example derivedAt_follows_the_clock :
  match fst (deriveColors (Some (Scenario.parsed Scenario.readme_hash))
               (Scenario.derive_world Scenario.default_config 0)),
        fst (deriveColors (Some (Scenario.parsed Scenario.readme_hash))
               (Scenario.later_world Scenario.default_config 500)) with
  | Returned r1, Returned r2 =>
      derivedAt r1 = Some "2026-02-28T00:00:00.000Z" /\
      derivedAt r2 = Some "2026-02-28T00:00:00.503Z" /\
      palette r1 = palette r2
  | _, _ => False
  end.
Proof. vm_compute. repeat split. Qed.

(** Repeated calls: after a first call has returned, a second call on the
    same data returns the same palette, primary and accent, whatever the
    clock shows and whatever became of the configuration file. *)
Lemma deriveColors_repeatable parsedData w r1 w1 file' clock' reads' :
  deriveColors parsedData w = (Returned r1, w1) ->
  exists r2 w2,
    deriveColors parsedData
      {| store := {| Config.cache := Config.cache (store w1); Config.file := file' |};
         clock := clock'; clock_reads := reads' |} = (Returned r2, w2) /\
    palette r1 = palette r2 /\
    primaryColor r1 = primaryColor r2 /\
    accentColor r1 = accentColor r2.
Proof.
  intros Hrun.
  assert (exists cfg, effective_config w = Some cfg /\
                      Config.cache (store w1) = Some cfg) as (cfg & Hc & Hcache).
  { unfold deriveColors in Hrun.
    destruct (Config.loadConfig (store w)) as [[cfg|e] st] eqn:L; [|discriminate].
    exists cfg.
    assert (Hst : effective_config w = Some cfg /\ Config.cache st = Some cfg).
    { unfold Config.loadConfig, effective_config in *.
      destruct (Config.cache (store w)) as [c|] eqn:Hc.
      - injection L as -> <-. auto.
      - destruct (Config.file (store w)) as [c|e]; [|discriminate].
        injection L as -> <-. auto. }
    destruct Hst as [He Hst]. split; [exact He|].
    destruct (usable_hash parsedData) as [[pd hash]|]; cbn in Hrun;
      injection Hrun as _ <-; exact Hst. }
  destruct (loadConfig_effective w cfg Hc) as (st & L & _).
  rewrite (deriveColors_with_config parsedData w cfg st L) in Hrun.
  set (w2 := {| store := {| Config.cache := Config.cache (store w1);
                            Config.file := file' |};
                clock := clock'; clock_reads := reads' |}).
  assert (L2 : Config.loadConfig (store w2) = (Returned cfg, store w2)).
  { unfold Config.loadConfig. cbn [w2 store Config.cache]. rewrite Hcache. reflexivity. }
  rewrite (deriveColors_with_config parsedData w2 cfg (store w2) L2).
  destruct (usable_hash parsedData) as [[pd hash]|]; injection Hrun as <- _;
    eexists _, _; repeat split.
Qed.

(** The example of the README: the block hash, the default configuration
    and the palette it documents. *)
Example readme_palette :
  match fst (deriveColors (Some (Scenario.parsed Scenario.readme_hash))
               (Scenario.derive_world Scenario.default_config 0)) with
  | Returned r =>
      map (fun sw => hex (color sw)) (palette r)
      = ["#0fbd77"; "#85ec32"; "#6285e4"; "#ad931f"; "#efa36c"; "#37c21e"]
      /\ option_map (fun sw => css (color sw)) (primaryColor r)
         = Some "hsl(156, 85%, 40%)"
      /\ option_map hex (accentColor r) = Some "#bd0f55"
  | Thrown _ => False
  end.
Proof. vm_compute. repeat split. Qed.




(** C7, as stated, fails: on an empty hash [deriveColors] does not fail;
    it returns a result, with an empty palette. *)
Lemma empty_hash_is_not_an_error :
  fst (deriveColors (Some (Scenario.parsed ""))
         (Scenario.derive_world Scenario.default_config 0))
  = Returned {| palette := [];
                primaryColor := None;
                accentColor := None;
                hash := None;
                algorithm := "sha256";
                metadata := None;
                derivedAt := None |}.
Proof. reflexivity. Qed.

(** C7, amended.  When invoked with an empty or absent hash (or no parsed
    data at all), and the configuration loads, [deriveColors] returns
    normally: no error is thrown, and the result holds no partial palette
    (the palette is empty, primaryColor is null, there is no accent and the
    hash is null).  The caller tells the failure from the empty palette. *)
Theorem empty_input_returns_empty_palette
    (parsedData : option ParseLedger.ParsedData) (w : World) (cfg : Config.t)
    (Hcfg : effective_config w = Some cfg)
    (Hempty : no_hash parsedData = true) :
  exists w',
    deriveColors parsedData w =
    (Returned {| palette := [];
                 primaryColor := None;
                 accentColor := None;
                 hash := None;
                 algorithm := ParseLedger.default_algorithm cfg;
                 metadata := None;
                 derivedAt := None |}, w').
Proof.
  destruct (loadConfig_effective w cfg Hcfg) as (st & L & _).
  rewrite (deriveColors_with_config parsedData w cfg st L).
  eexists. unfold no_hash in Hempty.
  destruct (usable_hash parsedData) as [[pd hash]|]; [discriminate | reflexivity].
Qed.

Lemma empty_input_returns_empty_palette_witness :
  exists w',
    deriveColors (Some (Scenario.parsed ""))
      (Scenario.derive_world Scenario.default_config 0) =
    (Returned {| palette := [];
                 primaryColor := None;
                 accentColor := None;
                 hash := None;
                 algorithm := ParseLedger.default_algorithm Scenario.default_config;
                 metadata := None;
                 derivedAt := None |}, w').
Proof.
  apply (empty_input_returns_empty_palette (Some (Scenario.parsed ""))
           (Scenario.derive_world Scenario.default_config 0)
           Scenario.default_config); reflexivity.
Defined.

(** The hex of every swatch and of the accent is [hslToHex] of the hsl
    that is stored with it. *)
Lemma stored_hex_is_hslToHex
    (parsedData : option ParseLedger.ParsedData) (w w' : World) (r : ColorData)
    (Hrun : deriveColors parsedData w = (Returned r, w')) :
  (forall sw, In sw (palette r) -> hex (color sw) = hslToHex (hsl (color sw))) /\
  (forall sw, primaryColor r = Some sw -> hex (color sw) = hslToHex (hsl (color sw))) /\
  (forall a, accentColor r = Some a -> hex a = hslToHex (hsl a)).
Proof.
  destruct (Config.loadConfig (store w)) as [[cfg|e] st] eqn:L;
    [|unfold deriveColors in Hrun; rewrite L in Hrun; discriminate].
  rewrite (deriveColors_with_config _ _ _ _ L) in Hrun.
  destruct (usable_hash parsedData) as [[pd x]|]; injection Hrun as <- _;
    cbn [palette primaryColor accentColor empty_result];
    [|repeat split; [intros sw [] | discriminate | discriminate]].
  set (pal := map (swatch_at x cfg)
                  (filter complete_window (seq 0 (Z.to_nat (paletteSize_of cfg))))).
  assert (Hall : forall sw, In sw pal -> hex (color sw) = hslToHex (hsl (color sw))).
  { intros sw Hin. apply in_map_iff in Hin as (i & <- & _). reflexivity. }
  split; [exact Hall|]. split.
  - intros sw Hsw. apply Hall. destruct pal as [|y rest]; [discriminate|].
    injection Hsw as ->. left. reflexivity.
  - intros a Ha. destruct (hd_error pal) as [p|]; [|discriminate].
    injection Ha as <-. reflexivity.
Qed.

End DerivationClaims.

Section MappingFacts.
Import JS DeriveColors.

Lemma forallb_substring (p : ascii -> bool) (t : string) :
  string_forallb p t = true ->
  forall n m, string_forallb p (String.substring n m t) = true.
Proof.
  induction t as [|c t IH]; intros Ht n m.
  - destruct n, m; reflexivity.
  - cbn in Ht. apply andb_prop in Ht as [Hc Ht].
    destruct n as [|n]; [destruct m as [|m]|]; cbn.
    + reflexivity.
    + rewrite Hc. apply IH. exact Ht.
    + apply IH. exact Ht.
Qed.

Lemma is_hex_char_listed (c : ascii) :
  is_hex_char c = true -> existsb (Ascii.eqb c) hex_chars = true.
Proof.
  destruct c as [[] [] [] [] [] [] [] []]; vm_compute; intros H;
    first [reflexivity | discriminate H].
Qed.

Lemma hex_strings_complete :
  forall n t, String.length t = n -> string_forallb is_hex_char t = true ->
              In t (hex_strings n).
Proof.
  induction n as [|n IH]; intros [|c t] Hlen Hall; try discriminate.
  - left. reflexivity.
  - cbn in Hlen, Hall. apply andb_prop in Hall as [Hc Ht].
    cbn [hex_strings]. apply in_flat_map. exists c. split.
    + apply is_hex_char_listed, existsb_exists in Hc as (c' & Hin & Heq).
      apply Ascii.eqb_eq in Heq. subst c'. exact Hin.
    + apply in_map, IH; [lia | exact Ht].
Qed.




Lemma hex_char_facts (c : ascii) :
  is_hex_char c = true ->
  is_whitespace c = false /\
  (exists d, hex_digit_value c = Some d) /\
  c <> "-"%char /\ c <> "+"%char /\ c <> "x"%char /\ c <> "X"%char.
Proof.
  destruct c as [[] [] [] [] [] [] [] []]; vm_compute; intros H;
    try discriminate H;
    (split; [reflexivity|]); (split; [eexists; reflexivity|]);
    repeat split; discriminate.
Qed.

Lemma hex_prefix_all (t : string) :
  string_forallb is_hex_char t = true ->
  forall acc, hex_prefix t (Some acc) = Some (hex_value_from acc t).
Proof.
  induction t as [|c t IH]; intros Ht acc; [reflexivity|].
  cbn in Ht. apply andb_prop in Ht as [Hc Ht].
  destruct (hex_char_facts c Hc) as (_ & (d & Hd) & _).
  cbn [hex_prefix hex_value_from]. rewrite Hd. apply IH. exact Ht.
Qed.

(** On hexadecimal characters [parseInt(t, 16)] is their integer value. *)
Lemma parseInt16_hex (t : string) :
  t <> "" -> string_forallb is_hex_char t = true ->
  parseInt16 t = of_int (hex_value t).
Proof.
  destruct t as [|c t]; [contradiction|]. intros _ Ht.
  cbn in Ht. apply andb_prop in Ht as [Hc Ht].
  destruct (hex_char_facts c Hc) as (Hws & (d & Hd) & Hm & Hp & Hx & HX).
  unfold parseInt16. cbn [skip_whitespace]. rewrite Hws.
  assert (Hsign :
    match String c t with
    | String "-" r => (true, r)
    | String "+" r => (false, r)
    | _ => (false, String c t)
    end = (false, String c t)).
  { destruct c as [[] [] [] [] [] [] [] []]; try reflexivity;
      first [exfalso; apply Hm; reflexivity | exfalso; apply Hp; reflexivity]. }
  rewrite Hsign.
  assert (Hstrip : strip_0x (String c t) = String c t).
  { destruct t as [|c2 t]; [destruct c as [[] [] [] [] [] [] [] []]; reflexivity|].
    cbn in Ht. apply andb_prop in Ht as [Hc2 _].
    destruct (hex_char_facts c2 Hc2) as (_ & _ & _ & _ & Hx2 & HX2).
    unfold strip_0x.
    destruct c as [[] [] [] [] [] [] [] []]; try reflexivity.
    destruct c2 as [[] [] [] [] [] [] [] []]; try reflexivity;
      first [exfalso; apply Hx2; reflexivity | exfalso; apply HX2; reflexivity]. }
  rewrite Hstrip. cbn [hex_prefix]. rewrite Hd.
  rewrite hex_prefix_all by exact Ht.
  unfold hex_value. cbn [hex_value_from]. rewrite Hd. reflexivity.
Qed.
(** The parts of a window of six hexadecimal characters. *)
Lemma window_part (segment : string) (a n : nat) :
  hex_window segment = true -> (a + n <= 6)%nat ->
  substring a (a + n) segment = String.substring a n segment /\
  In (String.substring a n segment) (hex_strings n).
Proof.
  intros Hw Han. apply andb_prop in Hw as [Hlen Hall]. apply Nat.eqb_eq in Hlen.
  split.
  - rewrite substring_window by lia. f_equal. lia.
  - apply hex_strings_complete.
    + rewrite length_substring. lia.
    + apply forallb_substring. exact Hall.
Qed.

Lemma window_parseInt (segment : string) (a n : nat) :
  hex_window segment = true -> (0 < n)%nat -> (a + n <= 6)%nat ->
  parseInt16 (String.substring a n segment)
  = of_int (hex_value (String.substring a n segment)).
Proof.
  intros Hw Hn Han. apply andb_prop in Hw as [Hlen Hall]. apply Nat.eqb_eq in Hlen.
  apply parseInt16_hex.
  - intros E. apply (f_equal String.length) in E.
    rewrite length_substring in E. cbn in E. lia.
  - apply forallb_substring. exact Hall.
Qed.

End MappingFacts.

Section MappingClaim.
Import JS DeriveColors.



End MappingClaim.

(* ===================================================================== *)
(** * Properties of src/parseLedger.js                                    *)
(* ===================================================================== *)

Section LedgerClaims.
Import JS ParseLedger.

Lemma parseBlockArray_loop_spec (blocks : list RawBlock) :
  forall hashes,
    parseBlockArray_loop blocks hashes =
    (hashes ++ flat_map (fun b => match parseBlockHash b with
                                  | Some h => [h]
                                  | None => []
                                  end) blocks)%list.
Proof.
  induction blocks as [|b blocks IH]; intros hashes; cbn [parseBlockArray_loop flat_map].
  - rewrite app_nil_r. reflexivity.
  - destruct (parseBlockHash b) as [h|]; rewrite IH.
    + rewrite <- app_assoc. reflexivity.
    + reflexivity.
Qed.

(** The first valid hash of an array is the head of [parseBlockArray]. *)
Lemma parseBlockArray_head (blocks : list RawBlock) :
  match parseBlockArray blocks with
  | h :: _ => Some h
  | [] => None
  end = first_valid_hash blocks.
Proof.
  unfold parseBlockArray. destruct blocks as [|b0 blocks]; [reflexivity|].
  rewrite parseBlockArray_loop_spec. cbn [app].
  generalize (b0 :: blocks). intros l.
  induction l as [|b l IH]; [reflexivity|].
  cbn [flat_map first_valid_hash]. destruct (parseBlockHash b); [reflexivity | exact IH].
Qed.

Lemma metadata_of_element0 (blocks : list RawBlock) :
  (if truthy_block (element0 blocks)
   then extractBlockMetadata (element0 blocks)
   else EmptyMetadata) = extractBlockMetadata (element0 blocks).
Proof.
  destruct (element0 blocks) as [|x|o]; cbn; try reflexivity.
  destruct (truthy_string x); reflexivity.
Qed.

(** C10.  For every array given to [parseLedger] (the configuration being
    loaded), the returned hash is the normalisation of the hash of the
    first element that passes the hexadecimal validation, wherever it is
    in the array (the empty string when there is none), while the metadata
    are those of element 0.  So when element 0 has no valid hash and a
    later element has one, hash and metadata come from different blocks. *)
Theorem array_hash_and_metadata_may_differ
    (blocks : list RawBlock) (st st' : Config.Store) (cfg : Config.t)
    (Hcfg : Config.loadConfig st = (Returned cfg, st')) :
  exists pd,
    parseLedger (BlockArray blocks) st = (Returned pd, st') /\
    parsed_hash pd = Some (normalizeHash (first_valid_hash blocks)) /\
    parsed_metadata pd = extractBlockMetadata (element0 blocks) /\
    (forall b0 invalid later h rest,
       blocks = (b0 :: invalid ++ later :: rest)%list ->
       parseBlockHash b0 = None ->
       Forall (fun b => parseBlockHash b = None) invalid ->
       parseBlockHash later = Some h ->
       parsed_hash pd = Some (normalizeHash (parseBlockHash later)) /\
       parsed_metadata pd = extractBlockMetadata b0).
Proof.
  unfold parseLedger. rewrite Hcfg. eexists. split; [reflexivity|].
  cbn [parsed_hash parsed_metadata].
  rewrite parseBlockArray_head, metadata_of_element0.
  split; [reflexivity|]. split; [reflexivity|].
  intros b0 invalid later h rest -> H0 Hinv Hlater.
  split; [|reflexivity]. do 2 f_equal.
  cbn [first_valid_hash]. rewrite H0.
  induction Hinv as [|b invalid Hb _ IH]; cbn [app first_valid_hash].
  - rewrite Hlater. reflexivity.
  - rewrite Hb. exact IH.
Qed.

Lemma array_hash_and_metadata_may_differ_witness :
  exists pd,
    parseLedger (BlockArray Scenario.two_blocks) Scenario.fresh_store
    = (Returned pd, Scenario.loaded_store) /\
    parsed_hash pd = Some "00aabb" /\
    parsed_metadata pd = BlockMetadata (Some 100) None 0 None.
Proof.
  destruct (array_hash_and_metadata_may_differ Scenario.two_blocks
              Scenario.fresh_store Scenario.loaded_store Scenario.default_config
              eq_refl) as (pd & Hrun & _ & _ & Hdiff).
  exists pd. split; [exact Hrun|].
  exact (Hdiff (RawObject Scenario.block_without_hash) []
               (RawObject Scenario.block_with_hash) "00aAbB" []
               eq_refl eq_refl (Forall_nil _) eq_refl).
Defined.

End LedgerClaims.

(* ===================================================================== *)
(** * Properties of src/publish.js                                        *)
(* ===================================================================== *)

Section PublishClaims.
Import JS Publish.

Lemma loadConfig_of_effective w cfg :
  effective_config w = Some cfg ->
  exists st, Config.loadConfig (store w) = (Returned cfg, st).
Proof.
  unfold effective_config, Config.loadConfig.
  destruct (Config.cache (store w)) as [c|].
  - intros [= ->]. eexists. reflexivity.
  - destruct (Config.file (store w)) as [c|e]; [|discriminate].
    intros [= ->]. eexists. reflexivity.
Qed.

Lemma same_disk_entries w w' :
  same_disk w w' ->
  forall d t, written w' d t = written w d t /\ failed w' d t = failed w d t.
Proof.
  intros (We & Pj & Bd) d t. unfold written, failed, target_path.
  rewrite We, Pj, Bd. split; reflexivity.
Qed.

Lemma generateCssVariables_disk colorData w :
  same_disk w (snd (generateCssVariables colorData w)).
Proof. repeat split. Qed.

Lemma generateJsonOutput_disk colorData w :
  same_disk w (snd (generateJsonOutput colorData w)).
Proof. repeat split. Qed.

(** One write block adds the entry of its target to [outputs] or to
    [errors], and leaves the answers of the file system as they were. *)
Lemma write_format_spec (t : Target) (dir : string)
    (generate : World -> string * World) (results : PublishResult) (w : World) :
  (forall w0, same_disk w0 (snd (generate w0))) ->
  exists results' w',
    write_format (flag t) (kind t) (label t)
      (path_join w [baseDir w; dir; file_name t]) generate results w
    = (results', w') /\
    outputs results' = (outputs results ++ written w dir t)%list /\
    errors results' = (errors results ++ failed w dir t)%list /\
    success results' =
      success results && match failed w dir t with [] => true | _ => false end /\
    (forall d t', written w' d t' = written w d t' /\ failed w' d t' = failed w d t').
Proof.
  intros Hgen. unfold write_format, written, failed, target_path.
  destruct (enabled (flag t)).
  - specialize (Hgen w). destruct (generate w) as [content w1]. cbn [snd] in Hgen.
    pose proof (same_disk_entries w w1 Hgen) as Hent.
    destruct Hgen as (We & _). unfold writeFile. rewrite We.
    destruct (write_error w (path_join w [baseDir w; dir; file_name t])) as [err|];
      eexists _, _; (split; [reflexivity|]); cbn [outputs errors success];
      rewrite ?andb_true_r, ?andb_false_r, ?app_nil_r;
      (split; [reflexivity|]); (split; [reflexivity|]); (split; [reflexivity|]);
      exact Hent.
  - eexists _, _. split; [reflexivity|]. cbn.
    rewrite !app_nil_r, andb_true_r. repeat split.
Qed.

(** C8, as stated, fails: [publish] throws when the output directory
    cannot be created. *)
Lemma publish_throws_when_mkdir_fails :
  fst (publish Scenario.readme_result default_options Scenario.read_only_disk)
  = Thrown "EACCES: permission denied, mkdir".
Proof. vm_compute. reflexivity. Qed.

(** C8, amended.  Under Node.js, when the configuration loads and the
    output directory can be created (or exists already), [publish] does not
    throw: it returns a report.  Each of the CSS, JSON and HTML writes is
    attempted on its own: [outputs] holds, in that order, the entries of
    the writes that succeeded, [errors] a message for each that failed, and
    [success] is true exactly when none failed.  In particular, when the
    JSON write fails and the CSS and HTML writes succeed, [success] is
    false, [outputs] holds exactly the CSS and HTML entries and [errors]
    the JSON failure. *)
Theorem publish_reports_each_write
    (colorData : DeriveColors.ColorData) (options : Options) (w : World)
    (cfg : Config.t)
    (Hnode : in_node w = true)
    (Hcfg : effective_config w = Some cfg)
    (Hdir : mkdir w (path_join w [baseDir w; resolve_outputDir options cfg]) = None) :
  let dir := resolve_outputDir options cfg in
  exists r w',
    publish colorData options w = (Returned (Report r), w') /\
    outputs r = flat_map (written w dir) (targets options) /\
    errors r = flat_map (failed w dir) (targets options) /\
    success r = match errors r with [] => true | _ => false end /\
    (forall err,
       enabled (opt_css options) = true ->
       enabled (opt_json options) = true ->
       enabled (opt_html options) = true ->
       write_error w (path_join w [baseDir w; dir; "colors.css"]) = None ->
       write_error w (path_join w [baseDir w; dir; "colors.json"]) = Some err ->
       write_error w (path_join w [baseDir w; dir; "colors-preview.html"]) = None ->
       success r = false /\
       outputs r =
         [ {| type := "css"; path := path_join w [baseDir w; dir; "colors.css"] |};
           {| type := "html";
              path := path_join w [baseDir w; dir; "colors-preview.html"] |} ] /\
       errors r = ["Failed to write JSON: " ++ message err]).
Proof.
  intros dir.
  destruct (loadConfig_of_effective w cfg Hcfg) as (st & L).
  unfold in_node in Hnode.
  pose proof Hnode as Hwin. apply andb_prop in Hwin as [Hwin _].
  apply negb_true_iff in Hwin.
  set (w0 := with_store st w).
  set (css := {| flag := opt_css options; kind := "css"; label := "CSS";
                 file_name := "colors.css" |}).
  set (json := {| flag := opt_json options; kind := "json"; label := "JSON";
                  file_name := "colors.json" |}).
  set (html := {| flag := opt_html options; kind := "html"; label := "HTML";
                  file_name := "colors-preview.html" |}).
  destruct (write_format_spec css dir (generateCssVariables colorData)
              {| success := true; outputs := []; errors := [] |} w0
              (generateCssVariables_disk colorData))
    as (r1 & w1 & Eq1 & O1 & E1 & B1 & K1).
  destruct (write_format_spec json dir (generateJsonOutput colorData) r1 w1
              (generateJsonOutput_disk colorData))
    as (r2 & w2 & Eq2 & O2 & E2 & B2 & K2).
  destruct (write_format_spec html dir
              (fun w => (generateHtmlPreview colorData, w)) r2 w2)
    as (r3 & w3 & Eq3 & O3 & E3 & B3 & _); [repeat split|].
  cbn [flag kind label file_name css json html] in Eq1, Eq2, Eq3.
  assert (Hout : outputs r3 = flat_map (written w dir) (targets options)).
  { rewrite O3, O2, O1. cbn [targets flat_map outputs app].
    destruct (K2 dir html) as [-> _]. destruct (K1 dir html) as [-> _].
    destruct (K1 dir json) as [-> _].
    rewrite app_nil_r, <- app_assoc. reflexivity. }
  assert (Herr : errors r3 = flat_map (failed w dir) (targets options)).
  { rewrite E3, E2, E1. cbn [targets flat_map errors app].
    destruct (K2 dir html) as [_ ->]. destruct (K1 dir html) as [_ ->].
    destruct (K1 dir json) as [_ ->].
    rewrite app_nil_r, <- app_assoc. reflexivity. }
  assert (Hsucc : success r3 = match errors r3 with [] => true | _ => false end).
  { rewrite B3, B2, B1, E3, E2, E1. cbn [success errors app].
    destruct (failed w0 dir css), (failed w1 dir json), (failed w2 dir html);
      reflexivity. }
  exists r3, w3. split.
  { unfold publish. rewrite Hnode. unfold publishToFile. rewrite L.
    fold w0. change (has_window w0) with (has_window w). rewrite Hwin.
    change (mkdir w0 (path_join w0 [baseDir w0; resolve_outputDir options cfg]))
      with (mkdir w (path_join w [baseDir w; resolve_outputDir options cfg])).
    rewrite Hdir. fold dir. rewrite Eq1, Eq2, Eq3. reflexivity. }
  split; [exact Hout|]. split; [exact Herr|]. split; [exact Hsucc|].
  intros err Fc Fj Fh Wc Wj Wh.
  rewrite Hsucc, Herr, Hout. cbn [targets flat_map].
  unfold written, failed, target_path. cbn [flag kind label file_name].
  rewrite Fc, Fj, Fh, Wc, Wj, Wh. cbn. repeat split.
Qed.

Lemma publish_reports_each_write_witness :
  exists r w',
    publish Scenario.readme_result default_options Scenario.json_write_fails
    = (Returned (Report r), w') /\
    success r = false /\
    outputs r =
      [ {| type := "css"; path := "/srv/blockhash/public/colors.css" |};
        {| type := "html"; path := "/srv/blockhash/public/colors-preview.html" |} ] /\
    errors r = ["Failed to write JSON: EACCES: permission denied, open"].
Proof.
  destruct (publish_reports_each_write Scenario.readme_result default_options
              Scenario.json_write_fails Scenario.default_config
              eq_refl eq_refl eq_refl)
    as (r & w' & Hrun & _ & _ & _ & Hjson).
  exists r, w'. split; [exact Hrun|].
  exact (Hjson {| code := "EACCES"; message := "EACCES: permission denied, open" |}
               eq_refl eq_refl eq_refl eq_refl eq_refl eq_refl).
Defined.

End PublishClaims.

(* ===================================================================== *)
(** * Further properties of src/parseLedger.js                            *)
(* ===================================================================== *)

Section LedgerFacts.
Import JS ParseLedger.

Lemma lower_hex_char (c : ascii) :
  is_hex_char c = true -> is_lower_hex (lower_char c) = true.
Proof.
  destruct c as [[] [] [] [] [] [] [] []]; vm_compute; intros H;
    first [reflexivity | discriminate H].
Qed.

Lemma lower_char_fixed (c : ascii) :
  is_lower_hex c = true -> lower_char c = c.
Proof.
  destruct c as [[] [] [] [] [] [] [] []]; vm_compute; intros H;
    first [reflexivity | discriminate H].
Qed.

Lemma string_filter_forallb (p : ascii -> bool) (t : string) :
  string_forallb p (string_filter p t) = true.
Proof.
  induction t as [|c t IH]; [reflexivity|].
  cbn. destruct (p c) eqn:E; [cbn; rewrite E|]; exact IH.
Qed.

Lemma string_filter_all (p : ascii -> bool) (t : string) :
  string_forallb p t = true -> string_filter p t = t.
Proof.
  induction t as [|c t IH]; [reflexivity|].
  cbn. intros H. apply andb_prop in H as [Hc Ht]. rewrite Hc, IH by exact Ht.
  reflexivity.
Qed.

Lemma toLowerCase_lower_hex (t : string) :
  string_forallb is_lower_hex t = true -> toLowerCase t = t.
Proof.
  induction t as [|c t IH]; [reflexivity|].
  cbn. intros H. apply andb_prop in H as [Hc Ht].
  unfold toLowerCase in IH. rewrite lower_char_fixed, IH by assumption. reflexivity.
Qed.

Lemma toLowerCase_hex (t : string) :
  string_forallb is_hex_char t = true ->
  string_forallb is_lower_hex (toLowerCase t) = true.
Proof.
  induction t as [|c t IH]; [reflexivity|].
  cbn. intros H. apply andb_prop in H as [Hc Ht].
  rewrite lower_hex_char by exact Hc. apply IH. exact Ht.
Qed.

Lemma length_toLowerCase (t : string) :
  String.length (toLowerCase t) = String.length t.
Proof. induction t as [|c t IH]; [reflexivity|]. cbn. f_equal. exact IH. Qed.

Lemma normalizeHash_lower_hex (hash : option string) :
  string_forallb is_lower_hex (normalizeHash hash) = true.
Proof.
  destruct hash as [[|c t]|]; try reflexivity.
  unfold normalizeHash. cbn [truthy_string negb]. apply string_filter_forallb.
Qed.

(** X1.  [normalizeHash] returns lowercase hexadecimal characters only,
    and normalising a normalised hash changes nothing. *)
Theorem normalizeHash_idempotent (hash : option string) :
  string_forallb is_lower_hex (normalizeHash hash) = true /\
  normalizeHash (Some (normalizeHash hash)) = normalizeHash hash.
Proof.
  split; [apply normalizeHash_lower_hex|].
  pose proof (normalizeHash_lower_hex hash) as H.
  destruct (normalizeHash hash) as [|c t] eqn:E; [reflexivity|].
  unfold normalizeHash at 1. cbn [truthy_string negb].
  rewrite toLowerCase_lower_hex by exact H.
  apply string_filter_all. exact H.
Qed.

Lemma parseBlockHash_hex (b : RawBlock) (h : string) :
  parseBlockHash b = Some h -> hex_regex_test h = true.
Proof.
  unfold parseBlockHash. destruct (negb (truthy_block b)); [discriminate|].
  destruct b as [|x|o].
  - discriminate.
  - destruct (truthy_string x && hex_regex_test x) eqn:E; [|discriminate].
    intros [= <-]. apply andb_prop in E as [_ E]. exact E.
  - destruct (truthy_field (hash o)).
    + destruct (hash o) as [x|]; [|discriminate].
      destruct (truthy_string x && hex_regex_test x) eqn:E; [|discriminate].
      intros [= <-]. apply andb_prop in E as [_ E]. exact E.
    + destruct (truthy_field (id o)); [|discriminate].
      destruct (id o) as [x|]; [|discriminate].
      destruct (truthy_string x && hex_regex_test x) eqn:E; [|discriminate].
      intros [= <-]. apply andb_prop in E as [_ E]. exact E.
Qed.

Lemma normalizeHash_of_hex (h : string) :
  hex_regex_test h = true ->
  normalizeHash (Some h) = toLowerCase h /\ normalizeHash (Some h) <> "".
Proof.
  intros H. apply andb_prop in H as [Hne Hall].
  unfold normalizeHash. rewrite Hne. cbn [negb].
  rewrite string_filter_all by (apply toLowerCase_hex; exact Hall).
  split; [reflexivity|]. destruct h; [discriminate Hne | discriminate].
Qed.

(** X2.  A hash that [parseBlockHash] returns is not empty and is made of
    hexadecimal digits, so that [normalizeHash] only lowers its case: no
    character is removed and the length is kept. *)
Theorem parseBlockHash_valid (blockData : RawBlock) (h : string)
    (Hparsed : parseBlockHash blockData = Some h) :
  h <> "" /\
  string_forallb is_hex_char h = true /\
  normalizeHash (Some h) = toLowerCase h /\
  String.length (normalizeHash (Some h)) = String.length h.
Proof.
  pose proof (parseBlockHash_hex _ _ Hparsed) as Hhex.
  destruct (normalizeHash_of_hex h Hhex) as [Hn _].
  pose proof Hhex as Hx. apply andb_prop in Hx as [Hne Hall].
  split; [destruct h; [discriminate Hne | discriminate]|].
  split; [exact Hall|]. split; [exact Hn|].
  rewrite Hn. apply length_toLowerCase.
Qed.

Lemma parseBlockHash_valid_witness :
  "00aAbB" <> "" /\
  string_forallb is_hex_char "00aAbB" = true /\
  normalizeHash (Some "00aAbB") = "00aabb" /\
  String.length (normalizeHash (Some "00aAbB")) = 6%nat.
Proof.
  exact (parseBlockHash_valid (RawObject Scenario.block_with_hash) "00aAbB" eq_refl).
Defined.

Lemma parseBlockArray_valid_hashes blocks : parseBlockArray blocks = valid_hashes blocks.
Proof.
  unfold parseBlockArray. destruct blocks as [|b blocks]; [reflexivity|].
  rewrite parseBlockArray_loop_spec. reflexivity.
Qed.

Lemma valid_hashes_length blocks : (List.length (valid_hashes blocks) <= List.length blocks)%nat.
Proof.
  induction blocks as [|b blocks IH]; [cbn; lia|].
  cbn [valid_hashes flat_map]. rewrite length_app. fold (valid_hashes blocks).
  destruct (parseBlockHash b); cbn; lia.
Qed.

Lemma valid_hashes_hex blocks :
  Forall (fun h => hex_regex_test h = true) (valid_hashes blocks).
Proof.
  induction blocks as [|b blocks IH]; [constructor|].
  cbn [valid_hashes flat_map]. apply Forall_app. split; [|exact IH].
  destruct (parseBlockHash b) as [h|] eqn:E; constructor; [|constructor].
  eapply parseBlockHash_hex. exact E.
Qed.

(** X3.  [parseBlockArray] returns, in the order of the blocks, the hashes
    of exactly the blocks that pass [parseBlockHash]: never more hashes than
    blocks, as many when every block is valid, and each of them not empty
    and hexadecimal. *)
Theorem parseBlockArray_keeps_valid_hashes (blocks : list RawBlock) :
  parseBlockArray blocks =
    flat_map (fun b => match parseBlockHash b with
                       | Some h => [h]
                       | None => []
                       end) blocks /\
  (List.length (parseBlockArray blocks) <= List.length blocks)%nat /\
  (Forall (fun b => parseBlockHash b <> None) blocks ->
     List.length (parseBlockArray blocks) = List.length blocks) /\
  Forall (fun h => h <> "" /\ string_forallb is_hex_char h = true)
         (parseBlockArray blocks).
Proof.
  rewrite parseBlockArray_valid_hashes.
  split; [reflexivity|]. split; [apply valid_hashes_length|]. split.
  - induction 1 as [|b blocks Hb _ IH]; [reflexivity|].
    cbn [valid_hashes flat_map]. rewrite length_app. fold (valid_hashes blocks).
    rewrite IH. destruct (parseBlockHash b); [reflexivity | contradiction].
  - eapply Forall_impl; [|apply valid_hashes_hex].
    intros h H. apply andb_prop in H as [Hne Hall].
    split; [destruct h; [discriminate Hne | discriminate] | exact Hall].
Qed.

Lemma or_null_nonzero a : or_null a <> Some 0.
Proof.
  unfold or_null, truthy_number. destruct a as [n|]; [|discriminate].
  destruct (n =? 0) eqn:E; cbn; [discriminate|].
  apply Z.eqb_neq in E. congruence.
Qed.

(** X4.  For a block object [extractBlockMetadata] never reports a
    height, a timestamp or a size of 0: a field that is 0 is reported as
    null (a height of 0 gives way to block_height).  txCount is the length
    of a tx array that is not empty, else n_tx, else 0. *)
Theorem extractBlockMetadata_reports_zero_as_null (o : BlockObject) :
  exists height timestamp txCount size,
    extractBlockMetadata (RawObject o) = BlockMetadata height timestamp txCount size /\
    height <> Some 0 /\ timestamp <> Some 0 /\ size <> Some 0 /\
    (ParseLedger.height o = Some 0 -> height = or_null (block_height o)) /\
    (txCount = match tx o with
               | Some (t :: l) => Z.of_nat (List.length (t :: l))
               | _ => match n_tx o with Some n => n | None => 0 end
               end).
Proof.
  eexists _, _, _, _. split; [reflexivity|].
  split; [apply or_null_nonzero|]. split; [apply or_null_nonzero|].
  split; [apply or_null_nonzero|]. split.
  - intros ->. reflexivity.
  - unfold or_number, truthy_number.
    destruct (tx o) as [[|t l]|]; destruct (n_tx o) as [n|]; cbn;
      try reflexivity;
      (destruct (n =? 0) eqn:E; cbn; [apply Z.eqb_eq in E; lia | reflexivity]).
Qed.

Lemma normalized_valid (h : string) :
  hex_regex_test h = true ->
  normalizeHash (Some h) <> "" /\ string_forallb is_lower_hex (normalizeHash (Some h)) = true.
Proof.
  intros H. split; [apply normalizeHash_of_hex; exact H | apply normalizeHash_lower_hex].
Qed.

Lemma normalized_all (hashes : list string) :
  Forall (fun h => hex_regex_test h = true) hashes ->
  Forall (fun h => h <> "" /\ string_forallb is_lower_hex h = true)
         (map (fun h => normalizeHash (Some h)) hashes).
Proof.
  induction 1 as [|h hashes Hh _ IH]; cbn [map]; constructor; [|exact IH].
  apply normalized_valid. exact Hh.
Qed.

(** X5.  What [parseLedger] returns, when it returns: the configuration
    was loaded, every element of [hashes] is a lowercase hexadecimal string
    that is not empty, and [hash] is hashes[0], or the empty string when
    [hashes] is empty; [hash] is null only for data that is falsy.  Nothing
    is said of the calls that throw: besides the error of the
    configuration, a hash field that is not a string throws a TypeError
    when its text is hexadecimal, as [CronRunner.parse_fetched] has it. *)
Theorem parseLedger_result (rawData : RawData) (st : Config.Store) :
  match parseLedger rawData st with
  | (Thrown _, _) => True
  | (Returned pd, st') =>
      (exists cfg, Config.loadConfig st = (Returned cfg, st')) /\
      Forall (fun h => h <> "" /\ string_forallb is_lower_hex h = true)
             (parsed_hashes pd) /\
      match parsed_hash pd with
      | Some hash => hash = hd "" (parsed_hashes pd)
      | None => exists b, rawData = SingleBlock b /\ truthy_block b = false
      end
  end.
Proof.
  unfold parseLedger.
  destruct (Config.loadConfig st) as [[cfg|error] st'] eqn:L; [|exact I].
  destruct rawData as [b|blocks].
  - destruct (truthy_block b) eqn:Hb; cbn [negb parsed_hash parsed_hashes].
    + split; [exists cfg; reflexivity|].
      destruct (parseBlockHash b) as [h|] eqn:Hp; cbn [map hd].
      * split; [|reflexivity]. constructor; [|constructor].
        apply normalized_valid. eapply parseBlockHash_hex. exact Hp.
      * split; [constructor | reflexivity].
    + split; [exists cfg; reflexivity|]. split; [constructor|].
      exists b. split; [reflexivity | exact Hb].
  - cbn [parsed_hash parsed_hashes]. split; [exists cfg; reflexivity|].
    rewrite parseBlockArray_valid_hashes. split.
    + apply normalized_all, valid_hashes_hex.
    + destruct (valid_hashes blocks); reflexivity.
Qed.

End LedgerFacts.

(* ===================================================================== *)
(** * Further properties of src/deriveColors.js                           *)
(* ===================================================================== *)

Section ColourFacts.
Import JS DeriveColors.

Lemma string_forallb_app (p : ascii -> bool) (a b : string) :
  string_forallb p (a ++ b) = string_forallb p a && string_forallb p b.
Proof.
  induction a as [|c a IH]; [reflexivity|].
  cbn. rewrite IH, andb_assoc. reflexivity.
Qed.

Lemma byte_hex_lower_all :
  forallb (fun n => string_forallb ParseLedger.is_lower_hex (byte_hex (Z.of_nat n)))
          (seq 0 256) = true.
Proof. vm_compute. reflexivity. Qed.

Lemma byte_hex_lower (b : Z) :
  0 <= b < 256 -> string_forallb ParseLedger.is_lower_hex (byte_hex b) = true.
Proof.
  intros Hb. pose proof byte_hex_lower_all as H.
  rewrite forallb_forall in H.
  specialize (H (Z.to_nat b)). rewrite Z2Nat.id in H by lia.
  apply H, in_seq. lia.
Qed.

Lemma sha256_lower_hex (input : string) :
  string_forallb ParseLedger.is_lower_hex (sha256 input) = true.
Proof.
  unfold sha256. pose proof (digest_range (encode input)) as H.
  induction H as [|b l Hb _ IH]; [reflexivity|].
  cbn [map join]. rewrite string_forallb_app, byte_hex_lower by exact Hb.
  exact IH.
Qed.

(** X6.  [sha256] returns 64 characters, each a lowercase hexadecimal
    digit, whatever the input. *)
Theorem sha256_is_64_lowercase_hex (input : string) :
  String.length (sha256 input) = 64%nat /\
  string_forallb ParseLedger.is_lower_hex (sha256 input) = true.
Proof. split; [apply sha256_length | apply sha256_lower_hex]. Qed.

Lemma hslToHex_starts_with_hash (c : HSL) :
  exists rest, hslToHex c = String "#" rest.
Proof.
  unfold hslToHex. cbn zeta.
  repeat match goal with
         | |- context [if ?b then _ else _] => destruct b
         end; eexists; reflexivity.
Qed.

Lemma Math_max_NaN (y : Number) : Math_max NaN y = NaN.
Proof. destruct y; reflexivity. Qed.
Lemma Math_min_NaN (y : Number) : Math_min NaN y = NaN.
Proof. destruct y; reflexivity. Qed.

Lemma parseInt16_hash (rest : string) :
  parseInt16 (substring 0 2 (String "#" rest)) = NaN.
Proof. destruct rest as [|c rest]; reflexivity. Qed.

Lemma hexToHsl_after_hash (rest : string) :
  hexToHsl (String "#" rest) = {| h := NaN; s := NaN; l := NaN |}.
Proof.
  unfold hexToHsl. rewrite parseInt16_hash.
  change (div NaN (of_int 255)) with NaN.
  rewrite !Math_max_NaN, !Math_min_NaN. reflexivity.
Qed.

(** X11.  [hexToHsl] does not read what [hslToHex] writes: [hslToHex]
    starts its result with '#', which [hexToHsl] takes for the first digit
    of the red channel, so that on any text that starts with '#', and so on
    every result of [hslToHex], the three fields it returns are NaN. *)
Theorem hexToHsl_of_hslToHex_is_NaN :
  (forall rest : string,
     hexToHsl (String "#" rest) = {| h := NaN; s := NaN; l := NaN |}) /\
  (forall c : HSL, hexToHsl (hslToHex c) = {| h := NaN; s := NaN; l := NaN |}).
Proof.
  split; [exact hexToHsl_after_hash|].
  intros c. destruct (hslToHex_starts_with_hash c) as [rest ->].
  apply hexToHsl_after_hash.
Qed.

Lemma same_number_eq (x y : Number) : same_number x y = true -> x = y.
Proof.
  destruct x as [a|a| |a m e], y as [b|b| |b m' e']; cbn; try discriminate.
  - intros H. apply Bool.eqb_prop in H. congruence.
  - intros H. apply Bool.eqb_prop in H. congruence.
  - reflexivity.
  - intros H. apply andb_prop in H as [H He]. apply andb_prop in H as [Hs Hm].
    apply Bool.eqb_prop in Hs. apply Pos.eqb_eq in Hm. apply Z.eqb_eq in He.
    congruence.
Qed.

Lemma integer_between_spec (lo hi : Z) (x : Number) :
  integer_between lo hi x = true ->
  exists n, lo <= n <= hi /\ x = of_int n.
Proof.
  unfold integer_between. destruct (to_int x) as [n|]; [|discriminate].
  intros H. apply andb_prop in H as [H Hx]. apply andb_prop in H as [Hlo Hhi].
  exists n. split; [lia | apply same_number_eq; exact Hx].
Qed.

Lemma decimal_text_all :
  forallb (fun n => String.eqb (Number_toString (of_int (Z.of_nat n)))
                               (nat_to_string 10 (Z.of_nat n)))
          (seq 0 361) = true.
Proof. vm_compute. reflexivity. Qed.

Lemma decimal_text (n : Z) :
  0 <= n <= 360 -> Number_toString (of_int n) = nat_to_string 10 n.
Proof.
  intros Hn. pose proof decimal_text_all as H. rewrite forallb_forall in H.
  specialize (H (Z.to_nat n)). rewrite Z2Nat.id in H by lia.
  apply String.eqb_eq, H, in_seq. lia.
Qed.

Lemma hue_in_range_all :
  forallb (fun n => integer_between 0 360
                      (Math_round (mul (div (of_int (Z.of_nat n)) (of_int 4095))
                                       (of_int 360))))
          (seq 0 4096) = true.
Proof. vm_compute. reflexivity. Qed.

Lemma saturation_in_range_all :
  forallb (fun n => integer_between 60 90
                      (Math_round
                         (mul (add (decimal 6 1)
                                   (mul (div (of_int (Z.of_nat n)) (of_int 255))
                                        (sub (decimal 9 1) (decimal 6 1))))
                              (of_int 100))))
          (seq 0 256) = true.
Proof. vm_compute. reflexivity. Qed.

Lemma lightness_in_range_all :
  forallb (fun n => integer_between 40 70
                      (Math_round
                         (mul (add (decimal 4 1)
                                   (mul (div (of_int (Z.of_nat n)) (of_int 15))
                                        (sub (decimal 7 1) (decimal 4 1))))
                              (of_int 100))))
          (seq 0 16) = true.
Proof. vm_compute. reflexivity. Qed.

Lemma hex_value_from_bound (t : string) :
  string_forallb is_hex_char t = true ->
  forall acc, 0 <= acc ->
    acc * 16 ^ Z.of_nat (String.length t) <= hex_value_from acc t
    < (acc + 1) * 16 ^ Z.of_nat (String.length t).
Proof.
  induction t as [|c t IH]; intros Ht acc Hacc.
  - cbn. lia.
  - cbn in Ht. apply andb_prop in Ht as [Hc Ht].
    assert (Hd : exists d, hex_digit_value c = Some d /\ 0 <= d < 16).
    { destruct c as [[] [] [] [] [] [] [] []]; vm_compute in Hc; try discriminate Hc;
        eexists; (split; [vm_compute; reflexivity | lia]). }
    destruct Hd as (d & Hd & Hr).
    cbn [hex_value_from String.length]. rewrite Hd.
    specialize (IH Ht (acc * 16 + d) ltac:(lia)).
    rewrite Nat2Z.inj_succ, Z.pow_succ_r by lia.
    nia.
Qed.

Lemma hex_value_bound (t : string) :
  string_forallb is_hex_char t = true ->
  0 <= hex_value t < 16 ^ Z.of_nat (String.length t).
Proof.
  intros Ht. pose proof (hex_value_from_bound t Ht 0 ltac:(lia)) as H.
  unfold hex_value. lia.
Qed.

(** The integer a part of a window of hexadecimal characters denotes. *)
Lemma window_value (segment : string) (a n : nat) :
  hex_window segment = true -> (0 < n)%nat -> (a + n <= 6)%nat ->
  exists v,
    parseInt16 (substring a (a + n) segment) = of_int (Z.of_nat v) /\
    (v < 16 ^ n)%nat.
Proof.
  intros Hw Hn Han.
  destruct (window_part segment a n Hw Han) as [-> _].
  rewrite (window_parseInt segment a n Hw Hn Han).
  pose proof Hw as Hw'. apply andb_prop in Hw' as [Hlen Hall].
  apply Nat.eqb_eq in Hlen.
  pose proof (hex_value_bound (String.substring a n segment)
                (forallb_substring _ _ Hall a n)) as Hb.
  rewrite length_substring in Hb.
  replace (Nat.min n (String.length segment - a)) with n in Hb by lia.
  exists (Z.to_nat (hex_value (String.substring a n segment))).
  rewrite Z2Nat.id by lia. split; [reflexivity|].
  apply Nat2Z.inj_lt. rewrite Z2Nat.id by lia.
  rewrite Nat2Z.inj_pow. exact (proj2 Hb).
Qed.

Lemma forallb_seq_at (p : nat -> bool) (len v : nat) :
  forallb p (seq 0 len) = true -> (v < len)%nat -> p v = true.
Proof.
  intros H Hv. rewrite forallb_forall in H. apply H, in_seq. lia.
Qed.

(** Under the default ranges the three fields of a colour derived from a
    window of hexadecimal characters are integers in range. *)
Lemma segment_fields (segment : string) (cfg : Config.t) :
  hex_window segment = true ->
  satRange_of cfg = default_saturationRange ->
  lightRange_of cfg = default_lightnessRange ->
  exists hue sat light,
    0 <= hue <= 360 /\ 60 <= sat <= 90 /\ 40 <= light <= 70 /\
    hsl (deriveSingleColor segment cfg)
    = {| h := of_int hue; s := of_int sat; l := of_int light |}.
Proof.
  intros Hw Hs Hl.
  destruct (window_value segment 0 3 Hw ltac:(lia) ltac:(lia)) as (v3 & E3 & B3).
  destruct (window_value segment 3 2 Hw ltac:(lia) ltac:(lia)) as (v2 & E2 & B2).
  destruct (window_value segment 5 1 Hw ltac:(lia) ltac:(lia)) as (v1 & E1 & B1).
  cbn [Nat.add] in E3, E2, E1.
  unfold deriveSingleColor. cbn zeta. cbn [hsl]. rewrite Hs, Hl, E3, E2, E1.
  change (range_at default_saturationRange 0) with (decimal 6 1).
  change (range_at default_saturationRange 1) with (decimal 9 1).
  change (range_at default_lightnessRange 0) with (decimal 4 1).
  change (range_at default_lightnessRange 1) with (decimal 7 1).
  destruct (integer_between_spec _ _ _
              (forallb_seq_at _ _ v3 hue_in_range_all B3)) as (hue & Hh & ->).
  destruct (integer_between_spec _ _ _
              (forallb_seq_at _ _ v2 saturation_in_range_all B2)) as (sat & Hsat & ->).
  destruct (integer_between_spec _ _ _
              (forallb_seq_at _ _ v1 lightness_in_range_all B1)) as (light & Hli & ->).
  exists hue, sat, light. repeat split; lia.
Qed.

Lemma accent_hue_all :
  forallb (fun n =>
             let hue := Z.of_nat n in
             let accentHue := rem (add (of_int hue) (of_int 180)) (of_int 360) in
             same_number accentHue (of_int ((hue + 180) mod 360)))
          (seq 0 361) = true.
Proof. vm_compute. reflexivity. Qed.


Lemma lower_hex_is_hex (t : string) :
  string_forallb ParseLedger.is_lower_hex t = true -> string_forallb is_hex_char t = true.
Proof.
  induction t as [|c t IH]; [reflexivity|].
  cbn. intros H. apply andb_prop in H as [Hc Ht]. rewrite IH by exact Ht.
  rewrite andb_true_r. unfold ParseLedger.is_lower_hex in Hc. unfold is_hex_char.
  destruct (is_lower_af c), (is_digit c); try reflexivity; discriminate Hc.
Qed.

(** Every complete window of a digest is a window of six hexadecimal
    characters. *)
Lemma window_is_hex (hash : string) (i : nat) :
  complete_window i = true -> hex_window (window (sha256 hash) i) = true.
Proof.
  intros Hi. unfold complete_window in Hi. apply Nat.leb_le in Hi.
  pose proof (sha256_length hash) as Hlen.
  pose proof (sha256_lower_hex hash) as Hall.
  unfold hex_window, window. apply andb_true_intro. split.
  - apply Nat.eqb_eq. rewrite length_substring, Hlen. lia.
  - apply forallb_substring, lower_hex_is_hex, Hall.
Qed.

Lemma css_of_fields (c : Color) hue sat light :
  0 <= hue <= 360 -> 0 <= sat <= 360 -> 0 <= light <= 360 ->
  hsl c = {| h := of_int hue; s := of_int sat; l := of_int light |} ->
  hslToCss (hsl c)
  = "hsl(" ++ nat_to_string 10 hue ++ ", " ++ nat_to_string 10 sat ++ "%, "
    ++ nat_to_string 10 light ++ "%)".
Proof.
  intros Hh Hs Hl ->. unfold hslToCss. cbn [h s l].
  rewrite !decimal_text by assumption. reflexivity.
Qed.

(** The fields of the colours of a palette under the default ranges. *)
Lemma palette_fields
    (parsedData : option ParseLedger.ParsedData) (w : World) (cfg : Config.t)
    (Hcfg : effective_config w = Some cfg)
    (Hsat : satRange_of cfg = default_saturationRange)
    (Hlight : lightRange_of cfg = default_lightnessRange) :
  exists r w',
    deriveColors parsedData w = (Returned r, w') /\
    forall sw, In sw (palette r) ->
      exists hue sat light,
        0 <= hue <= 360 /\ 60 <= sat <= 90 /\ 40 <= light <= 70 /\
        hsl (color sw) = {| h := of_int hue; s := of_int sat; l := of_int light |} /\
        css (color sw)
        = "hsl(" ++ nat_to_string 10 hue ++ ", " ++ nat_to_string 10 sat ++ "%, "
          ++ nat_to_string 10 light ++ "%)".
Proof.
  destruct (loadConfig_effective w cfg Hcfg) as (st & L & _).
  rewrite (deriveColors_with_config parsedData w cfg st L).
  destruct (usable_hash parsedData) as [[pd hash]|];
    eexists _, _; (split; [reflexivity|]); cbn [palette empty_result];
    [|intros sw []].
  intros sw Hin. apply in_map_iff in Hin as (i & <- & Hi).
  apply filter_In in Hi as [_ Hi].
  destruct (segment_fields (window (sha256 hash) i) cfg (window_is_hex hash i Hi)
              Hsat Hlight) as (hue & sat & light & Hh & Hs & Hl & E).
  exists hue, sat, light. repeat split; try lia.
  - exact E.
  - cbn [swatch_at color].
    change (css (deriveSingleColor (window (sha256 hash) i) cfg))
      with (hslToCss (hsl (deriveSingleColor (window (sha256 hash) i) cfg))).
    apply (css_of_fields _ hue sat light); try lia. exact E.
Qed.

(** X7.  With the default saturation and lightness ranges, every colour
    of a derived palette has integer fields in range: a hue from 0 to 360
    (360 included), a saturation from 60 to 90 and a lightness from 40 to
    70; none is NaN, and its css text is hsl(h, s%, l%) with these integers
    in decimal. *)
Theorem derived_colours_in_range
    (parsedData : option ParseLedger.ParsedData) (w : World) (cfg : Config.t)
    (Hcfg : effective_config w = Some cfg)
    (Hsat : satRange_of cfg = default_saturationRange)
    (Hlight : lightRange_of cfg = default_lightnessRange) :
  exists r w',
    deriveColors parsedData w = (Returned r, w') /\
    forall sw, In sw (palette r) ->
      exists hue sat light,
        0 <= hue <= 360 /\ 60 <= sat <= 90 /\ 40 <= light <= 70 /\
        hsl (color sw) = {| h := of_int hue; s := of_int sat; l := of_int light |} /\
        css (color sw)
        = "hsl(" ++ nat_to_string 10 hue ++ ", " ++ nat_to_string 10 sat ++ "%, "
          ++ nat_to_string 10 light ++ "%)".
Proof. exact (palette_fields parsedData w cfg Hcfg Hsat Hlight). Qed.

Lemma derived_colours_in_range_witness :
  exists r w',
    deriveColors (Some (Scenario.parsed Scenario.readme_hash))
      (Scenario.derive_world Scenario.default_config 0) = (Returned r, w') /\
    forall sw, In sw (palette r) ->
      exists hue sat light,
        0 <= hue <= 360 /\ 60 <= sat <= 90 /\ 40 <= light <= 70 /\
        hsl (color sw) = {| h := of_int hue; s := of_int sat; l := of_int light |} /\
        css (color sw)
        = "hsl(" ++ nat_to_string 10 hue ++ ", " ++ nat_to_string 10 sat ++ "%, "
          ++ nat_to_string 10 light ++ "%)".
Proof.
  apply (derived_colours_in_range (Some (Scenario.parsed Scenario.readme_hash))
           (Scenario.derive_world Scenario.default_config 0)
           Scenario.default_config); reflexivity.
Defined.

Lemma accent_hue (hue : Z) :
  0 <= hue <= 360 ->
  rem (add (of_int hue) (of_int 180)) (of_int 360) = of_int ((hue + 180) mod 360).
Proof.
  intros Hh. pose proof accent_hue_all as H. rewrite forallb_forall in H.
  specialize (H (Z.to_nat hue)). cbn zeta in H. rewrite Z2Nat.id in H by lia.
  apply same_number_eq, H, in_seq. lia.
Qed.

(** X8.  With the default ranges, the accent of a derived palette is the
    complement of the primary colour: its hue is (h + 180) mod 360, an
    integer from 0 to 359, its saturation and lightness are those of the
    primary colour, and its css text shows these three integers.  There is
    an accent whenever there is a primary colour. *)
Theorem accent_is_the_complement
    (parsedData : option ParseLedger.ParsedData) (w : World) (cfg : Config.t)
    (Hcfg : effective_config w = Some cfg)
    (Hsat : satRange_of cfg = default_saturationRange)
    (Hlight : lightRange_of cfg = default_lightnessRange) :
  exists r w',
    deriveColors parsedData w = (Returned r, w') /\
    forall p, primaryColor r = Some p ->
      exists hue sat light a,
        hsl (color p) = {| h := of_int hue; s := of_int sat; l := of_int light |} /\
        accentColor r = Some a /\
        0 <= (hue + 180) mod 360 < 360 /\
        hsl a = {| h := of_int ((hue + 180) mod 360);
                   s := of_int sat; l := of_int light |} /\
        css a
        = "hsl(" ++ nat_to_string 10 ((hue + 180) mod 360) ++ ", "
          ++ nat_to_string 10 sat ++ "%, " ++ nat_to_string 10 light ++ "%)".
Proof.
  destruct (palette_fields parsedData w cfg Hcfg Hsat Hlight)
    as (r & w' & Hrun & Hall).
  exists r, w'. split; [exact Hrun|].
  destruct (loadConfig_effective w cfg Hcfg) as (st & L & _).
  rewrite (deriveColors_with_config parsedData w cfg st L) in Hrun.
  destruct (usable_hash parsedData) as [[pd hash]|]; injection Hrun as <- _;
    cbn [primaryColor accentColor palette empty_result] in *; [|discriminate].
  intros p Hp. rewrite Hp. cbn [option_map].
  destruct (Hall p) as (hue & sat & light & Hh & Hs & Hl & E & _).
  { destruct (map _ _) as [|x rest]; [discriminate|].
    injection Hp as ->. left. reflexivity. }
  pose proof (Z.mod_pos_bound (hue + 180) 360 ltac:(lia)) as Hm.
  exists hue, sat, light, (accent_of p).
  split; [exact E|]. split; [reflexivity|]. split; [exact Hm|].
  unfold accent_of. cbn [hsl css]. rewrite E. cbn [h s l].
  rewrite accent_hue by lia. split; [reflexivity|].
  rewrite !decimal_text by lia. reflexivity.
Qed.

Lemma accent_is_the_complement_witness :
  exists r w',
    deriveColors (Some (Scenario.parsed Scenario.readme_hash))
      (Scenario.derive_world Scenario.default_config 0) = (Returned r, w') /\
    forall p, primaryColor r = Some p ->
      exists hue sat light a,
        hsl (color p) = {| h := of_int hue; s := of_int sat; l := of_int light |} /\
        accentColor r = Some a /\
        0 <= (hue + 180) mod 360 < 360 /\
        hsl a = {| h := of_int ((hue + 180) mod 360);
                   s := of_int sat; l := of_int light |} /\
        css a
        = "hsl(" ++ nat_to_string 10 ((hue + 180) mod 360) ++ ", "
          ++ nat_to_string 10 sat ++ "%, " ++ nat_to_string 10 light ++ "%)".
Proof.
  apply (accent_is_the_complement (Some (Scenario.parsed Scenario.readme_hash))
           (Scenario.derive_world Scenario.default_config 0)
           Scenario.default_config); reflexivity.
Defined.

Lemma complete_below_ten (n : nat) :
  (n <= 10)%nat -> filter complete_window (seq 0 n) = seq 0 n.
Proof.
  intros Hn. apply forallb_filter_id. apply forallb_forall.
  intros i Hi. apply in_seq in Hi.
  do 10 (destruct i as [|i]; [reflexivity|]). lia.
Qed.

(** X9.  For a hash that is not empty, the palette has at most
    paletteSize swatches; when paletteSize is at most 10 it has exactly
    paletteSize of them, with the indices 0, 1, ... in order.  The primary
    colour is the first swatch, there is an accent exactly when the palette
    is not empty, and the palette is empty exactly when paletteSize is not
    positive. *)
Theorem palette_size
    (parsedData : option ParseLedger.ParsedData) (pd : ParseLedger.ParsedData)
    (hash : string) (w : World) (cfg : Config.t)
    (Hcfg : effective_config w = Some cfg)
    (Hhash : usable_hash parsedData = Some (pd, hash)) :
  exists r w',
    deriveColors parsedData w = (Returned r, w') /\
    (List.length (palette r) <= Z.to_nat (paletteSize_of cfg))%nat /\
    (paletteSize_of cfg <= 10 ->
       map index (palette r) = map Z.of_nat (seq 0 (Z.to_nat (paletteSize_of cfg)))) /\
    primaryColor r = hd_error (palette r) /\
    (accentColor r = None <-> palette r = []) /\
    (palette r = [] <-> paletteSize_of cfg <= 0).
Proof.
  destruct (loadConfig_effective w cfg Hcfg) as (st & L & _).
  rewrite (deriveColors_with_config parsedData w cfg st L), Hhash.
  eexists _, _. split; [reflexivity|].
  cbn [palette primaryColor accentColor].
  set (n := Z.to_nat (paletteSize_of cfg)).
  split; [|split; [|split; [reflexivity|split]]].
  - rewrite length_map.
    etransitivity; [apply filter_length_le|]. rewrite length_seq. lia.
  - intros Hn. rewrite complete_below_ten by lia.
    rewrite map_map. reflexivity.
  - destruct (map _ _); cbn; split; congruence.
  - subst n. destruct (Z.to_nat (paletteSize_of cfg)) as [|k] eqn:En.
    + cbn. split; [lia | reflexivity].
    + cbn [seq filter]. change (complete_window 0) with true. cbn [map].
      split; [discriminate | lia].
Qed.


Lemma palette_size_witness :
  exists r w',
    deriveColors (Some (Scenario.parsed Scenario.readme_hash))
      (Scenario.derive_world Scenario.default_config 0) = (Returned r, w') /\
    (List.length (palette r) <= Z.to_nat (paletteSize_of Scenario.default_config))%nat /\
    (paletteSize_of Scenario.default_config <= 10 ->
       map index (palette r)
       = map Z.of_nat (seq 0 (Z.to_nat (paletteSize_of Scenario.default_config)))) /\
    primaryColor r = hd_error (palette r) /\
    (accentColor r = None <-> palette r = []) /\
    (palette r = [] <-> paletteSize_of Scenario.default_config <= 0).
Proof.
  apply (palette_size (Some (Scenario.parsed Scenario.readme_hash))
           (Scenario.parsed Scenario.readme_hash) Scenario.readme_hash
           (Scenario.derive_world Scenario.default_config 0)
           Scenario.default_config); reflexivity.
Defined.

End ColourFacts.

(* ===================================================================== *)
(** * C9: the round trip between hsl and hex                              *)
(* ===================================================================== *)

Section RoundTripClaim.
Import JS DeriveColors RoundTrip.

(** *** Numbers between two half-integers *)

Lemma pow2_step (k : Z) : 0 <= k -> 2 ^ (k + 1) = 2 * 2 ^ k.
Proof. intros H. rewrite Z.pow_add_r by lia. lia. Qed.

Lemma valid_mantissa (s : bool) (m : positive) (e : Z) :
  valid_binary prec emax (S754_finite s m e) = true ->
  Zpos m < 2 ^ 53 /\ (-1074 < e -> 2 ^ 52 <= Zpos m).
Proof.
  cbn [valid_binary]. unfold bounded, canonical_mantissa.
  intros H. apply andb_prop in H as [H _].
  apply Z.eqb_eq in H.
  pose proof (digits2_pos_bounds m) as Hd.
  unfold fexp, emin, prec, emax in H.
  split.
  - assert (Zpos (digits2_pos m) <= 53) by lia.
    eapply Z.lt_le_trans; [apply Hd|]. apply Z.pow_le_mono_r; lia.
  - intros He. assert (Zpos (digits2_pos m) = 53) by lia.
    replace 52 with (Zpos (digits2_pos m) - 1) by lia. apply Hd.
Qed.

(** The facts the comparisons of valid numbers give. *)
Lemma leb_finite (ma my : positive) (ea ey : Z) :
  SFleb (S754_finite false ma ea) (S754_finite false my ey) = true ->
  ea < ey \/ (ea = ey /\ Zpos ma <= Zpos my).
Proof.
  unfold SFleb, SFcompare.
  destruct (Z.compare_spec ea ey) as [E|E|E]; [|left; exact E|discriminate].
  intros H. right. split; [exact E|].
  change (Pos.compare_cont Eq ma my) with (Pos.compare ma my) in H.
  destruct (Pos.compare_spec ma my) as [F|F|F]; try discriminate; lia.
Qed.

Lemma ltb_finite (ma my : positive) (ea ey : Z) :
  SFltb (S754_finite false my ey) (S754_finite false ma ea) = true ->
  ey < ea \/ (ey = ea /\ Zpos my < Zpos ma).
Proof.
  unfold SFltb, SFcompare.
  destruct (Z.compare_spec ey ea) as [E|E|E]; [|left; exact E|discriminate].
  intros H. right. split; [exact E|].
  change (Pos.compare_cont Eq my ma) with (Pos.compare my ma) in H.
  destruct (Pos.compare_spec my ma) as [F|F|F]; try discriminate; lia.
Qed.

Lemma leb_negative (ma my : positive) (ea ey : Z) :
  SFleb (S754_finite true ma ea) (S754_finite true my ey) = true ->
  ey < ea \/ (ea = ey /\ Zpos my <= Zpos ma).
Proof.
  unfold SFleb, SFcompare.
  destruct (Z.compare_spec ea ey) as [E|E|E]; [|discriminate|intros _; left; lia].
  intros H. right. split; [exact E|].
  change (Pos.compare_cont Eq ma my) with (Pos.compare ma my) in H.
  destruct (Pos.compare_spec ma my) as [F|F|F]; cbn in H; try discriminate; lia.
Qed.

(** A valid number between n - 1/2 and n + 1/2, for n >= 1, rounds to n. *)
Lemma Math_round_between (n : Z) (ma mb : positive) (ea eb : Z) (y : Number) :
  1 <= n ->
  Zpos ma < 2 ^ 53 -> 2 ^ 52 <= Zpos mb ->
  -1074 < ea -> eb < 0 -> (eb = ea \/ eb = ea + 1) ->
  2 * Zpos ma = (2 * n - 1) * 2 ^ (- ea) ->
  2 * Zpos mb = (2 * n + 1) * 2 ^ (- eb) ->
  valid_binary prec emax y = true ->
  SFleb (S754_finite false ma ea) y = true ->
  SFltb y (S754_finite false mb eb) = true ->
  Math_round y = of_int n.
Proof.
  intros Hn Hma Hmb Hea Heb Hab HA HB Hv Hle Hlt.
  destruct y as [sy|sy| |sy my ey]; try discriminate.
  - destruct sy; discriminate.
  - destruct sy; [discriminate|].
    apply leb_finite in Hle. apply ltb_finite in Hlt.
    destruct (valid_mantissa _ _ _ Hv) as [Hmy Hnormal].
    assert (Hey : ea <= ey <= eb) by lia.
    specialize (Hnormal ltac:(lia)).
    assert (Hp : 0 < 2 ^ (- ey)) by (apply Z.pow_pos_nonneg; lia).
    assert (Hpa : 2 ^ (- ea) = 2 * 2 ^ (- ea - 1)).
    { replace (- ea) with (- ea - 1 + 1) at 1 by lia. apply pow2_step. lia. }
    assert (Hbounds : (2 * n - 1) * 2 ^ (- ey) <= 2 * Zpos my
                      /\ 2 * Zpos my < (2 * n + 1) * 2 ^ (- ey)).
    { destruct Hab as [->| ->].
      - assert (ey = ea) by lia. subst ey. split; [lia|]. lia.
      - replace (- (ea + 1)) with (- ea - 1) in HB by lia.
        destruct (Z.eq_dec ey ea) as [->|Hne].
        + split; [lia|]. nia.
        + assert (ey = ea + 1) by lia. subst ey.
          replace (- (ea + 1)) with (- ea - 1) by lia.
          split; [nia | lia]. }
    unfold Math_round.
    destruct (Z.leb_spec 0 ey) as [H0|H0]; [lia|].
    assert (Hr : round_half_up false my ey = n).
    { unfold round_half_up, signed_mantissa.
      replace (1 - ey) with (- ey + 1) by lia. rewrite pow2_step by lia.
      symmetry. apply Z.div_unique with (2 * Zpos my + 2 ^ (- ey) - 2 * 2 ^ (- ey) * n).
      - left. nia.
      - ring. }
    rewrite Hr. destruct (Z.eqb_spec n 0); [lia | reflexivity].
Qed.

(** A valid number between -1/2 and 1/2 rounds to a zero. *)
Lemma Math_round_zero (y : Number) :
  valid_binary prec emax y = true ->
  SFleb (S754_finite true (2 ^ 52) (-53)) y = true ->
  SFltb y (S754_finite false (2 ^ 52) (-53)) = true ->
  exists s, Math_round y = S754_zero s.
Proof.
  intros Hv Hle Hlt.
  destruct y as [sy|sy| |sy my ey]; try discriminate.
  - exists sy. reflexivity.
  - destruct sy; discriminate.
  - destruct (valid_mantissa _ _ _ Hv) as [Hmy _].
    exists sy. unfold Math_round.
    assert (He : ey <= -53 /\
                 if sy then 2 * Zpos my <= 2 ^ (- ey) else 2 * Zpos my < 2 ^ (- ey)).
    { destruct sy.
      - apply leb_negative in Hle. destruct Hle as [H|[<- H]].
        + split; [lia|].
          assert (2 ^ 54 <= 2 ^ (- ey)) by (apply Z.pow_le_mono_r; lia). lia.
        + split; [lia|]. change (2 ^ (- -53)) with (2 * 2 ^ 52).
          change (Zpos (2 ^ 52)) with (2 ^ 52) in H. lia.
      - apply ltb_finite in Hlt. destruct Hlt as [H|[-> H]].
        + split; [lia|].
          assert (2 ^ 54 <= 2 ^ (- ey)) by (apply Z.pow_le_mono_r; lia). lia.
        + split; [lia|]. change (2 ^ (- -53)) with (2 * 2 ^ 52).
          change (Zpos (2 ^ 52)) with (2 ^ 52) in H. lia. }
    destruct He as [He Hm].
    destruct (Z.leb_spec 0 ey) as [H0|H0]; [lia|].
    assert (Hp : 0 < 2 ^ (- ey)) by (apply Z.pow_pos_nonneg; lia).
    assert (Hr : round_half_up sy my ey = 0).
    { unfold round_half_up.
      replace (1 - ey) with (- ey + 1) by lia. rewrite pow2_step by lia.
      destruct sy; cbn [signed_mantissa]; apply Z.div_small; lia. }
    rewrite Hr. reflexivity.
Qed.

(** *** Primitive floats and the numbers of the model *)

Lemma pf_spec (k : Z) : 0 <= k < 2 ^ 62 -> FloatOps.Prim2SF (pf k) = of_int k.
Proof.
  intros Hk. unfold pf. rewrite FloatAxioms.of_uint63_spec, Uint63.of_Z_spec.
  rewrite Z.mod_small; [reflexivity|].
  change Uint63.wB with (2 ^ 63). lia.
Qed.

Lemma chroma_spec (ps pl : PrimFloat.float) :
  FloatOps.Prim2SF (chroma_f ps pl)
  = chroma_s (FloatOps.Prim2SF ps) (FloatOps.Prim2SF pl).
Proof.
  unfold chroma_f.
  rewrite FloatAxioms.mul_spec, FloatAxioms.sub_spec, FloatAxioms.abs_spec,
    FloatAxioms.sub_spec, FloatAxioms.mul_spec, !FloatAxioms.div_spec.
  reflexivity.
Qed.

Lemma lift_spec (ps pl : PrimFloat.float) :
  FloatOps.Prim2SF (lift_f ps pl)
  = lift_s (FloatOps.Prim2SF ps) (FloatOps.Prim2SF pl).
Proof.
  unfold lift_f.
  rewrite FloatAxioms.sub_spec, !FloatAxioms.div_spec, chroma_spec.
  reflexivity.
Qed.

Lemma arg_spec (n m : PrimFloat.float) :
  FloatOps.Prim2SF (arg_f n m)
  = mul (add (FloatOps.Prim2SF n) (FloatOps.Prim2SF m)) (of_int 255).
Proof.
  unfold arg_f. rewrite FloatAxioms.mul_spec, FloatAxioms.add_spec. reflexivity.
Qed.

(** [hslToHex] by its channels. *)
Lemma hslToHex_channels (c : HSL) :
  hslToHex c
  = let C := chroma_s (s c) (l c) in
    let m := lift_s (s c) (l c) in
    let '(r, g, b) := arrange (sector_s (h c)) C (mul C (tone_s (h c))) (of_int 0) in
    "#" ++ print (mul (add r m) (of_int 255))
        ++ print (mul (add g m) (of_int 255))
        ++ print (mul (add b m) (of_int 255)).
Proof.
  unfold hslToHex, sector_s. cbn zeta.
  destruct (geb (h c) (of_int 0) && ltb (h c) (of_int 60)); [reflexivity|].
  destruct (geb (h c) (of_int 60) && ltb (h c) (of_int 120)); [reflexivity|].
  destruct (geb (h c) (of_int 120) && ltb (h c) (of_int 180)); [reflexivity|].
  destruct (geb (h c) (of_int 180) && ltb (h c) (of_int 240)); [reflexivity|].
  destruct (geb (h c) (of_int 240) && ltb (h c) (of_int 300)); reflexivity.
Qed.

(** *** What a number between two half-integers prints *)

Lemma brackets : forallb bracket (zrange 1 255) = true.
Proof. vm_compute. reflexivity. Qed.

Lemma in_zrange (first count : nat) (n : Z) :
  Z.of_nat first <= n < Z.of_nat first + Z.of_nat count -> In n (zrange first count).
Proof.
  intros Hn. unfold zrange. apply in_map_iff. exists (Z.to_nat n).
  split; [lia|]. apply in_seq. lia.
Qed.

Lemma print_fits (g : PrimInt63.int) (y : PrimFloat.float) :
  fits g y = true -> Uint63.to_Z g <= 255 ->
  print (FloatOps.Prim2SF y) = two_digits (Uint63.to_Z g).
Proof.
  unfold fits. intros Hfits Hg. apply andb_prop in Hfits as [Hle Hlt].
  rewrite FloatAxioms.leb_spec in Hle. rewrite FloatAxioms.ltb_spec in Hlt.
  pose proof (Uint63.to_Z_bounded g) as [Hg0 _].
  pose proof (FloatAxioms.Prim2SF_valid y) as Hv.
  replace (PrimFloat.of_uint63 g) with (pf (Uint63.to_Z g)) in Hle, Hlt
    by (unfold pf; rewrite Uint63.of_to_Z; reflexivity).
  set (n := Uint63.to_Z g) in *. clearbody n. clear g.
  destruct (Z.eq_dec n 0) as [->|Hn].
  - destruct (Math_round_zero (FloatOps.Prim2SF y) Hv Hle Hlt) as [sy Hr].
    unfold print. rewrite Hr. destruct sy; reflexivity.
  - pose proof brackets as Hb. rewrite forallb_forall in Hb.
    specialize (Hb n (in_zrange 1 255 n ltac:(lia))). unfold bracket in Hb.
    destruct (FloatOps.Prim2SF (PrimFloat.sub (pf n) fhalf))
      as [| | |[|] ma ea]; try discriminate.
    destruct (FloatOps.Prim2SF (PrimFloat.add (pf n) fhalf))
      as [| | |[|] mb eb]; try discriminate.
    repeat (apply andb_prop in Hb as [Hb ?]).
    assert (Hround : Math_round (FloatOps.Prim2SF y) = of_int n).
    { apply (Math_round_between n ma mb ea eb); try lia; assumption. }
    unfold print. rewrite Hround. apply String.eqb_eq. assumption.
Qed.

(** *** The integers of the check *)

Lemma mul_small (x y : PrimInt63.int) :
  Uint63.to_Z x * Uint63.to_Z y < 2 ^ 63 ->
  Uint63.to_Z (PrimInt63.mul x y) = Uint63.to_Z x * Uint63.to_Z y.
Proof.
  intros H. rewrite Uint63.mul_spec. apply Z.mod_small.
  pose proof (Uint63.to_Z_bounded x). pose proof (Uint63.to_Z_bounded y).
  change Uint63.wB with (2 ^ 63). nia.
Qed.

Lemma add_small (x y : PrimInt63.int) :
  Uint63.to_Z x + Uint63.to_Z y < 2 ^ 63 ->
  Uint63.to_Z (PrimInt63.add x y) = Uint63.to_Z x + Uint63.to_Z y.
Proof.
  intros H. rewrite Uint63.add_spec. apply Z.mod_small.
  pose proof (Uint63.to_Z_bounded x). pose proof (Uint63.to_Z_bounded y).
  change Uint63.wB with (2 ^ 63). lia.
Qed.

Lemma near_spec (g N D : PrimInt63.int) :
  near g N D = true ->
  Uint63.to_Z N < 2 ^ 40 -> Uint63.to_Z D < 2 ^ 22 ->
  Uint63.to_Z g <= 255 /\
  2 * Uint63.to_Z g * Uint63.to_Z D <= 2 * Uint63.to_Z N + 3 * Uint63.to_Z D /\
  2 * Uint63.to_Z N + Uint63.to_Z D < (2 * Uint63.to_Z g + 4) * Uint63.to_Z D.
Proof.
  unfold near. intros H HN HD.
  apply andb_prop in H as [H Hlt]. apply andb_prop in H as [Hg Hle].
  apply Uint63.leb_spec in Hg, Hle. apply Uint63.ltb_spec in Hlt.
  change (Uint63.to_Z i255) with 255 in Hg.
  pose proof (Uint63.to_Z_bounded g) as [Hg0 _].
  pose proof (Uint63.to_Z_bounded N) as [HN0 _].
  pose proof (Uint63.to_Z_bounded D) as [HD0 _].
  assert (E1 : Uint63.to_Z (PrimInt63.mul i2 g) = 2 * Uint63.to_Z g)
    by (rewrite mul_small; change (Uint63.to_Z i2) with 2; lia).
  assert (E2 : Uint63.to_Z (PrimInt63.mul (PrimInt63.mul i2 g) D)
               = 2 * Uint63.to_Z g * Uint63.to_Z D)
    by (rewrite mul_small; rewrite E1; [reflexivity | nia]).
  assert (E3 : Uint63.to_Z (PrimInt63.mul i2 N) = 2 * Uint63.to_Z N)
    by (rewrite mul_small; change (Uint63.to_Z i2) with 2; lia).
  assert (E4 : Uint63.to_Z (PrimInt63.mul i3 D) = 3 * Uint63.to_Z D)
    by (rewrite mul_small; change (Uint63.to_Z i3) with 3; lia).
  assert (E5 : Uint63.to_Z (PrimInt63.add (PrimInt63.mul i2 N) (PrimInt63.mul i3 D))
               = 2 * Uint63.to_Z N + 3 * Uint63.to_Z D)
    by (rewrite add_small; rewrite E3, E4; lia).
  assert (E6 : Uint63.to_Z (PrimInt63.add (PrimInt63.mul i2 N) D)
               = 2 * Uint63.to_Z N + Uint63.to_Z D)
    by (rewrite add_small; rewrite E3; lia).
  assert (E7 : Uint63.to_Z (PrimInt63.add (PrimInt63.mul i2 g) i4)
               = 2 * Uint63.to_Z g + 4)
    by (rewrite add_small; rewrite E1; change (Uint63.to_Z i4) with 4; lia).
  assert (E8 : Uint63.to_Z (PrimInt63.mul (PrimInt63.add (PrimInt63.mul i2 g) i4) D)
               = (2 * Uint63.to_Z g + 4) * Uint63.to_Z D)
    by (rewrite mul_small; rewrite E7; [reflexivity | nia]).
  rewrite E2, E5 in Hle. rewrite E6, E8 in Hlt. auto.
Qed.

(** A number that passes the check prints a channel within 1 of the
    integer nearest to [N / D]. *)
Lemma rounds_to_spec (y : PrimFloat.float) (N D : PrimInt63.int) :
  rounds_to y N D = true ->
  Uint63.to_Z N < 2 ^ 40 -> 0 < Uint63.to_Z D < 2 ^ 22 ->
  exists n,
    print (FloatOps.Prim2SF y) = two_digits n /\ 0 <= n <= 255 /\
    Z.abs (n - (2 * Uint63.to_Z N + Uint63.to_Z D) / (2 * Uint63.to_Z D)) <= 1.
Proof.
  intros H HN HD.
  assert (Hg : exists g, fits g y = true /\ near g N D = true).
  { unfold rounds_to in H. cbn zeta in H.
    match type of H with
    | (if fits ?g y then _ else _) = true =>
        destruct (fits g y) eqn:Hf; [exists g; auto|]
    end.
    apply andb_prop in H as [Hf' Hn]. eexists. split; eassumption. }
  destruct Hg as (g & Hf & Hn).
  destruct (near_spec g N D Hn HN ltac:(lia)) as (Hg & Hlo & Hhi).
  pose proof (Uint63.to_Z_bounded g) as [Hg0 _].
  exists (Uint63.to_Z g). split; [exact (print_fits g y Hf Hg)|]. split; [lia|].
  set (n := Uint63.to_Z g) in *. set (d := Uint63.to_Z D) in *.
  set (a := 2 * Uint63.to_Z N + d) in *.
  pose proof (Z.div_mod a (2 * d) ltac:(lia)) as Ha.
  pose proof (Z.mod_pos_bound a (2 * d) ltac:(lia)) as Hr.
  set (q := a / (2 * d)) in *. nia.
Qed.

(** *** The exact channels as fractions *)

Lemma chroma_fraction (sat light : Z) :
  (chroma sat light == Qmake (C4 sat light) 10000)%Q.
Proof.
  unfold chroma, C4, Qeq, Qmult, Qminus, Qplus, Qopp, Qabs. cbn [Qnum Qden].
  lia.
Qed.

Lemma tone_fraction (hue : Z) : (tone hue == Qmake (T60 hue) 60)%Q.
Proof.
  unfold tone, T60, Qeq, Qmult, Qminus, Qplus, Qopp, Qabs. cbn [Qnum Qden].
  lia.
Qed.

Lemma lift_fraction (sat light : Z) :
  (lift sat light == Qmake (M4 sat light) 20000)%Q.
Proof.
  unfold lift. rewrite chroma_fraction. unfold M4.
  unfold Qeq, Qdiv, Qmult, Qminus, Qplus, Qopp, Qinv. cbn [Qnum Qden].
  lia.
Qed.

Lemma nearest_fraction (q : Q) (N : Z) (D : positive) :
  (q == Qmake N D)%Q ->
  nearest_integer q = (2 * N + Zpos D) / (2 * Zpos D).
Proof.
  intros H. unfold nearest_integer. rewrite H.
  unfold Qplus, Qfloor. cbn [Qnum Qden].
  f_equal; lia.
Qed.

Lemma channel_fraction (C T : Z) (c t m : Q) (M : Z) :
  (c == Qmake C 10000)%Q -> (t == Qmake T 60)%Q -> (m == Qmake M 20000)%Q ->
  (255 * (c * t + m) == Qmake (510 * C * T + 15300 * M) 1200000)%Q.
Proof.
  intros -> -> ->. unfold Qeq, Qmult, Qplus. cbn [Qnum Qden]. lia.
Qed.

(** *** The hues *)

Lemma hues_ok : forallb hue_ok (zrange 0 361) = true.
Proof. vm_compute. reflexivity. Qed.

Lemma tones_table :
  tones = map (fun hue => (tone_f hue, Uint63.of_Z (T60 hue))) (zrange 0 361).
Proof. vm_compute. reflexivity. Qed.

Lemma all_checked :
  forallb (fun sat => forallb (check_pair sat) (zrange 0 101)) (zrange 0 101) = true.
Proof. vm_compute. reflexivity. Qed.

Lemma arrange_related {A B : Type} (R : A -> B -> Prop) (k : Z)
    (c x z : A) (c' x' z' : B) :
  R c c' -> R x x' -> R z z' ->
  let '(r, g, b) := arrange k c x z in
  let '(r', g', b') := arrange k c' x' z' in
  R r r' /\ R g g' /\ R b b'.
Proof.
  intros Hc Hx Hz. unfold arrange.
  destruct k as [|p|p]; [auto| |auto].
  destruct p as [[p|p|]|[[p|p|]|[p|p|]|]|]; auto.
Qed.

(** Every hsl value of the data model: [hslToHex] gives a #rrggbb string
    within 1 of the exact conversion. *)
Lemma hslToHex_round_trips (hue sat light : Z) :
  0 <= hue <= 360 -> 0 <= sat <= 100 -> 0 <= light <= 100 ->
  round_trips hue sat light
    (hslToHex {| h := of_int hue; s := of_int sat; l := of_int light |}).
Proof.
  intros Hhue Hsat Hlight.
  pose proof all_checked as Hall. rewrite forallb_forall in Hall.
  specialize (Hall sat (in_zrange 0 101 sat ltac:(lia))).
  rewrite forallb_forall in Hall.
  specialize (Hall light (in_zrange 0 101 light ltac:(lia))).
  unfold check_pair in Hall. cbn zeta in Hall.
  apply andb_prop in Hall as [Hall Hx]. apply andb_prop in Hall as [Hall H0].
  apply andb_prop in Hall as [Hall Hc].
  assert (Ha : 0 <= 510 * C4 sat light < 2 ^ 31) by lia.
  assert (Hb : 0 <= 15300 * M4 sat light < 2 ^ 31) by lia.
  clear Hall.
  set (a := 510 * C4 sat light) in *. set (b := 15300 * M4 sat light) in *.
  assert (Eai : Uint63.to_Z (Uint63.of_Z a) = a)
    by (rewrite Uint63.of_Z_spec; apply Z.mod_small; change Uint63.wB with (2 ^ 63); lia).
  assert (Ebi : Uint63.to_Z (Uint63.of_Z b) = b)
    by (rewrite Uint63.of_Z_spec; apply Z.mod_small; change Uint63.wB with (2 ^ 63); lia).
  assert (HT : 0 <= T60 hue <= 60).
  { unfold T60. pose proof (Z.mod_pos_bound hue 120 ltac:(lia)). lia. }
  assert (Eti : Uint63.to_Z (Uint63.of_Z (T60 hue)) = T60 hue)
    by (rewrite Uint63.of_Z_spec; apply Z.mod_small; change Uint63.wB with (2 ^ 63); lia).
  rewrite forallb_forall in Hx.
  specialize (Hx (tone_f hue, Uint63.of_Z (T60 hue))).
  cbn [fst snd] in Hx.
  assert (Hin : In (tone_f hue, Uint63.of_Z (T60 hue)) tones).
  { rewrite tones_table.
    apply (in_map (fun hue => (tone_f hue, Uint63.of_Z (T60 hue)))).
    apply in_zrange. lia. }
  specialize (Hx Hin).
  (* the integers of the three checks *)
  assert (ENc : Uint63.to_Z (PrimInt63.add (PrimInt63.mul (Uint63.of_Z a) i60)
                                           (Uint63.of_Z b))
                = a * 60 + b).
  { rewrite add_small; rewrite mul_small; rewrite ?Eai, ?Ebi;
      change (Uint63.to_Z i60) with 60; lia. }
  assert (ENx : Uint63.to_Z (PrimInt63.add
                               (PrimInt63.mul (Uint63.of_Z a) (Uint63.of_Z (T60 hue)))
                               (Uint63.of_Z b))
                = a * T60 hue + b).
  { rewrite add_small; rewrite mul_small; rewrite ?Eai, ?Ebi, ?Eti; nia. }
  assert (ED : Uint63.to_Z denominator = 1200000) by reflexivity.
  apply rounds_to_spec in Hc; [|rewrite ENc; lia | rewrite ED; lia].
  apply rounds_to_spec in H0; [|rewrite Ebi; lia | rewrite ED; lia].
  apply rounds_to_spec in Hx; [|rewrite ENx; nia | rewrite ED; lia].
  rewrite ENc, ED in Hc. rewrite Ebi, ED in H0. rewrite ENx, ED in Hx.
  (* the numbers of the model *)
  pose proof hues_ok as Hh. rewrite forallb_forall in Hh.
  specialize (Hh hue (in_zrange 0 361 hue ltac:(lia))).
  apply andb_prop in Hh as [Hsector Hvalid]. apply Z.eqb_eq in Hsector.
  assert (Etone : FloatOps.Prim2SF (tone_f hue) = tone_s (of_int hue))
    by (apply FloatAxioms.Prim2SF_SF2Prim; exact Hvalid).
  rewrite arg_spec, chroma_spec, lift_spec, !pf_spec in Hc by lia.
  rewrite arg_spec, lift_spec, !pf_spec in H0 by lia.
  change (FloatOps.Prim2SF f0) with (of_int 0) in H0.
  rewrite arg_spec, FloatAxioms.mul_spec, chroma_spec, lift_spec, Etone, !pf_spec
    in Hx by lia.
  change (FloatAxioms.SF64mul ?x ?y) with (mul x y) in Hx.
  (* the exact channels *)
  pose proof (chroma_fraction sat light) as QC.
  pose proof (lift_fraction sat light) as QM.
  pose proof (tone_fraction hue) as QT.
  assert (Nc : nearest_integer (255 * (chroma sat light + lift sat light))%Q
               = (2 * (a * 60 + b) + 1200000) / (2 * 1200000)).
  { apply (nearest_fraction _ (a * 60 + b) 1200000).
    rewrite QC, QM. unfold a, b, Qeq, Qmult, Qplus. cbn [Qnum Qden]. lia. }
  assert (N0 : nearest_integer (255 * (0 + lift sat light))%Q
               = (2 * b + 1200000) / (2 * 1200000)).
  { apply (nearest_fraction _ b 1200000).
    rewrite QM. unfold b, Qeq, Qmult, Qplus. cbn [Qnum Qden]. lia. }
  assert (Nx : nearest_integer
                 (255 * (chroma sat light * tone hue + lift sat light))%Q
               = (2 * (a * T60 hue + b) + 1200000) / (2 * 1200000)).
  { apply (nearest_fraction _ (a * T60 hue + b) 1200000).
    rewrite (channel_fraction _ _ _ _ _ _ QC QT QM). unfold a, b, Qeq.
    cbn [Qnum Qden]. lia. }
  rewrite <- Nc in Hc. rewrite <- N0 in H0. rewrite <- Nx in Hx.
  (* the sectors *)
  rewrite hslToHex_channels. cbn [h s l]. cbn zeta. rewrite Hsector.
  unfold round_trips, channels, rgb. cbn zeta.
  set (m := lift_s (of_int sat) (of_int light)) in *.
  destruct (Z.eqb_spec hue 360) as [->|Hne].
  - (* 360 degrees: the branch of the sixth sector, the colour of 0 degrees *)
    change ((360 mod 360) / 60) with 0. cbn [arrange].
    destruct Hc as (r & Pr & Br & Cr). destruct H0 as (g & Pg & Bg & Cg).
    destruct Hx as (bl & Pb & Bb & Cb).
    exists r, g, bl. rewrite Pr, Pg, Pb.
    split; [reflexivity|]. do 3 (split; [assumption|]).
    split; [exact Cr|]. split.
    + rewrite Nx. change (T60 360) with 0. rewrite N0 in Cg.
      replace (a * 0 + b) with b by lia. exact Cg.
    + rewrite N0. rewrite Nx in Cb. change (T60 360) with 0 in Cb.
      replace (a * 0 + b) with b in Cb by lia. exact Cb.
  - pose proof (arrange_related
      (fun (y : Number) (q : Q) =>
         exists n, print (mul (add y m) (of_int 255)) = two_digits n /\
                   0 <= n <= 255 /\
                   Z.abs (n - nearest_integer (255 * (q + lift sat light))%Q) <= 1)
      ((hue mod 360) / 60)
      (chroma_s (of_int sat) (of_int light))
      (mul (chroma_s (of_int sat) (of_int light)) (tone_s (of_int hue)))
      (of_int 0)
      (chroma sat light) (chroma sat light * tone hue)%Q 0%Q Hc Hx H0) as Hrel.
    destruct (arrange ((hue mod 360) / 60) (chroma_s (of_int sat) (of_int light)) _ _)
      as [[yr yg] yb].
    destruct (arrange ((hue mod 360) / 60) (chroma sat light) _ _) as [[qr qg] qb].
    destruct Hrel as ((r & Pr & Br & Cr) & (g & Pg & Bg & Cg) & (bl & Pb & Bb & Cb)).
    exists r, g, bl. rewrite Pr, Pg, Pb.
    split; [reflexivity|]. repeat (split; [assumption|]). assumption.
Qed.

(** The stored hex is the conversion of the stored hsl. *)
Lemma stored_hex
    (parsedData : option ParseLedger.ParsedData) (w w' : World) (r : ColorData)
    (Hrun : deriveColors parsedData w = (Returned r, w')) :
  forall c, In c (colours r) -> hex c = hslToHex (hsl c).
Proof.
  destruct (stored_hex_is_hslToHex parsedData w w' r Hrun) as (Hpal & Hprim & Hacc).
  intros c Hc. unfold colours in Hc.
  apply in_app_or in Hc as [Hc|Hc]; [|apply in_app_or in Hc as [Hc|Hc]].
  - apply in_map_iff in Hc as (sw & <- & Hin). exact (Hpal sw Hin).
  - destruct (primaryColor r) as [p|]; [|destruct Hc].
    destruct Hc as [<-|[]]. exact (Hprim p eq_refl).
  - destruct (accentColor r) as [a|]; [|destruct Hc].
    destruct Hc as [<-|[]]. exact (Hacc a eq_refl).
Qed.

(** The fields of every colour of a result under the default ranges. *)
Lemma colours_fields
    (parsedData : option ParseLedger.ParsedData) (w w' : World) (r : ColorData)
    (cfg : Config.t)
    (Hrun : deriveColors parsedData w = (Returned r, w'))
    (Hcfg : effective_config w = Some cfg)
    (Hsat : satRange_of cfg = default_saturationRange)
    (Hlight : lightRange_of cfg = default_lightnessRange) :
  forall c, In c (colours r) ->
    exists hue sat light,
      hsl c = {| h := of_int hue; s := of_int sat; l := of_int light |} /\
      0 <= hue <= 360 /\ 60 <= sat <= 90 /\ 40 <= light <= 70.
Proof.
  destruct (palette_fields parsedData w cfg Hcfg Hsat Hlight)
    as (r0 & w0 & Hrun0 & Hall).
  rewrite Hrun in Hrun0. injection Hrun0 as <- <-.
  assert (Hsw : forall sw, In sw (palette r) ->
            exists hue sat light,
              hsl (color sw) = {| h := of_int hue; s := of_int sat; l := of_int light |} /\
              0 <= hue <= 360 /\ 60 <= sat <= 90 /\ 40 <= light <= 70).
  { intros sw Hin. destruct (Hall sw Hin) as (hue & sat & light & Hh & Hs & Hl & E & _).
    exists hue, sat, light. auto. }
  destruct (loadConfig_effective w cfg Hcfg) as (st & L & _).
  rewrite (deriveColors_with_config parsedData w cfg st L) in Hrun.
  assert (Hprim : primaryColor r = hd_error (palette r)
                  /\ accentColor r = option_map accent_of (hd_error (palette r))).
  { destruct (usable_hash parsedData) as [[pd hash]|]; injection Hrun as <- _;
      split; reflexivity. }
  destruct Hprim as [Hprim Hacc]. clear Hrun.
  assert (Hhead : forall p, hd_error (palette r) = Some p -> In p (palette r)).
  { intros p Hp. destruct (palette r) as [|x rest]; [discriminate|].
    injection Hp as ->. left. reflexivity. }
  intros c Hc. unfold colours in Hc. rewrite Hprim, Hacc in Hc.
  apply in_app_or in Hc as [Hc|Hc]; [|apply in_app_or in Hc as [Hc|Hc]].
  - apply in_map_iff in Hc as (sw & <- & Hin). exact (Hsw sw Hin).
  - destruct (hd_error (palette r)) as [p|] eqn:Hp; [|destruct Hc].
    destruct Hc as [<-|[]]. exact (Hsw p (Hhead p eq_refl)).
  - destruct (hd_error (palette r)) as [p|] eqn:Hp; [|destruct Hc].
    cbn [option_map] in Hc. destruct Hc as [<-|[]].
    destruct (Hsw p (Hhead p eq_refl)) as (hue & sat & light & E & Hh & Hs & Hl).
    pose proof (Z.mod_pos_bound (hue + 180) 360 ltac:(lia)) as Hm.
    exists ((hue + 180) mod 360), sat, light.
    split; [|lia]. unfold accent_of. cbn [hsl]. rewrite E. cbn [h s l].
    rewrite accent_hue by lia. reflexivity.
Qed.

Lemma rrggbb_length (r g b : Z) : String.length (rrggbb r g b) = 7%nat.
Proof. reflexivity. Qed.

(** C9.  Under a configuration whose saturation range is given in percent,
    [60, 90], the primary colour of the README's block is stored as
    hsl(156, 8541%, 40%) with the hex "#-21a2226e734": no #rrggbb string at
    all, so it is not within 1 per channel of any conversion. *)
Lemma percent_ranges_break_the_round_trip :
  exists r w' p,
    deriveColors (Some (Scenario.parsed Scenario.readme_hash))
      (Scenario.derive_world Scenario.percent_ranges 0) = (Returned r, w') /\
    primaryColor r = Some p /\
    hsl (color p) = {| h := of_int 156; s := of_int 8541; l := of_int 40 |} /\
    hex (color p) = "#-21a2226e734" /\
    ~ round_trips 156 8541 40 (hex (color p)).
Proof.
  assert (Hrun :
    deriveColors (Some (Scenario.parsed Scenario.readme_hash))
      (Scenario.derive_world Scenario.percent_ranges 0)
    = (Returned Scenario.percent_result,
       Scenario.world_after Scenario.percent_ranges 0))
    by (vm_compute; reflexivity).
  eexists _, _, _. split; [exact Hrun|]. split; [reflexivity|].
  split; [vm_compute; reflexivity|]. split; [reflexivity|].
  intros (cr & cg & cb & E & _).
  apply (f_equal String.length) in E. rewrite rrggbb_length in E.
  vm_compute in E. discriminate.
Qed.

(** C9 (as amended).  Hex/HSL round trip: every colour produced by the
    derivation (the palette entries, the primary colour and the accent)
    whose stored hsl is within the bounds of the data model, a hue from 0
    to 360 and a saturation and a lightness from 0 to 100, has for hex a
    #rrggbb string, each channel of which is within 1 of the channel that
    the piecewise conversion by chroma and hue sector gives for the stored
    hsl, computed exactly and rounded to the nearest integer.  Under the
    default saturation and lightness ranges every derived colour is within
    these bounds, so that the round trip holds for all of them. *)
Theorem hex_matches_hsl
    (parsedData : option ParseLedger.ParsedData) (w w' : World) (r : ColorData)
    (Hrun : deriveColors parsedData w = (Returned r, w')) :
  (forall c hue sat light,
     In c (colours r) ->
     hsl c = {| h := of_int hue; s := of_int sat; l := of_int light |} ->
     0 <= hue <= 360 -> 0 <= sat <= 100 -> 0 <= light <= 100 ->
     round_trips hue sat light (hex c)) /\
  (forall cfg,
     effective_config w = Some cfg ->
     satRange_of cfg = default_saturationRange ->
     lightRange_of cfg = default_lightnessRange ->
     forall c, In c (colours r) ->
       exists hue sat light,
         hsl c = {| h := of_int hue; s := of_int sat; l := of_int light |} /\
         0 <= hue <= 360 /\ 60 <= sat <= 90 /\ 40 <= light <= 70 /\
         round_trips hue sat light (hex c)).
Proof.
  assert (Hbounded : forall c hue sat light,
            In c (colours r) ->
            hsl c = {| h := of_int hue; s := of_int sat; l := of_int light |} ->
            0 <= hue <= 360 -> 0 <= sat <= 100 -> 0 <= light <= 100 ->
            round_trips hue sat light (hex c)).
  { intros c hue sat light Hc E Hh Hs Hl.
    rewrite (stored_hex parsedData w w' r Hrun c Hc), E.
    apply hslToHex_round_trips; assumption. }
  split; [exact Hbounded|].
  intros cfg Hcfg Hsat Hlight c Hc.
  destruct (colours_fields parsedData w w' r cfg Hrun Hcfg Hsat Hlight c Hc)
    as (hue & sat & light & E & Hh & Hs & Hl).
  exists hue, sat, light. split; [exact E|]. repeat (split; [lia|]).
  apply (Hbounded c); [exact Hc | exact E | lia | lia | lia].
Qed.

Lemma hex_matches_hsl_witness :
  deriveColors (Some (Scenario.parsed Scenario.readme_hash))
    (Scenario.derive_world Scenario.default_config 0)
  = (Returned Scenario.readme_result,
     Scenario.world_after Scenario.default_config 0)
  /\ (forall c hue sat light,
        In c (colours Scenario.readme_result) ->
        hsl c = {| h := of_int hue; s := of_int sat; l := of_int light |} ->
        0 <= hue <= 360 -> 0 <= sat <= 100 -> 0 <= light <= 100 ->
        round_trips hue sat light (hex c))
  /\ (forall cfg,
        effective_config (Scenario.derive_world Scenario.default_config 0) = Some cfg ->
        satRange_of cfg = default_saturationRange ->
        lightRange_of cfg = default_lightnessRange ->
        forall c, In c (colours Scenario.readme_result) ->
          exists hue sat light,
            hsl c = {| h := of_int hue; s := of_int sat; l := of_int light |} /\
            0 <= hue <= 360 /\ 60 <= sat <= 90 /\ 40 <= light <= 70 /\
            round_trips hue sat light (hex c)).
Proof.
  assert (Hrun :
    deriveColors (Some (Scenario.parsed Scenario.readme_hash))
      (Scenario.derive_world Scenario.default_config 0)
    = (Returned Scenario.readme_result,
       Scenario.world_after Scenario.default_config 0))
    by (vm_compute; reflexivity).
  split; [exact Hrun|].
  exact (hex_matches_hsl _ _ _ _ Hrun).
Defined.

End RoundTripClaim.

(* ===================================================================== *)
(** * The configuration cache                                             *)
(* ===================================================================== *)

Section ConfigFacts.
Import JS.

(** X10.  Each module loads the configuration once: after a call of
    [loadConfig] has returned, every later call returns the same
    configuration from the cache, whatever has become of the file.  A call
    that fails caches nothing, so that the next call reads the file again. *)
Theorem loadConfig_caches (st : Config.Store) :
  match Config.loadConfig st with
  | (Returned cfg, st') =>
      forall file',
        Config.loadConfig {| Config.cache := Config.cache st'; Config.file := file' |}
        = (Returned cfg, {| Config.cache := Config.cache st'; Config.file := file' |})
  | (Thrown error, st') =>
      st' = st /\ Config.file st = Thrown error /\
      forall cfg,
        Config.loadConfig {| Config.cache := Config.cache st';
                             Config.file := Returned cfg |}
        = (Returned cfg, {| Config.cache := Some cfg; Config.file := Returned cfg |})
  end.
Proof.
  unfold Config.loadConfig.
  destruct (Config.cache st) as [cfg|] eqn:Hc.
  - intros file'. cbn. rewrite Hc. reflexivity.
  - destruct (Config.file st) as [cfg|error] eqn:Hf.
    + intros file'. reflexivity.
    + split; [reflexivity|]. split; [reflexivity|]. intros cfg. cbn. rewrite Hc. reflexivity.
Qed.

(** X19.  When nothing is cached and the configuration file cannot be
    read, every entry point of the pipeline throws the error of the read
    before doing anything else: no request is sent and no sleep made, the
    ledger is not parsed (whatever the data, null included), the clock is
    not read and no file is written. *)
Theorem nothing_happens_without_configuration
    (st : Config.Store) (error : string)
    (Hcache : Config.cache st = None)
    (Hfile : Config.file st = Thrown error) :
  (forall rc w, FetchBlockchain.store w = st ->
     exists w',
       FetchBlockchain.fetchLatestBlockHash rc w = (Thrown error, w') /\
       FetchBlockchain.requests w' = FetchBlockchain.requests w /\
       FetchBlockchain.events w' = FetchBlockchain.events w) /\
  (forall rc hash w, FetchBlockchain.store w = st ->
     exists w',
       FetchBlockchain.fetchBlockByHash rc hash w = (Thrown error, w') /\
       FetchBlockchain.requests w' = FetchBlockchain.requests w /\
       FetchBlockchain.events w' = FetchBlockchain.events w) /\
  (forall rawData, ParseLedger.parseLedger rawData st = (Thrown error, st)) /\
  (forall parsedData w, DeriveColors.store w = st ->
     exists w',
       DeriveColors.deriveColors parsedData w = (Thrown error, w') /\
       DeriveColors.clock_reads w' = DeriveColors.clock_reads w) /\
  (forall colorData options w, Publish.store w = st ->
     exists w',
       Publish.publishToFile colorData options w = (Thrown error, w') /\
       Publish.files w' = Publish.files w /\
       Publish.clock_reads w' = Publish.clock_reads w).
Proof.
  assert (L : Config.loadConfig st = (Thrown error, st)).
  { unfold Config.loadConfig. rewrite Hcache, Hfile. reflexivity. }
  split; [|split; [|split; [|split]]].
  - intros rc w Hw. unfold FetchBlockchain.fetchLatestBlockHash.
    rewrite Hw, L. eexists. repeat split.
  - intros rc hash w Hw. unfold FetchBlockchain.fetchBlockByHash.
    rewrite Hw, L. eexists. repeat split.
  - intros rawData. unfold ParseLedger.parseLedger. rewrite L. reflexivity.
  - intros parsedData w Hw. unfold DeriveColors.deriveColors.
    rewrite Hw, L. eexists. repeat split.
  - intros colorData options w Hw. unfold Publish.publishToFile.
    rewrite Hw, L. eexists. repeat split.
Qed.

Lemma nothing_happens_without_configuration_witness :
  (forall rc w, FetchBlockchain.store w = Scenario.missing_config ->
     exists w',
       FetchBlockchain.fetchLatestBlockHash rc w
       = (Thrown "ENOENT: no such file or directory, open 'config.json'", w') /\
       FetchBlockchain.requests w' = FetchBlockchain.requests w /\
       FetchBlockchain.events w' = FetchBlockchain.events w) /\
  (forall rc hash w, FetchBlockchain.store w = Scenario.missing_config ->
     exists w',
       FetchBlockchain.fetchBlockByHash rc hash w
       = (Thrown "ENOENT: no such file or directory, open 'config.json'", w') /\
       FetchBlockchain.requests w' = FetchBlockchain.requests w /\
       FetchBlockchain.events w' = FetchBlockchain.events w) /\
  (forall rawData,
     ParseLedger.parseLedger rawData Scenario.missing_config
     = (Thrown "ENOENT: no such file or directory, open 'config.json'",
        Scenario.missing_config)) /\
  (forall parsedData w, DeriveColors.store w = Scenario.missing_config ->
     exists w',
       DeriveColors.deriveColors parsedData w
       = (Thrown "ENOENT: no such file or directory, open 'config.json'", w') /\
       DeriveColors.clock_reads w' = DeriveColors.clock_reads w) /\
  (forall colorData options w, Publish.store w = Scenario.missing_config ->
     exists w',
       Publish.publishToFile colorData options w
       = (Thrown "ENOENT: no such file or directory, open 'config.json'", w') /\
       Publish.files w' = Publish.files w /\
       Publish.clock_reads w' = Publish.clock_reads w).
Proof.
  exact (nothing_happens_without_configuration Scenario.missing_config
           "ENOENT: no such file or directory, open 'config.json'"
           eq_refl eq_refl).
Defined.

End ConfigFacts.

(* ===================================================================== *)
(** * Further properties of src/fetchBlockchain.js                        *)
(* ===================================================================== *)

Section FetchMore.
Import JS FetchBlockchain.
Variable rc : RetryConfig.

Lemma pow_le_pow (m : Z) (a b : nat) :
  1 <= m -> (a <= b)%nat -> m ^ Z.of_nat a <= m ^ Z.of_nat b.
Proof. intros Hm Hab. apply Z.pow_le_mono_r; lia. Qed.

(** X12.  With an initial delay that is positive and a multiplier of at
    least 1, the backoff delay never decreases from one attempt to the next
    and never exceeds maxDelayMs.  (An initial delay of 0 is left out: the
    power overflows to Infinity for large attempts, and 0 * Infinity is
    NaN.) *)
Theorem getBackoffDelay_monotone (a b : nat)
    (Hinit : 0 < initialDelayMs rc) (Hmult : 1 <= backoffMultiplier rc)
    (Hab : (a <= b)%nat) :
  getBackoffDelay rc a <= getBackoffDelay rc b <= maxDelayMs rc.
Proof.
  unfold getBackoffDelay. cbn zeta.
  pose proof (pow_le_pow (backoffMultiplier rc) a b Hmult Hab) as Hp.
  assert (initialDelayMs rc * backoffMultiplier rc ^ Z.of_nat a
          <= initialDelayMs rc * backoffMultiplier rc ^ Z.of_nat b) by nia.
  lia.
Qed.

(** [fetchWithRetry] returns the first answer that is not retryable, or
    the last answer its budget allows. *)
Lemma fetchWithRetry_answer url :
  forall budget attempt w,
    (maxRetries rc - attempt = budget)%nat ->
    exists n,
      (n <= budget)%nat /\
      fst (fetchWithRetry rc url attempt w) = network w (requests w + n)%nat /\
      requests (snd (fetchWithRetry rc url attempt w)) = (requests w + S n)%nat /\
      (forall k, (k < n)%nat -> retryable (network w (requests w + k)%nat) = true) /\
      ((n < budget)%nat -> retryable (network w (requests w + n)%nat) = false).
Proof.
  induction budget as [|budget IH]; intros attempt w Hb;
    rewrite fetchWithRetry_eq; unfold fetch.
  - assert (Hlt : (attempt <? maxRetries rc)%nat = false) by (apply Nat.ltb_ge; lia).
    exists 0%nat. rewrite Nat.add_0_r.
    destruct (network w (requests w)) as [response|error];
      rewrite Hlt, ?andb_false_r; cbn [fst snd requests];
      (split; [lia|]); (split; [reflexivity|]); (split; [lia|]); split; intros; lia.
  - assert (Hlt : (attempt <? maxRetries rc)%nat = true) by (apply Nat.ltb_lt; lia).
    set (w1 := {| store := store w; network := network w;
                  requests := S (requests w);
                  events := (events w ++ [Fetch url])%list |}).
    destruct (IH (S attempt) (sleep (getBackoffDelay rc attempt) w1) ltac:(lia))
      as (n & Hn & Hres & Hreq & Hbefore & Hlast).
    cbn [sleep requests network w1] in Hres, Hreq, Hbefore, Hlast.
    assert (Hretry :
      retryable (network w (requests w)) = true ->
      exists n0,
        (n0 <= S budget)%nat /\
        fst (fetchWithRetry rc url (S attempt) (sleep (getBackoffDelay rc attempt) w1))
        = network w (requests w + n0)%nat /\
        requests (snd (fetchWithRetry rc url (S attempt)
                         (sleep (getBackoffDelay rc attempt) w1)))
        = (requests w + S n0)%nat /\
        (forall k, (k < n0)%nat -> retryable (network w (requests w + k)%nat) = true) /\
        ((n0 < S budget)%nat -> retryable (network w (requests w + n0)%nat) = false)).
    { intros Hfirst. exists (S n). split; [lia|].
      replace (requests w + S n)%nat with (S (requests w) + n)%nat by lia.
      split; [exact Hres|]. split; [rewrite Hreq; lia|]. split.
      - intros [|k] Hk; [rewrite Nat.add_0_r; exact Hfirst|].
        replace (requests w + S k)%nat with (S (requests w) + k)%nat by lia.
        apply Hbefore. lia.
      - intros Hlt'. apply Hlast. lia. }
    destruct (network w (requests w)) as [response|error] eqn:E;
      rewrite Hlt, ?andb_true_r.
    + destruct (500 <=? status response) eqn:Es.
      * apply Hretry. cbn. exact Es.
      * exists 0%nat. rewrite Nat.add_0_r, E. unfold w1. cbn [fst snd requests retryable].
        split; [lia|]. split; [reflexivity|]. split; [lia|].
        split; [intros; lia | intros; exact Es].
    + apply Hretry. reflexivity.
Qed.

(** X13.  Whatever the network does, [fetchWithRetry] makes n + 1
    requests for some n of at most maxRetries - attempt, and what it returns
    or throws is the answer to the last of them: the n answers before it
    were network failures or of status 500 and more, and the last one is the
    first answer that is neither, unless the retries are used up. *)
Theorem fetchWithRetry_returns_first_final_answer
    (url : string) (attempt : nat) (w : World) :
  let budget := (maxRetries rc - attempt)%nat in
  exists n,
    (n <= budget)%nat /\
    fst (fetchWithRetry rc url attempt w) = network w (requests w + n)%nat /\
    requests (snd (fetchWithRetry rc url attempt w)) = (requests w + S n)%nat /\
    (forall k, (k < n)%nat -> retryable (network w (requests w + k)%nat) = true) /\
    ((n < budget)%nat -> retryable (network w (requests w + n)%nat) = false).
Proof. intros budget. apply fetchWithRetry_answer. reflexivity. Qed.


Lemma try_block_requests url attempt w :
  (requests w + 1 <= requests (snd (try_block rc url attempt w))
   <= requests w + S (maxRetries rc))%nat.
Proof.
  destruct (fetchWithRetry_answer url (maxRetries rc) 0 w ltac:(lia))
    as (n & Hn & _ & Hreq & _).
  unfold try_block.
  destruct (fetchWithRetry rc url 0 w) as [[response|error] w1];
    cbn [snd] in Hreq |- *; [|lia].
  destruct (negb (ok response)).
  - destruct ((500 <=? status response) && (attempt <? maxRetries rc)%nat);
      cbn [snd sleep requests]; lia.
  - destruct (body response) as [data|error]; [|cbn [snd]; lia].
    destruct (extract_hash data); cbn [snd]; lia.
Qed.

Lemma attempt_loop_requests url :
  forall budget attempt lastError w,
    (S (maxRetries rc) - attempt = budget)%nat ->
    (requests w + Nat.min 1 budget
     <= requests (snd (attempt_loop rc url attempt lastError w))
     <= requests w + budget * S (maxRetries rc))%nat.
Proof.
  induction budget as [|budget IH]; intros attempt lastError w Hb;
    rewrite attempt_loop_eq.
  - replace (attempt <=? maxRetries rc)%nat with false
      by (symmetry; apply Nat.leb_gt; lia).
    cbn [snd]. lia.
  - replace (attempt <=? maxRetries rc)%nat with true
      by (symmetry; apply Nat.leb_le; lia).
    pose proof (try_block_requests url attempt w) as Ht.
    destruct (try_block rc url attempt w) as [[hash| |error] w1]; cbn [snd] in Ht |- *.
    + lia.
    + specialize (IH (S attempt) lastError w1 ltac:(lia)). nia.
    + match goal with
      | |- context [attempt_loop rc url (S attempt) ?le ?w2] =>
          specialize (IH (S attempt) le w2 ltac:(lia));
          assert (He : requests w2 = requests w1)
            by (destruct (attempt <? maxRetries rc)%nat; reflexivity)
      end.
      rewrite He in IH. nia.
Qed.

(** X14.  Once the configuration is loaded, [fetchLatestBlockHash] makes
    at least one request and at most (maxRetries + 1) * (maxRetries + 1),
    whatever the network does. *)
Theorem fetchLatestBlockHash_request_bounds
    (w : World) (cfg : Config.t) (st : Config.Store)
    (Hcfg : Config.loadConfig (store w) = (Returned cfg, st)) :
  (requests w + 1 <= requests (snd (fetchLatestBlockHash rc w))
   <= requests w + (maxRetries rc + 1) * (maxRetries rc + 1))%nat.
Proof.
  unfold fetchLatestBlockHash. rewrite Hcfg.
  match goal with
  | |- context [attempt_loop rc ?url 0 None ?w0] =>
      pose proof (attempt_loop_requests url (S (maxRetries rc)) 0 None w0 eq_refl) as H
  end.
  cbn [with_store requests] in H. cbn [Nat.min] in H. lia.
Qed.

(** X15.  When the first answer is a response with a status from 200 to
    299 whose body parses and holds no failing property read,
    [fetchLatestBlockHash] returns what the formats give after that single
    request, without any sleep.  What it returns is null, and not an error,
    when the body is an empty list. *)
Theorem fetchLatestBlockHash_first_answer
    (w : World) (cfg : Config.t) (st : Config.Store)
    (response : Response) (data hash : Value)
    (Hcfg : Config.loadConfig (store w) = (Returned cfg, st))
    (Hfirst : network w (requests w) = Returned response)
    (Hok : ok response = true)
    (Hbody : body response = Returned data)
    (Hhash : extract_hash data = Returned hash) :
  let url := Config.rpcUrl (Config.blockchain cfg)
             ++ Config.latestBlockEndpoint (Config.blockchain cfg) in
  exists w',
    fetchLatestBlockHash rc w = (Returned hash, w') /\
    requests w' = S (requests w) /\
    events w' = (events w ++ [Fetch url])%list /\
    (data = Array [] -> hash = Null).
Proof.
  intros url. unfold fetchLatestBlockHash. rewrite Hcfg. fold url.
  rewrite attempt_loop_eq. cbn [Nat.leb]. unfold try_block.
  assert (Hs : status response < 500).
  { unfold ok in Hok. apply andb_prop in Hok as [_ Hok]. apply Z.leb_le in Hok. lia. }
  rewrite (fetchWithRetry_no_server_error rc url 0 (with_store st w) response Hfirst Hs).
  rewrite Hok, Hbody, Hhash. cbn [negb].
  eexists. split; [reflexivity|]. split; [reflexivity|]. split; [reflexivity|].
  intros ->. cbn in Hhash. congruence.
Qed.

(** What [fetchBlockByHash] and [fetchNetworkInfo] do with the answer of
    [fetchWithRetry]. *)
Lemma single_fetch_spec url w :
  exists v,
    match fetchWithRetry rc url 0 w with
    | (Thrown _, w1) => (Returned Null, w1)
    | (Returned response, w1) =>
        if negb (ok response) then (Returned Null, w1)
        else
          match body response with
          | Returned data => (Returned data, w1)
          | Thrown _ => (Returned Null, w1)
          end
    end = (Returned v, snd (fetchWithRetry rc url 0 w)) /\
    (requests w + 1 <= requests (snd (fetchWithRetry rc url 0 w))
     <= requests w + maxRetries rc + 1)%nat /\
    (v <> Null ->
     exists response,
       network w (requests (snd (fetchWithRetry rc url 0 w)) - 1)%nat = Returned response /\
       ok response = true /\ body response = Returned v).
Proof.
  destruct (fetchWithRetry_answer url (maxRetries rc) 0 w ltac:(lia))
    as (n & Hn & Hres & Hreq & _).
  destruct (fetchWithRetry rc url 0 w) as [[response|error] w1];
    cbn [fst snd] in *.
  - assert (Hlast : network w (requests w1 - 1)%nat = Returned response).
    { rewrite Hreq. replace (requests w + S n - 1)%nat with (requests w + n)%nat by lia.
      symmetry. exact Hres. }
    destruct (ok response) eqn:Hok; cbn [negb].
    + destruct (body response) as [data|e] eqn:Hb.
      * exists data. split; [reflexivity|]. split; [lia|].
        intros _. exists response. auto.
      * exists Null. split; [reflexivity|]. split; [lia|]. intros H. contradiction.
    + exists Null. split; [reflexivity|]. split; [lia|]. intros H. contradiction.
  - exists Null. split; [reflexivity|]. split; [lia|]. intros H. contradiction.
Qed.

(** X16.  Once the configuration is loaded, [fetchBlockByHash] and
    [fetchNetworkInfo] never throw: each makes between one and
    maxRetries + 1 requests and returns a value; a value other than null is
    the parsed body of the last response, whose status is from 200 to
    299. *)
Theorem fetchBlockByHash_never_throws
    (hash : string) (w : World) (cfg : Config.t) (st : Config.Store)
    (Hcfg : Config.loadConfig (store w) = (Returned cfg, st)) :
  (exists v w',
     fetchBlockByHash rc hash w = (Returned v, w') /\
     (requests w + 1 <= requests w' <= requests w + maxRetries rc + 1)%nat /\
     (v <> Null ->
      exists response,
        network w (requests w' - 1)%nat = Returned response /\
        ok response = true /\ body response = Returned v)) /\
  (exists v w',
     fetchNetworkInfo rc w = (Returned v, w') /\
     (requests w + 1 <= requests w' <= requests w + maxRetries rc + 1)%nat /\
     (v <> Null ->
      exists response,
        network w (requests w' - 1)%nat = Returned response /\
        ok response = true /\ body response = Returned v)).
Proof.
  unfold fetchBlockByHash, fetchNetworkInfo. rewrite Hcfg. split.
  - destruct (single_fetch_spec
                (Config.rpcUrl (Config.blockchain cfg) ++ "/block/" ++ hash)
                (with_store st w)) as (v & -> & Hreq & Hv).
    eexists _, _. split; [reflexivity|]. split; [exact Hreq | exact Hv].
  - destruct (single_fetch_spec
                (Config.rpcUrl (Config.blockchain cfg) ++ "/network")
                (with_store st w)) as (v & -> & Hreq & Hv).
    eexists _, _. split; [reflexivity|]. split; [exact Hreq | exact Hv].
Qed.

End FetchMore.

Section FetchMoreWitnesses.
Import JS FetchBlockchain.

Lemma getBackoffDelay_monotone_witness :
  getBackoffDelay RETRY_CONFIG 1 <= getBackoffDelay RETRY_CONFIG 2
  <= maxDelayMs RETRY_CONFIG.
Proof.
  apply (getBackoffDelay_monotone RETRY_CONFIG 1 2); cbn; lia.
Defined.

Lemma fetchLatestBlockHash_request_bounds_witness :
  (requests Scenario.always_503 + 1
   <= requests (snd (fetchLatestBlockHash RETRY_CONFIG Scenario.always_503))
   <= requests Scenario.always_503
      + (maxRetries RETRY_CONFIG + 1) * (maxRetries RETRY_CONFIG + 1))%nat.
Proof.
  exact (fetchLatestBlockHash_request_bounds RETRY_CONFIG Scenario.always_503
           Scenario.default_config Scenario.loaded_store eq_refl).
Defined.

Lemma fetchLatestBlockHash_first_answer_witness :
  exists w',
    fetchLatestBlockHash RETRY_CONFIG Scenario.empty_list = (Returned Null, w') /\
    requests w' = 1%nat /\
    events w' = [Fetch Scenario.blocks_url] /\
    (Array [] = Array [] -> Null = Null).
Proof.
  exact (fetchLatestBlockHash_first_answer RETRY_CONFIG Scenario.empty_list
           Scenario.default_config Scenario.loaded_store
           {| status := 200; statusText := "OK"; body := Returned (Array []) |}
           (Array []) Null eq_refl eq_refl eq_refl eq_refl eq_refl).
Defined.

Lemma fetchBlockByHash_never_throws_witness :
  (exists v w',
     fetchBlockByHash RETRY_CONFIG "00aabb" Scenario.always_404 = (Returned v, w') /\
     (requests Scenario.always_404 + 1 <= requests w'
      <= requests Scenario.always_404 + maxRetries RETRY_CONFIG + 1)%nat /\
     (v <> Null ->
      exists response,
        network Scenario.always_404 (requests w' - 1)%nat = Returned response /\
        ok response = true /\ body response = Returned v)) /\
  (exists v w',
     fetchNetworkInfo RETRY_CONFIG Scenario.always_404 = (Returned v, w') /\
     (requests Scenario.always_404 + 1 <= requests w'
      <= requests Scenario.always_404 + maxRetries RETRY_CONFIG + 1)%nat /\
     (v <> Null ->
      exists response,
        network Scenario.always_404 (requests w' - 1)%nat = Returned response /\
        ok response = true /\ body response = Returned v)).
Proof.
  exact (fetchBlockByHash_never_throws RETRY_CONFIG "00aabb" Scenario.always_404
           Scenario.default_config Scenario.loaded_store eq_refl).
Defined.

End FetchMoreWitnesses.

(* ===================================================================== *)
(** * Further properties of src/publish.js                                *)
(* ===================================================================== *)

Section PublishFacts.
Import JS Publish.

(** One write block adds at most one file, the one it reports. *)
Lemma write_format_files flag kind label path
    (generate : World -> string * World) (results : PublishResult) (w : World) :
  (forall w0, files (snd (generate w0)) = files w0) ->
  exists new,
    files (snd (write_format flag kind label path generate results w))
    = (files w ++ new)%list /\
    outputs (fst (write_format flag kind label path generate results w))
    = (outputs results ++ map (fun f => {| type := kind; path := fst f |}) new)%list /\
    (List.length new <= 1)%nat /\
    Forall (fun f => f = (path, fst (generate w))) new.
Proof.
  intros Hgen. unfold write_format. destruct (enabled flag).
  - specialize (Hgen w). destruct (generate w) as [content w1]. cbn [snd fst] in *.
    unfold writeFile. destruct (write_error w1 path) as [err|]; cbn [fst snd].
    + exists []. cbn. rewrite !app_nil_r. auto.
    + exists [(path, content)]. cbn [files update outputs map fst].
      rewrite Hgen. repeat split; [cbn; lia|].
      constructor; [reflexivity | constructor].
  - exists []. cbn. rewrite !app_nil_r. auto.
Qed.

(** The files a call of [publishToFile] writes. *)
Lemma publishToFile_files
    (colorData : DeriveColors.ColorData) (options : Options) (w : World) :
  match publishToFile colorData options w with
  | (Returned r, w') =>
      exists new,
        files w' = (files w ++ new)%list /\
        map fst new = map path (outputs r) /\
        (List.length new <= 3)%nat
  | (Thrown _, w') => files w' = files w
  end.
Proof.
  unfold publishToFile.
  destruct (Config.loadConfig (store w)) as [[cfg|e] st]; [|reflexivity].
  cbn zeta.
  destruct (has_window (with_store st w)).
  { exists []. rewrite app_nil_r. repeat split. cbn. lia. }
  destruct (mkdir _ _); [reflexivity|].
  set (w0 := with_store st w) in *.
  set (dir := resolve_outputDir options cfg) in *.
  set (r0 := {| success := true; outputs := []; errors := [] |}) in *.
  destruct (write_format_files (opt_css options) "css" "CSS"
              (path_join w0 [baseDir w0; dir; "colors.css"])
              (generateCssVariables colorData) r0 w0 ltac:(reflexivity))
    as (n1 & F1 & O1 & L1 & A1).
  destruct (write_format (opt_css options) "css" "CSS" _ _ r0 w0) as [r1 w1].
  destruct (write_format_files (opt_json options) "json" "JSON"
              (path_join w1 [baseDir w1; dir; "colors.json"])
              (generateJsonOutput colorData) r1 w1 ltac:(reflexivity))
    as (n2 & F2 & O2 & L2 & A2).
  destruct (write_format (opt_json options) "json" "JSON" _ _ r1 w1) as [r2 w2].
  destruct (write_format_files (opt_html options) "html" "HTML"
              (path_join w2 [baseDir w2; dir; "colors-preview.html"])
              (fun w => (generateHtmlPreview colorData, w)) r2 w2 ltac:(reflexivity))
    as (n3 & F3 & O3 & L3 & A3).
  destruct (write_format (opt_html options) "html" "HTML" _ _ r2 w2) as [r3 w3].
  cbn [fst snd] in *.
  exists (n1 ++ n2 ++ n3)%list.
  rewrite F3, F2, F1, O3, O2, O1. cbn [outputs r0 app files w0 with_store update].
  rewrite <- !app_assoc. split; [reflexivity|]. split.
  - rewrite !map_app, !map_map. cbn [path]. reflexivity.
  - rewrite !length_app. lia.
Qed.

(** X17.  What [publishToFile] reports is what it wrote: when it returns,
    the files written by the call are, in order, those of the paths of
    [outputs], at most three, after the files that were there; when it
    throws, it has written nothing. *)
Theorem published_files_match_outputs
    (colorData : DeriveColors.ColorData) (options : Options) (w : World) :
  match publishToFile colorData options w with
  | (Returned r, w') =>
      exists new,
        files w' = (files w ++ new)%list /\
        map fst new = map path (outputs r) /\
        (List.length new <= 3)%nat
  | (Thrown _, w') => files w' = files w
  end.
Proof. exact (publishToFile_files colorData options w). Qed.

(** [publish] outside Node.js. *)
Lemma publish_as_text
    (colorData : DeriveColors.ColorData) (options : Options) (w : World)
    (Hbrowser : in_node w = false) :
  exists text w',
    publish colorData options w = (Returned (Text text), w') /\
    files w' = files w /\ store w' = store w /\
    (forall name, format options = Some name ->
       name <> "" -> name <> "css" -> name <> "json" -> name <> "html" ->
       text = "" /\ w' = w) /\
    (format options = None -> text = fst (generateCssVariables colorData w)).
Proof.
  unfold publish. unfold in_node in Hbrowser. rewrite Hbrowser.
  destruct (publishForBrowser colorData (string_or "css" (format options)) w)
    as [text w'] eqn:E.
  exists text, w'. split; [reflexivity|].
  unfold publishForBrowser in E.
  assert (Hfiles : files w' = files w /\ store w' = store w).
  { destruct (String.eqb _ "css"); [injection E as <- <-; split; reflexivity|].
    destruct (String.eqb _ "json"); [injection E as <- <-; split; reflexivity|].
    destruct (String.eqb _ "html"); injection E as <- <-; split; reflexivity. }
  destruct Hfiles as [Hf Hs]. split; [exact Hf|]. split; [exact Hs|]. split.
  - intros name Hname Hne Hcss Hjson Hhtml. rewrite Hname in E.
    unfold string_or in E.
    assert (truthy_string name = true) as Ht by (destruct name; [contradiction | reflexivity]).
    rewrite Ht in E.
    apply String.eqb_neq in Hcss, Hjson, Hhtml. rewrite Hcss, Hjson, Hhtml in E.
    injection E as <- <-. split; reflexivity.
  - intros Hnone. rewrite Hnone in E.
    change (generateCssVariables colorData w = (text, w')) in E.
    rewrite E. reflexivity.
Qed.

(** X18.  Outside Node.js [publish] returns text and never throws: it
    loads no configuration and writes no file, an option [format] that is
    none of css, json and html gives the empty string without reading the
    clock, and a missing [format] gives the CSS variables. *)
Theorem publish_outside_node
    (colorData : DeriveColors.ColorData) (options : Options) (w : World)
    (Hbrowser : in_node w = false) :
  exists text w',
    publish colorData options w = (Returned (Text text), w') /\
    files w' = files w /\ store w' = store w /\
    (forall name, format options = Some name ->
       name <> "" -> name <> "css" -> name <> "json" -> name <> "html" ->
       text = "" /\ w' = w) /\
    (format options = None -> text = fst (generateCssVariables colorData w)).
Proof. exact (publish_as_text colorData options w Hbrowser). Qed.


Lemma publish_outside_node_witness :
  exists text w',
    publish Scenario.readme_result default_options Scenario.browser_world
    = (Returned (Text text), w') /\
    files w' = files Scenario.browser_world /\
    store w' = store Scenario.browser_world /\
    (forall name, format default_options = Some name ->
       name <> "" -> name <> "css" -> name <> "json" -> name <> "html" ->
       text = "" /\ w' = Scenario.browser_world) /\
    (format default_options = None ->
     text = fst (generateCssVariables Scenario.readme_result Scenario.browser_world)).
Proof.
  exact (publish_outside_node Scenario.readme_result default_options
           Scenario.browser_world eq_refl).
Defined.

End PublishFacts.

(* ===================================================================== *)
(** * Properties of src/cron_runner.js                                    *)
(* ===================================================================== *)

Section CronFacts.
Import JS CronRunner.

Lemma parse_fetched_usable rawHash st pd st' :
  parse_fetched rawHash st = (Returned pd, st') ->
  DeriveColors.no_hash (Some pd) = false ->
  exists s,
    rawHash = Str s /\ ParseLedger.hex_regex_test s = true /\
    ParseLedger.parsed_hash pd = Some (toLowerCase s).
Proof.
  intros Hparse Hhash.
  assert (Hempty : forall pd0,
            ParseLedger.parsed_hash pd0 = Some "" ->
            DeriveColors.no_hash (Some pd0) = true).
  { intros pd0 H0. unfold DeriveColors.no_hash, DeriveColors.usable_hash.
    rewrite H0. reflexivity. }
  assert (Hother :
    match Config.loadConfig st with
    | (Thrown error, st1) => (Thrown error, st1)
    | (Returned cfg, st1) =>
        let without_hash :=
          {| ParseLedger.parsed_hash := Some "";
             ParseLedger.parsed_hashes := [];
             ParseLedger.parsed_metadata :=
               ParseLedger.BlockMetadata None None 0 None;
             ParseLedger.parsed_algorithm :=
               Some (ParseLedger.default_algorithm cfg) |} in
        if negb (truthy rawHash) then (Returned without_hash, st1)
        else
          match to_string rawHash with
          | Thrown error => (Thrown error, st1)
          | Returned text =>
              if ParseLedger.hex_regex_test text
              then (Thrown "hash.substring is not a function", st1)
              else (Returned without_hash, st1)
          end
    end = (Returned pd, st') -> False).
  { destruct (Config.loadConfig st) as [[cfg|e] st1]; [|discriminate].
    cbn zeta. destruct (negb (truthy rawHash)).
    { intros [= <- _]. rewrite Hempty in Hhash by reflexivity. discriminate. }
    destruct (to_string rawHash) as [text|e]; [|discriminate].
    destruct (ParseLedger.hex_regex_test text); [discriminate|].
    intros [= <- _]. rewrite Hempty in Hhash by reflexivity. discriminate. }
  destruct rawHash as [| |b|x|s|items|fields]; cbn [parse_fetched] in Hparse;
    try (exfalso; exact (Hother Hparse)).
  exists s. split; [reflexivity|].
  assert (Hp : ParseLedger.parseBlockHash (ParseLedger.RawObject (hash_only s))
               = if ParseLedger.hex_regex_test s then Some s else None).
  { unfold ParseLedger.parseBlockHash.
    cbn [ParseLedger.truthy_block negb hash_only ParseLedger.hash ParseLedger.id
         ParseLedger.truthy_field].
    destruct s as [|c s]; [reflexivity|]. cbn [truthy_string andb]. reflexivity. }
  unfold ParseLedger.parseLedger in Hparse.
  destruct (Config.loadConfig st) as [[cfg|e] st1]; [|discriminate].
  cbn [ParseLedger.truthy_block negb] in Hparse. rewrite Hp in Hparse.
  destruct (ParseLedger.hex_regex_test s) eqn:Hx.
  - split; [reflexivity|]. injection Hparse as <- _.
    cbn [ParseLedger.parsed_hash]. f_equal.
    exact (proj1 (normalizeHash_of_hex s Hx)).
  - injection Hparse as <- _. rewrite Hempty in Hhash by reflexivity. discriminate.
Qed.


Lemma effective_of_loadConfig (dw : DeriveColors.World) cfg st :
  Config.loadConfig (DeriveColors.store dw) = (Returned cfg, st) ->
  DeriveColors.effective_config dw = Some cfg.
Proof.
  unfold Config.loadConfig, DeriveColors.effective_config.
  destruct (Config.cache (DeriveColors.store dw)) as [c|].
  - intros [= -> _]. reflexivity.
  - destruct (Config.file (DeriveColors.store dw)) as [c|e]; [|discriminate].
    intros [= -> _]. reflexivity.
Qed.

(** A write block whose flag is not set and after which [success] holds
    has reported its file. *)
Lemma write_format_succeeds kind label path
    (generate : Publish.World -> string * Publish.World)
    (results : Publish.PublishResult) (w : Publish.World) :
  Publish.success (fst (Publish.write_format None kind label path generate results w))
  = true ->
  Publish.success results = true /\
  Publish.outputs (fst (Publish.write_format None kind label path generate results w))
  = (Publish.outputs results ++ [{| Publish.type := kind; Publish.path := path |}])%list.
Proof.
  unfold Publish.write_format. cbn [Publish.enabled].
  destruct (generate w) as [content w1]. unfold Publish.writeFile.
  destruct (Publish.write_error w1 path); cbn [fst Publish.success Publish.outputs];
    [discriminate | auto].
Qed.

(** In Node.js a report of success lists the three files. *)
Lemma publish_success dir colorData (pw pw' : Publish.World) r :
  Publish.publish colorData (publish_options dir) pw = (Returned (Publish.Report r), pw') ->
  Publish.success r = true ->
  map Publish.type (Publish.outputs r) = ["css"; "json"; "html"] /\
  exists new,
    Publish.files pw' = (Publish.files pw ++ new)%list /\
    map fst new = map Publish.path (Publish.outputs r).
Proof.
  unfold Publish.publish.
  destruct (negb (Publish.has_window pw) && Publish.has_process pw);
    [|destruct (Publish.publishForBrowser _ _ _); discriminate].
  pose proof (publishToFile_files colorData (publish_options dir) pw) as Hfiles.
  destruct (Publish.publishToFile colorData (publish_options dir) pw)
    as [[r0|e] pw0] eqn:Hrun; [|discriminate].
  intros [= -> ->] Hs.
  split; [|destruct Hfiles as (new & Hf & Hm & _); exists new; split; assumption].
  unfold Publish.publishToFile in Hrun.
  destruct (Config.loadConfig (Publish.store pw)) as [[cfg|e] st]; [|discriminate].
  cbn zeta in Hrun.
  destruct (Publish.has_window (Publish.with_store st pw)).
  { injection Hrun as <- _. discriminate Hs. }
  destruct (Publish.mkdir _ _); [discriminate|].
  cbn [publish_options Publish.opt_css Publish.opt_json Publish.opt_html] in Hrun.
  match type of Hrun with
  | context [Publish.write_format None "css" "CSS" ?p ?g ?r0 ?w0] =>
      pose proof (write_format_succeeds "css" "CSS" p g r0 w0) as H1;
      destruct (Publish.write_format None "css" "CSS" p g r0 w0) as [r1 w1]
  end.
  match type of Hrun with
  | context [Publish.write_format None "json" "JSON" ?p ?g r1 w1] =>
      pose proof (write_format_succeeds "json" "JSON" p g r1 w1) as H2;
      destruct (Publish.write_format None "json" "JSON" p g r1 w1) as [r2 w2]
  end.
  match type of Hrun with
  | context [Publish.write_format None "html" "HTML" ?p ?g r2 w2] =>
      pose proof (write_format_succeeds "html" "HTML" p g r2 w2) as H3;
      destruct (Publish.write_format None "html" "HTML" p g r2 w2) as [r3 w3]
  end.
  injection Hrun as -> _. cbn [fst] in *.
  destruct (H3 Hs) as [S2 O3]. destruct (H2 S2) as [S1 O2]. destruct (H1 S1) as [_ O1].
  rewrite O3, O2, O1. cbn [Publish.outputs app map Publish.type]. reflexivity.
Qed.

Lemma first_complete (n : nat) :
  (0 < n)%nat ->
  exists rest, filter DeriveColors.complete_window (seq 0 n) = 0%nat :: rest.
Proof.
  destruct n as [|n]; [lia|]. intros _. cbn [seq filter].
  change (DeriveColors.complete_window 0) with true. eexists. reflexivity.
Qed.

(** What holds when the [try] block of [runPipeline] reaches its
    [return]. *)
Lemma try_block_returns dir w steps w1 :
  try_block dir w = (Returned steps, w1) ->
  exists s cfg,
    rawHash steps = Str s /\ ParseLedger.hex_regex_test s = true /\
    DeriveColors.effective_config (deriving w) = Some cfg /\
    DeriveColors.palette (colorData steps)
    = map (DeriveColors.swatch_at (toLowerCase s) cfg)
          (filter DeriveColors.complete_window
                  (seq 0 (Z.to_nat (DeriveColors.paletteSize_of cfg)))) /\
    DeriveColors.palette (colorData steps) <> [] /\
    DeriveColors.primaryColor (colorData steps)
    = hd_error (DeriveColors.palette (colorData steps)) /\
    DeriveColors.accentColor (colorData steps)
    = option_map DeriveColors.accent_of
        (hd_error (DeriveColors.palette (colorData steps))) /\
    map Publish.type (Publish.outputs (publishResult steps)) = ["css"; "json"; "html"] /\
    time w1 = time w /\ time_reads w1 = time_reads w /\
    exists new,
      Publish.files (publishing w1) = (Publish.files (publishing w) ++ new)%list /\
      map fst new = map Publish.path (Publish.outputs (publishResult steps)).
Proof.
  unfold try_block.
  destruct (FetchBlockchain.fetchLatestBlockHash _ _) as [[raw|e] fw]; [|discriminate].
  cbn zeta. destruct (truthy raw); cbn [negb]; [|discriminate].
  unfold with_fetching, with_parsing, with_deriving, with_publishing.
  cbn [fetching parsing deriving publishing time time_reads].
  destruct (to_string raw) as [shown|e]; [|discriminate].
  destruct (parse_fetched raw (parsing w)) as [[pd|e] st] eqn:Hparse; [|discriminate].
  destruct (DeriveColors.no_hash (Some pd)) eqn:Hhash; [discriminate|].
  destruct (parse_fetched_usable raw _ pd st Hparse Hhash) as (s & -> & Hhex & Hpd).
  destruct (Config.loadConfig (DeriveColors.store (deriving w))) as [[cfg|e] cst] eqn:L.
  2:{ unfold DeriveColors.deriveColors. rewrite L. discriminate. }
  rewrite (deriveColors_with_config (Some pd) (deriving w) cfg cst L).
  assert (Hu : DeriveColors.usable_hash (Some pd) = Some (pd, toLowerCase s)).
  { unfold DeriveColors.no_hash in Hhash. unfold DeriveColors.usable_hash in *.
    rewrite Hpd in *. destruct (truthy_string (toLowerCase s)); [reflexivity | discriminate]. }
  rewrite Hu. cbn zeta.
  set (pal := map (DeriveColors.swatch_at (toLowerCase s) cfg)
                  (filter DeriveColors.complete_window
                          (seq 0 (Z.to_nat (DeriveColors.paletteSize_of cfg))))).
  cbn [DeriveColors.palette].
  destruct pal as [|sw0 pal'] eqn:Hpal; [discriminate|].
  match goal with
  | |- context [Publish.publish ?cd (publish_options dir) (publishing w)] =>
      pose proof (publish_success dir cd (publishing w)) as Hpub;
      destruct (Publish.publish cd (publish_options dir) (publishing w))
        as [[[r|t]|e] pw] eqn:Hp; try discriminate
  end.
  destruct (Publish.success r) eqn:Hs; cbn [negb]; [|discriminate].
  intros [= <- <-]. cbn [rawHash colorData publishResult with_publishing publishing
                          time time_reads DeriveColors.palette
                          DeriveColors.primaryColor DeriveColors.accentColor].
  destruct (Hpub pw r eq_refl Hs) as [Ht Hf].
  exists s, cfg. split; [reflexivity|]. split; [exact Hhex|].
  split; [exact (effective_of_loadConfig _ _ _ L)|].
  split; [symmetry; exact Hpal|]. split; [discriminate|].
  split; [reflexivity|]. split; [reflexivity|].
  split; [exact Ht|]. split; [reflexivity|]. split; [reflexivity|]. exact Hf.
Qed.


(** X20.  A run of the cron pipeline that reports success has fetched a
    string of hexadecimal digits, which it reports as fetched.  The
    palette it reports holds the hex colours of the swatches derived from
    the lowercase form of that string under the configuration of the
    derivation module, so that the case of the fetched hash does not
    matter; the primary colour is the first of them and the accent its
    complement.  The css, json and html files were written, in that order,
    and they are the outputs reported. *)
Theorem runPipeline_success
    (dir : string) (w w' : World) (hash : Value) (primary accent : option string)
    (palette : list string) (duration : Number) (outputs : list Publish.Output)
    (Hrun : runPipeline dir w
            = (Success hash primary accent palette duration outputs, w')) :
  exists s cfg,
    hash = Str s /\ ParseLedger.hex_regex_test s = true /\
    DeriveColors.effective_config (deriving w) = Some cfg /\
    palette
    = map (fun i => DeriveColors.hex
                      (DeriveColors.color
                         (DeriveColors.swatch_at (toLowerCase s) cfg i)))
          (filter DeriveColors.complete_window
                  (seq 0 (Z.to_nat (DeriveColors.paletteSize_of cfg)))) /\
    palette <> [] /\
    primary = hd_error palette /\
    accent = Some (DeriveColors.hex
                     (DeriveColors.accent_of
                        (DeriveColors.swatch_at (toLowerCase s) cfg 0))) /\
    map Publish.type outputs = ["css"; "json"; "html"] /\
    exists new,
      Publish.files (publishing w') = (Publish.files (publishing w) ++ new)%list /\
      map fst new = map Publish.path outputs.
Proof.
  unfold runPipeline in Hrun. cbn [Date_now] in Hrun.
  match type of Hrun with
  | context [try_block dir ?w0] =>
      pose proof (try_block_returns dir w0) as Hsteps;
      destruct (try_block dir w0) as [[steps|e] w1]; [|discriminate]
  end.
  destruct (Hsteps steps w1 eq_refl)
    as (s & cfg & Hraw & Hhex & Hcfg & Hpal & Hne & Hprim & Hacc & Htypes & _ & _ & Hfiles).
  cbn [deriving publishing] in Hcfg, Hfiles.
  injection Hrun as <- <- <- <- _ <- <-. cbn [publishing].
  exists s, cfg. split; [exact Hraw|]. split; [exact Hhex|]. split; [exact Hcfg|].
  rewrite Hprim, Hacc, Hpal in *. clear Hprim Hacc Hpal.
  destruct (first_complete (Z.to_nat (DeriveColors.paletteSize_of cfg))) as [rest Hrest].
  { destruct (Z.to_nat (DeriveColors.paletteSize_of cfg)); [|lia].
    exfalso. apply Hne. reflexivity. }
  rewrite Hrest in *. cbn [map hd_error option_map].
  split; [rewrite map_map; reflexivity|]. split; [discriminate|].
  split; [reflexivity|]. split; [reflexivity|]. split; [exact Htypes | exact Hfiles].
Qed.

Lemma runPipeline_success_witness :
  match Scenario.cron_success with
  | (Success hash primary accent palette duration outputs, w') =>
      exists s cfg,
        hash = Str s /\ ParseLedger.hex_regex_test s = true /\
        DeriveColors.effective_config
          (deriving (Scenario.cron_world Scenario.latest_block Scenario.writable_disk))
        = Some cfg /\
        palette
        = map (fun i => DeriveColors.hex
                          (DeriveColors.color
                             (DeriveColors.swatch_at (toLowerCase s) cfg i)))
              (filter DeriveColors.complete_window
                      (seq 0 (Z.to_nat (DeriveColors.paletteSize_of cfg)))) /\
        palette <> [] /\
        primary = hd_error palette /\
        accent = Some (DeriveColors.hex
                         (DeriveColors.accent_of
                            (DeriveColors.swatch_at (toLowerCase s) cfg 0))) /\
        map Publish.type outputs = ["css"; "json"; "html"] /\
        exists new,
          Publish.files (publishing w')
          = (Publish.files
               (publishing (Scenario.cron_world Scenario.latest_block
                              Scenario.writable_disk)) ++ new)%list /\
          map fst new = map Publish.path outputs
  | (Failure _ _, _) => False
  end.
Proof.
  assert (Hrun : runPipeline "public"
                   (Scenario.cron_world Scenario.latest_block Scenario.writable_disk)
                 = Scenario.cron_success) by (vm_compute; reflexivity).
  exact (runPipeline_success "public" _ _ _ _ _ _ _ _ Hrun).
Defined.

Lemma prefix_append (p s : string) : String.prefix p (p ++ s) = true.
Proof.
  induction p as [|c p IH]; cbn.
  - destruct s; reflexivity.
  - destruct (ascii_dec c c) as [_|n]; [exact IH | contradiction].
Qed.





(** A run that fails may leave files behind: here the JSON file cannot be
    written, the run fails, and the two other files stay on the disk. *)
Example a_failed_run_leaves_files :
  match Scenario.cron_failure with
  | (Failure error _, w') =>
      error = "Publish failed: Failed to write JSON: EACCES: permission denied, open"
      /\ map fst (Publish.files (publishing w'))
         = ["/srv/blockhash/public/colors.css";
            "/srv/blockhash/public/colors-preview.html"]
  | _ => False
  end.
Proof. vm_compute. split; reflexivity. Qed.

End CronFacts.

(* ===================================================================== *)
(** * Properties of src/main.js                                           *)
(* ===================================================================== *)

Section SafeFacts.
Import JS Main.
Context {Result : Type}.
Variable options : Options Result.

Lemma safe_loop_eq attempt lastError (w : World Result) :
  safe_loop options attempt lastError w =
  if Z.of_nat attempt <=? retries_of options then
    match try_run options attempt w with
    | (inr result, w1) => (inr (Succeeded (Z.of_nat attempt + 1) result), w1)
    | (inl error, w1) =>
        match call (onError options) (Z.of_nat attempt + 1) error with
        | Some thrown => (inl thrown, w1)
        | None =>
            if negb (isRetryable error) || (retries_of options <=? Z.of_nat attempt)
            then (inr (failure_report (retries_of options) (Some error)), w1)
            else safe_loop options (S attempt) (Some error)
                   (sleep (1000 * (Z.of_nat attempt + 1)) w1)
        end
    end
  else (inr (failure_report (retries_of options) lastError), w).
Proof.
  simp safe_loop.
  destruct (sumbool_of_bool _) as [e|e];
    simp safe_loop; [|rewrite e; reflexivity].
  destruct (try_run options attempt w) as [[error|result] w1];
    simp safe_loop; [|rewrite e; reflexivity].
  destruct (call (onError options) (Z.of_nat attempt + 1) error);
    simp safe_loop; [rewrite e; reflexivity|].
  destruct (sumbool_of_bool _) as [e'|e']; simp safe_loop; rewrite e, e'; reflexivity.
Qed.

Lemma try_run_runs attempt (w : World Result) :
  runs (snd (try_run options attempt w)) = S (runs w) /\
  sleeps (snd (try_run options attempt w)) = sleeps w /\
  pipeline (snd (try_run options attempt w)) = pipeline w.
Proof.
  unfold try_run, runPipeline.
  destruct (pipeline w (runs w)) as [error|result]; cbn [snd].
  - repeat split.
  - destruct (call _ _ _); repeat split.
Qed.

(** From [attempt] on the loop makes [n + 1] runs, for some [n], with a
    wait before each but the first. *)
Lemma safe_loop_runs :
  forall budget attempt lastError (w : World Result),
    Z.to_nat (retries_of options - Z.of_nat attempt) = budget ->
    Z.of_nat attempt <= retries_of options ->
    exists n,
      (n <= budget)%nat /\
      runs (snd (safe_loop options attempt lastError w)) = (runs w + S n)%nat /\
      sleeps (snd (safe_loop options attempt lastError w))
      = (sleeps w ++ waits (S attempt) n)%list /\
      (forall attempts error errorType step,
         fst (safe_loop options attempt lastError w)
         = inr (Failed attempts error errorType step) ->
         attempts = retries_of options + 1).
Proof.
  induction budget as [|budget IH]; intros attempt lastError w Hb Hle;
    rewrite safe_loop_eq;
    (replace (Z.of_nat attempt <=? retries_of options) with true
       by (symmetry; apply Z.leb_le; lia));
    destruct (try_run_runs attempt w) as (Hr & Hs & _);
    destruct (try_run options attempt w) as [[error|result] w1];
    cbn [snd] in Hr, Hs.
  - destruct (call (onError options) (Z.of_nat attempt + 1) error).
    { exists 0%nat. cbn [fst snd waits seq map]. rewrite app_nil_r.
      split; [lia|]. split; [lia|]. split; [exact Hs|]. discriminate. }
    replace (retries_of options <=? Z.of_nat attempt) with true
      by (symmetry; apply Z.leb_le; lia).
    rewrite orb_true_r.
    exists 0%nat. cbn [fst snd waits seq map]. rewrite app_nil_r.
    split; [lia|]. split; [lia|]. split; [exact Hs|].
    unfold failure_report. intros a e t s [= <- _ _ _]. reflexivity.
  - exists 0%nat. cbn [fst snd waits seq map]. rewrite app_nil_r.
    split; [lia|]. split; [lia|]. split; [exact Hs|]. discriminate.
  - destruct (call (onError options) (Z.of_nat attempt + 1) error).
    { exists 0%nat. cbn [fst snd waits seq map]. rewrite app_nil_r.
      split; [lia|]. split; [lia|]. split; [exact Hs|]. discriminate. }
    destruct (negb (isRetryable error) || (retries_of options <=? Z.of_nat attempt))
      eqn:Hstop.
    { exists 0%nat. cbn [fst snd waits seq map]. rewrite app_nil_r.
      split; [lia|]. split; [lia|]. split; [exact Hs|].
      unfold failure_report. intros a e t s [= <- _ _ _]. reflexivity. }
    apply orb_false_iff in Hstop as [_ Hlast]. apply Z.leb_gt in Hlast.
    destruct (IH (S attempt) (Some error)
                 (sleep (1000 * (Z.of_nat attempt + 1)) w1) ltac:(lia) ltac:(lia))
      as (n & Hn & Hruns & Hsleeps & Hrep).
    cbn [sleep runs sleeps] in Hruns, Hsleeps.
    exists (S n). split; [lia|]. split; [lia|]. split; [|exact Hrep].
    rewrite Hsleeps, Hs, <- app_assoc. f_equal.
    unfold waits. cbn [seq map app]. f_equal. f_equal. lia.
  - exists 0%nat. cbn [fst snd waits seq map]. rewrite app_nil_r.
    split; [lia|]. split; [lia|]. split; [exact Hs|]. discriminate.
Qed.

(** X22.  With retries that are not negative, [runPipelineSafe] runs the
    pipeline n + 1 times for some n of at most [retries], and sleeps 1000 ms
    before the second run, 2000 ms before the third, and so on.  When it
    reports a failure, [attempts] is retries + 1, however many runs there
    were. *)
Theorem runPipelineSafe_runs_and_waits (w : World Result)
    (Hretries : 0 <= retries_of options) :
  exists n,
    (n <= Z.to_nat (retries_of options))%nat /\
    runs (snd (runPipelineSafe options w)) = (runs w + S n)%nat /\
    sleeps (snd (runPipelineSafe options w))
    = (sleeps w ++ map (fun k => 1000 * Z.of_nat k) (seq 1 n))%list /\
    (forall attempts error errorType step,
       fst (runPipelineSafe options w) = inr (Failed attempts error errorType step) ->
       attempts = retries_of options + 1).
Proof.
  unfold runPipelineSafe.
  destruct (safe_loop_runs (Z.to_nat (retries_of options)) 0 None w) as (n & H);
    [f_equal; lia | lia |].
  exists n. exact H.
Qed.

(** X23.  When the first run fails with an error whose message holds none
    of the retryable texts (and [onError] returns), [runPipelineSafe] runs
    the pipeline once, does not sleep, and still reports retries + 1
    attempts. *)
Theorem runPipelineSafe_stops_at_other_errors (w : World Result) (error : Error)
    (Hretries : 0 <= retries_of options)
    (Hrun : pipeline w (runs w) = inl error)
    (Hcallback : call (onError options) 1 error = None)
    (Hother : isRetryable error = false) :
  exists w',
    runPipelineSafe options w
    = (inr (failure_report (retries_of options) (Some error)), w') /\
    runs w' = S (runs w) /\ sleeps w' = sleeps w /\
    exists message errorType step,
      @failure_report Result (retries_of options) (Some error)
      = Failed (retries_of options + 1) message errorType step.
Proof.
  unfold runPipelineSafe. rewrite safe_loop_eq.
  replace (Z.of_nat 0 <=? retries_of options) with true
    by (symmetry; apply Z.leb_le; lia).
  unfold try_run, runPipeline. rewrite Hrun.
  change (Z.of_nat 0 + 1) with 1. rewrite Hcallback, Hother. cbn [negb orb].
  eexists. split; [reflexivity|]. split; [reflexivity|]. split; [reflexivity|].
  unfold failure_report. eexists _, _, _. reflexivity.
Qed.

Lemma prefix_is_included (p rest : string) : includes p (p ++ rest) = true.
Proof.
  pose proof (prefix_append p rest) as H.
  destruct (p ++ rest); cbn [includes]; rewrite H; reflexivity.
Qed.

(** X24.  What [fetchLatestBlockHash] throws when it has used up its
    attempts is a failure that [runPipelineSafe] retries, its message
    starting with "Failed to fetch"; so is the "Failed to fetch latest block
    hash" of the pipeline, while a hash that does not parse, colours that
    cannot be derived and modules that do not load are not retried. *)
Theorem exhausted_fetch_is_retried
    (rc : FetchBlockchain.RetryConfig) (lastError : option string)
    (name : string) (step : option string) :
  isRetryable {| name := name;
                 message := FetchBlockchain.failure_message rc lastError;
                 step := step |} = true /\
  map (fun text => isRetryable {| name := "Error"; message := text; step := None |})
      ["Failed to load modules"; "Failed to fetch latest block hash";
       "Failed to parse block hash"; "Failed to derive colors"]
  = [false; true; false; false].
Proof.
  split; [|reflexivity].
  unfold isRetryable. cbn [retryableErrors PIPELINE_CONFIG existsb message].
  unfold FetchBlockchain.failure_message.
  change ("Failed to fetch latest block hash after "
          ++ nat_to_string 10 (Z.of_nat (FetchBlockchain.maxRetries rc + 1))
          ++ " attempts: "
          ++ match lastError with Some m => m | None => "undefined" end)
    with ("Failed to fetch"
          ++ (" latest block hash after "
              ++ nat_to_string 10 (Z.of_nat (FetchBlockchain.maxRetries rc + 1))
              ++ " attempts: "
              ++ match lastError with Some m => m | None => "undefined" end)).
  rewrite prefix_is_included. reflexivity.
Qed.

(** After [n] runs that fail with retryable errors, a run that succeeds
    ends the loop. *)
Lemma safe_loop_succeeds (result : Result) :
  forall n attempt lastError (w : World Result),
    onStepComplete options = None -> onError options = None ->
    Z.of_nat (attempt + n) <= retries_of options ->
    (forall k, (k < n)%nat ->
       exists error, pipeline w (runs w + k)%nat = inl error /\
                     isRetryable error = true) ->
    pipeline w (runs w + n)%nat = inr result ->
    exists w',
      safe_loop options attempt lastError w
      = (inr (Succeeded (Z.of_nat (attempt + n) + 1) result), w') /\
      runs w' = (runs w + S n)%nat /\
      sleeps w' = (sleeps w ++ waits (S attempt) n)%list.
Proof.
  induction n as [|n IH]; intros attempt lastError w Hstep Herr Hle Hfail Hok;
    rewrite safe_loop_eq;
    (replace (Z.of_nat attempt <=? retries_of options) with true
       by (symmetry; apply Z.leb_le; lia));
    unfold try_run, runPipeline, call; rewrite Hstep, Herr.
  - rewrite Nat.add_0_r in Hok. rewrite Hok.
    eexists. split; [rewrite Nat.add_0_r; reflexivity|].
    cbn [runs sleeps waits seq map]. rewrite app_nil_r. split; [lia | reflexivity].
  - destruct (Hfail 0%nat ltac:(lia)) as (error & Hrun & Hretry).
    rewrite Nat.add_0_r in Hrun. rewrite Hrun, Hretry. cbn [negb orb].
    replace (retries_of options <=? Z.of_nat attempt) with false
      by (symmetry; apply Z.leb_gt; lia).
    match goal with
    | |- context [safe_loop options (S attempt) ?le ?w1] =>
        destruct (IH (S attempt) le w1 Hstep Herr) as (w' & Hres & Hruns & Hsleeps)
    end.
    + lia.
    + intros k Hk. cbn [sleep pipeline runs].
      replace (S (runs w) + k)%nat with (runs w + S k)%nat by lia.
      apply Hfail. lia.
    + cbn [sleep pipeline runs].
      replace (S (runs w) + n)%nat with (runs w + S n)%nat by lia. exact Hok.
    + exists w'. rewrite Hres. cbn [sleep runs sleeps] in Hruns, Hsleeps.
      split; [do 3 f_equal; lia|]. split; [lia|].
      rewrite Hsleeps, <- app_assoc. f_equal.
      unfold waits. cbn [seq map app]. f_equal. f_equal. lia.
Qed.

(** X25.  When the first n runs fail with retryable errors, n being at
    most [retries], and the next run succeeds, [runPipelineSafe] (without
    callbacks) returns the result of that run with attempt n + 1, after
    n + 1 runs and sleeps of 1000, 2000, ..., 1000 n ms. *)
Theorem runPipelineSafe_succeeds_after_retries
    (w : World Result) (n : nat) (result : Result)
    (Hstep : onStepComplete options = None)
    (Herror : onError options = None)
    (Hbudget : Z.of_nat n <= retries_of options)
    (Hfail : forall k, (k < n)%nat ->
               exists error, pipeline w (runs w + k)%nat = inl error /\
                             isRetryable error = true)
    (Hok : pipeline w (runs w + n)%nat = inr result) :
  exists w',
    runPipelineSafe options w = (inr (Succeeded (Z.of_nat n + 1) result), w') /\
    runs w' = (runs w + S n)%nat /\
    sleeps w' = (sleeps w ++ map (fun k => 1000 * Z.of_nat k) (seq 1 n))%list.
Proof.
  unfold runPipelineSafe.
  exact (safe_loop_succeeds result n 0 None w Hstep Herror Hbudget Hfail Hok).
Qed.

End SafeFacts.

Section SafeWitnesses.
Import JS Main.

Lemma runPipelineSafe_runs_and_waits_witness :
  exists n,
    (n <= Z.to_nat (retries_of Scenario.no_options))%nat /\
    runs (snd (runPipelineSafe Scenario.no_options Scenario.source_down))
    = (runs Scenario.source_down + S n)%nat /\
    sleeps (snd (runPipelineSafe Scenario.no_options Scenario.source_down))
    = (sleeps Scenario.source_down
       ++ map (fun k => 1000 * Z.of_nat k) (seq 1 n))%list /\
    (forall attempts error errorType step,
       fst (runPipelineSafe Scenario.no_options Scenario.source_down)
       = inr (Failed attempts error errorType step) ->
       attempts = retries_of Scenario.no_options + 1).
Proof.
  apply (runPipelineSafe_runs_and_waits Scenario.no_options Scenario.source_down).
  cbn. lia.
Defined.

(** With the defaults, a source that stays down costs three runs of the
    pipeline, a second and then two seconds apart. *)
Example three_runs_when_the_source_is_down :
  let '(result, w') := runPipelineSafe Scenario.no_options Scenario.source_down in
  result = inr (Failed 3
                  "Failed to fetch latest block hash after 4 attempts: HTTP 503: Service Unavailable"
                  "Error" "unknown")
  /\ runs w' = 3%nat /\ sleeps w' = [1000; 2000].
Proof. vm_compute. repeat split. Qed.

Lemma runPipelineSafe_stops_at_other_errors_witness :
  exists w',
    runPipelineSafe Scenario.no_options Scenario.bad_hash
    = (inr (failure_report (retries_of Scenario.no_options)
              (Some {| name := "Error"; message := "Failed to parse block hash";
                       step := None |})), w') /\
    runs w' = S (runs Scenario.bad_hash) /\ sleeps w' = sleeps Scenario.bad_hash /\
    exists message errorType step,
      @failure_report unit (retries_of Scenario.no_options)
        (Some {| name := "Error"; message := "Failed to parse block hash";
                 step := None |})
      = Failed (retries_of Scenario.no_options + 1) message errorType step.
Proof.
  apply (runPipelineSafe_stops_at_other_errors Scenario.no_options Scenario.bad_hash
           {| name := "Error"; message := "Failed to parse block hash"; step := None |}).
  - cbn. lia.
  - reflexivity.
  - reflexivity.
  - reflexivity.
Defined.

Lemma runPipelineSafe_succeeds_after_retries_witness :
  exists w',
    runPipelineSafe Scenario.no_options Scenario.recovers
    = (inr (Succeeded (Z.of_nat 2 + 1) tt), w') /\
    runs w' = (runs Scenario.recovers + 3)%nat /\
    sleeps w'
    = (sleeps Scenario.recovers ++ map (fun k => 1000 * Z.of_nat k) (seq 1 2))%list.
Proof.
  apply (runPipelineSafe_succeeds_after_retries Scenario.no_options
           Scenario.recovers 2 tt).
  - reflexivity.
  - reflexivity.
  - cbn. lia.
  - intros [|[|k]] Hk; [eexists; split; reflexivity | eexists; split; reflexivity | lia].
  - reflexivity.
Defined.

End SafeWitnesses.
